(** * Cluster resource aggregation and ranking (slurm_generator.py)

    A shallow embedding of the resource pipeline of [slurm_generator.py]:
    the row parser and aggregator ([get_detailed_partition_info]), the
    capacity inferencer ([infer_gpu_memory]), the ranker and filter
    ([get_available_resources]) and the progress-bar builder
    ([create_progress_bar]), followed by the properties established for
    them.

    Conventions.  Python [str] values are Rocq [string]s, read as sequences
    of code points below 256.  Python [int]s are [Z].  The ordered [dict]s
    of the source are association lists in insertion order.  The markup the
    source appends to [summary] is kept at the level of its blocks (which
    card, which partition, which numbers, in which order), not of its
    characters.  Python [float]s are the binary64 numbers of the standard
    library's [SpecFloat] (53 bits of precision, exponent bound 1024).
    The exceptions of the arithmetic on floats and of the interpolation of
    integers into text are kept: the division and the conversion of
    integers beyond the floats raise [OverflowError], and an integer of
    more than 4300 digits cannot be turned into text. *)

From Stdlib Require Import ZArith List String Ascii Bool Lia Permutation.
From Stdlib Require Import Sorted SpecFloat DecimalString.
Import ListNotations.

Local Open Scope string_scope.
Local Open Scope list_scope.
Local Open Scope Z_scope.

(** ** Python string primitives *)

Module PyStr.

(** [str.isspace] on one code point below 256: TAB..CR, FS..US, space,
    NEL and NBSP. *)
Definition is_space (c : ascii) : bool :=
  let n := N_of_ascii c in
  ((9 <=? n) && (n <=? 13) || (28 <=? n) && (n <=? 32)
   || (n =? 133) || (n =? 160))%N.

(** [str.lower] on one code point below 256: A..Z and the Latin-1
    capitals (0xC0..0xDE without the multiplication sign 0xD7). *)
Definition lower_char (c : ascii) : ascii :=
  let n := N_of_ascii c in
  if ((65 <=? n) && (n <=? 90)
      || (192 <=? n) && (n <=? 222) && negb (n =? 215))%N
  then ascii_of_N (n + 32) else c.

Fixpoint lower (s : string) : string :=
  match s with
  | EmptyString => EmptyString
  | String c s' => String (lower_char c) (lower s')
  end.

(** [s.startswith(p)]. *)
Fixpoint starts_with (p s : string) : bool :=
  match p, s with
  | EmptyString, _ => true
  | String a p', String b s' => Ascii.eqb a b && starts_with p' s'
  | String _ _, EmptyString => false
  end.

(** [frag in s]: [frag] occurs in [s] at some position. *)
Fixpoint contains (frag s : string) : bool :=
  starts_with frag s
  || match s with
     | EmptyString => false
     | String _ s' => contains frag s'
     end.

(** [s.replace(c, '')] for a one-character [c]. *)
Fixpoint remove_char (c : ascii) (s : string) : string :=
  match s with
  | EmptyString => EmptyString
  | String a s' =>
      if Ascii.eqb a c then remove_char c s' else String a (remove_char c s')
  end.

(** [s.split(sep)] for a one-character separator: never empty, keeps
    empty fields. *)
Fixpoint split_on (sep : ascii) (s : string) : list string :=
  match s with
  | EmptyString => [EmptyString]
  | String a s' =>
      if Ascii.eqb a sep then EmptyString :: split_on sep s'
      else match split_on sep s' with
           | [] => [String a EmptyString]
           | w :: ws => String a w :: ws
           end
  end.

(** [s.split()]: maximal runs of non-space characters. *)
Fixpoint split_ws (s : string) : list string :=
  match s with
  | EmptyString => []
  | String a s' =>
      if is_space a then split_ws s'
      else match s' with
           | EmptyString => [String a EmptyString]
           | String b _ =>
               if is_space b then String a EmptyString :: split_ws s'
               else match split_ws s' with
                    | [] => [String a EmptyString]
                    | w :: ws => String a w :: ws
                    end
           end
  end.

(** Stripping the characters that satisfy [sp] from both ends. *)
Fixpoint lstrip_by (sp : ascii -> bool) (s : string) : string :=
  match s with
  | EmptyString => EmptyString
  | String a s' => if sp a then lstrip_by sp s' else s
  end.

Fixpoint rstrip_by (sp : ascii -> bool) (s : string) : string :=
  match s with
  | EmptyString => EmptyString
  | String a s' =>
      match rstrip_by sp s' with
      | EmptyString => if sp a then EmptyString else String a EmptyString
      | t => String a t
      end
  end.

(** [s.strip()]. *)
Definition strip (s : string) : string :=
  rstrip_by is_space (lstrip_by is_space s).

(** [sep.join(ws)]. *)
Fixpoint join (sep : string) (ws : list string) : string :=
  match ws with
  | [] => EmptyString
  | [w] => w
  | w :: ws' => (w ++ sep ++ join sep ws')%string
  end.

Definition digit_of (c : ascii) : option Z :=
  let n := N_of_ascii c in
  if ((48 <=? n) && (n <=? 57))%N then Some (Z.of_N n - 48) else None.

(** The digits of an [int] literal after its sign: decimal digits, with
    single underscores allowed between two digits.  [prev] tells whether
    the previous character was a digit; the accumulator holds the value
    and the number of digits read. *)
Fixpoint int_digits (prev : bool) (acc : Z) (n : nat) (s : string)
  : option (Z * nat) :=
  match s with
  | EmptyString => if prev then Some (acc, n) else None
  | String c s' =>
      match digit_of c with
      | Some d => int_digits true (10 * acc + d) (S n) s'
      | None =>
          if Ascii.eqb c "_" && prev then int_digits false acc n s'
          else None
      end
  end.

(** The interpreter's default limit on the digits of a decimal literal. *)
Definition max_str_digits : nat := 4300.

(** The white space of the C locale: TAB..CR and space. *)
Definition is_c_space (c : ascii) : bool :=
  let n := N_of_ascii c in
  ((9 <=? n) && (n <=? 13) || (n =? 32))%N.

(** Before parsing, a white-space character from 127 on becomes a
    space; characters below 127 are kept. *)
Fixpoint spaces_to_ascii (s : string) : string :=
  match s with
  | EmptyString => EmptyString
  | String c s' =>
      String (if (127 <=? N_of_ascii c)%N && is_space c then " "%char else c)
             (spaces_to_ascii s')
  end.

(** [int(s)] in base 10: surrounding C white space, an optional sign, then
    the digits.  [None] stands for [ValueError]. *)
Definition int (s : string) : option Z :=
  let body (t : string) :=
    match int_digits false 0 0 t with
    | Some (v, n) => if (n <=? max_str_digits)%nat then Some v else None
    | None => None
    end in
  match rstrip_by is_c_space (lstrip_by is_c_space (spaces_to_ascii s)) with
  | String "-" t => option_map Z.opp (body t)
  | String "+" t => body t
  | t => body t
  end.

End PyStr.

(** ** The accelerator catalog and the capacity inferencer *)

(** [GPU_MEMORY]: a dict literal, iterated in the order it is written. *)
Definition GPU_MEMORY : list (string * Z) :=
  [ ("a100", 40); ("h200", 141); ("v100", 16); ("a5000", 24);
    ("a5500", 24); ("l40s", 48); ("l40sx", 48); ("2080ti", 11);
    ("rtx2080ti", 11); ("a6000", 48); ("a40", 48); ("rtx3090", 24);
    ("rtx4090", 24); ("titan", 24) ].

(** The loop of [infer_gpu_memory] over the items of a catalog. *)
Fixpoint first_match (catalog : list (string * Z)) (partition_lower : string)
  : option Z :=
  match catalog with
  | [] => None
  | (gpu_type, memory) :: rest =>
      if PyStr.contains gpu_type partition_lower then Some memory
      else first_match rest partition_lower
  end.

Definition infer_gpu_memory (partition_name : string) : option Z :=
  let partition_lower := PyStr.lower partition_name in
  first_match GPU_MEMORY partition_lower.

(** ** Exceptions and the body of the row loop *)

(** The exceptions the pipeline can meet: [int] rejecting a literal,
    whatever launching the external command may raise, the two errors of
    the division of integers ([OverflowError] is also what the conversion
    of a large [int] to a float raises), and the [ValueError] of turning an
    [int] of more than 4300 digits into text. *)
Inductive exn : Type :=
| ValueError (literal : string)
| LaunchError (message : string)
| ZeroDivisionError
| OverflowError
| ValueErrorDigits.

(** One pass through the body of the [for line in lines[1:]] loop either
    runs to its end, leaves the row by [continue] (or by the false branch
    of the field-count test), or raises. *)
Inductive body (A : Type) : Type :=
| Done (a : A)
| Skip
| Throw (e : exn).
Arguments Done {A} a.
Arguments Skip {A}.
Arguments Throw {A} e.

Definition bind {A B : Type} (c : body A) (k : A -> body B) : body B :=
  match c with
  | Done a => k a
  | Skip => Skip
  | Throw e => Throw e
  end.

Notation "x <- c ;; k" := (bind c (fun x => k))
  (at level 61, c at next level, right associativity).

(** [int(s)] inside the loop body. *)
Definition to_int (s : string) : body Z :=
  match PyStr.int s with
  | Some z => Done z
  | None => Throw (ValueError s)
  end.

(** ** The row parser *)

(** The local variables of one loop iteration, once all are assigned. *)
Record row : Type := {
  row_partition_name : string;
  row_allocated_nodes : Z;
  row_idle_nodes : Z;
  row_other_nodes : Z;
  row_total_nodes : Z;
  row_allocated_cpus : Z;
  row_idle_cpus : Z;
  row_other_cpus : Z;
  row_total_cpus : Z;
  row_nodes_count : Z;
  row_timelimit : string;
  row_state : string;
  row_nodelist : string
}.

(** A ratio field: [info = field.split('/')], four [int]s when
    [len(info) == 4], [continue] otherwise. *)
Definition parse_ratio (field : string) : body (Z * Z * Z * Z) :=
  let info := PyStr.split_on "/" field in
  if (List.length info =? 4)%nat then
    allocated <- to_int (nth 0 info "") ;;
    idle <- to_int (nth 1 info "") ;;
    other <- to_int (nth 2 info "") ;;
    total <- to_int (nth 3 info "") ;;
    Done (allocated, idle, other, total)
  else Skip.

Definition parse_line (line : string) : body row :=
  let parts := PyStr.split_ws line in
  if (7 <=? List.length parts)%nat then
    let partition_name := PyStr.remove_char "*" (nth 0 parts "") in
    nodes <- parse_ratio (nth 1 parts "") ;;
    cpus <- parse_ratio (nth 2 parts "") ;;
    nodes_count <- to_int (nth 3 parts "") ;;
    let '(allocated_nodes, idle_nodes, other_nodes, total_nodes) := nodes in
    let '(allocated_cpus, idle_cpus, other_cpus, total_cpus) := cpus in
    Done {| row_partition_name := partition_name;
            row_allocated_nodes := allocated_nodes;
            row_idle_nodes := idle_nodes;
            row_other_nodes := other_nodes;
            row_total_nodes := total_nodes;
            row_allocated_cpus := allocated_cpus;
            row_idle_cpus := idle_cpus;
            row_other_cpus := other_cpus;
            row_total_cpus := total_cpus;
            row_nodes_count := nodes_count;
            row_timelimit := nth 4 parts "";
            row_state := nth 5 parts "";
            row_nodelist := PyStr.join " " (skipn 6 parts) |}
  else Skip.

(** ** The partition aggregator *)

(** A value of the [partitions] dict. *)
Record partition : Type := {
  name : string;
  allocated_nodes : Z;
  idle_nodes : Z;
  other_nodes : Z;
  total_nodes : Z;
  allocated_cpus : Z;
  idle_cpus : Z;
  other_cpus : Z;
  total_cpus : Z;
  timelimit : string;
  states : list string;
  nodelists : list string
}.

(** The [partitions] dict: keys in insertion order, each key once. *)
Definition dict : Type := list (string * partition).

Fixpoint dict_mem (k : string) (d : dict) : bool :=
  match d with
  | [] => false
  | (k', _) :: d' => String.eqb k k' || dict_mem k d'
  end.

Fixpoint dict_get (k : string) (d : dict) : option partition :=
  match d with
  | [] => None
  | (k', v) :: d' => if String.eqb k k' then Some v else dict_get k d'
  end.

(** [d[k] = f(d[k])] for a key that is present. *)
Fixpoint dict_update (k : string) (f : partition -> partition) (d : dict)
  : dict :=
  match d with
  | [] => []
  | (k', v) :: d' =>
      if String.eqb k k' then (k', f v) :: d'
      else (k', v) :: dict_update k f d'
  end.

(** [list(d.values())]. *)
Definition dict_values (d : dict) : list partition := map snd d.

(** The record stored for a partition name seen for the first time. *)
Definition fresh_partition (r : row) : partition :=
  {| name := row_partition_name r;
     allocated_nodes := 0; idle_nodes := 0; other_nodes := 0;
     total_nodes := 0;
     allocated_cpus := 0; idle_cpus := 0; other_cpus := 0;
     total_cpus := 0;
     timelimit := row_timelimit r;
     states := [];
     nodelists := [] |}.

(** The ten [+=] and [append] statements. *)
Definition accumulate (r : row) (p : partition) : partition :=
  {| name := name p;
     allocated_nodes := allocated_nodes p + row_allocated_nodes r;
     idle_nodes := idle_nodes p + row_idle_nodes r;
     other_nodes := other_nodes p + row_other_nodes r;
     total_nodes := total_nodes p + row_total_nodes r;
     allocated_cpus := allocated_cpus p + row_allocated_cpus r;
     idle_cpus := idle_cpus p + row_idle_cpus r;
     other_cpus := other_cpus p + row_other_cpus r;
     total_cpus := total_cpus p + row_total_cpus r;
     timelimit := timelimit p;
     states := states p ++ [row_state r];
     nodelists := nodelists p ++ [row_nodelist r] |}.

Definition add_row (partitions : dict) (r : row) : dict :=
  let k := row_partition_name r in
  let partitions :=
    if dict_mem k partitions then partitions
    else partitions ++ [(k, fresh_partition r)] in
  dict_update k (accumulate r) partitions.

(** The loop over [lines[1:]], from a given state of [partitions]. *)
Fixpoint aggregate_lines (partitions : dict) (lines : list string)
  : exn + dict :=
  match lines with
  | [] => inr partitions
  | line :: rest =>
      match parse_line line with
      | Done r => aggregate_lines (add_row partitions r) rest
      | Skip => aggregate_lines partitions rest
      | Throw e => inl e
      end
  end.

(** ** get_detailed_partition_info *)

(** What [subprocess.run] can do: complete, time out, or fail to launch. *)
Inductive run_outcome : Type :=
| Completed (returncode : Z) (stdout : string)
| TimeoutExpired
| RunRaised (e : exn).

(** The second component of the returned pair when it is not [None]. *)
Inductive info_error : Type :=
| SinfoFailed
| NoOutput
| TimedOut
| Unexpected (e : exn).

(** The fixed messages; the last one is [f"Error: {str(e)}"], whose tail
    is the interpreter's rendering of the exception. *)
Definition error_message (str_e : exn -> string) (e : info_error) : string :=
  match e with
  | SinfoFailed => "Error running sinfo command"
  | NoOutput => "No sinfo output"
  | TimedOut => "sinfo command timed out"
  | Unexpected x => ("Error: " ++ str_e x)%string
  end.

(** The returned pair: [(partitions, None)] or [(None, error)]. *)
Inductive info : Type :=
| Info (partitions : list partition)
| Failed (error : info_error).

(** The function from [lines = result.stdout.strip().split('\n')] on. *)
Definition info_of_lines (lines : list string) : info :=
  if (List.length lines <? 2)%nat then Failed NoOutput
  else match aggregate_lines [] (tl lines) with
       | inr partitions => Info (dict_values partitions)
       | inl e => Failed (Unexpected e)
       end.

Definition get_detailed_partition_info (result : run_outcome) : info :=
  match result with
  | TimeoutExpired => Failed TimedOut
  | RunRaised e => Failed (Unexpected e)
  | Completed returncode stdout =>
      if negb (returncode =? 0) then Failed SinfoFailed
      else info_of_lines (PyStr.split_on "010" (PyStr.strip stdout))
  end.

(** ** Sorting as the source uses it *)

(** [l.sort(key=key, reverse=True)] and [sorted(l, reverse=True)]: a
    stable sort into descending key order.  Elements with equal keys keep
    their order, so the result does not depend on the sorting algorithm;
    it is computed here by insertion from the right. *)
Section PySort.
Context {A K : Type} (key : A -> K) (ltb : K -> K -> bool).

Fixpoint insert_desc (x : A) (l : list A) : list A :=
  match l with
  | [] => [x]
  | y :: l' =>
      if ltb (key x) (key y) then y :: insert_desc x l' else x :: y :: l'
  end.

Definition sort_reverse (l : list A) : list A :=
  fold_right insert_desc [] l.
End PySort.

(** Python's order on pairs of integers. *)
Definition pair_ltb (a b : Z * Z) : bool :=
  (fst a <? fst b) || ((fst a =? fst b) && (snd a <? snd b)).

(** ** get_available_resources *)

(** A partition dict once the first loop has added its three keys. *)
Record ranked : Type := {
  part : partition;
  available_nodes : Z;
  availability_score : Z;
  gpu_memory : option Z
}.

(** The body of the first loop up to the categorisation.  The source
    assigns [available_nodes] and [availability_score] twice; the first
    values, [idle + (total - allocated - idle - other)] and its score, are
    overwritten by the ones below before anything reads them. *)
Definition annotate (p : partition) : ranked :=
  let gpu_mem := infer_gpu_memory (name p) in
  let available := Z.max 0 (total_nodes p - allocated_nodes p - other_nodes p) in
  let score := if 0 <? total_nodes p then available else 0 in
  {| part := p;
     available_nodes := available;
     availability_score := score;
     gpu_memory := gpu_mem |}.

(** [gpu_partitions], a [defaultdict(list)] keyed by per-card memory. *)
Definition groups : Type := list (Z * list ranked).

(** [gpu_partitions[k].append(x)]. *)
Fixpoint group_append (k : Z) (x : ranked) (g : groups) : groups :=
  match g with
  | [] => [(k, [x])]
  | (k', xs) :: g' =>
      if k =? k' then (k', xs ++ [x]) :: g'
      else (k', xs) :: group_append k x g'
  end.

(** [gpu_partitions[k]] for a key of the dict. *)
Fixpoint group_get (k : Z) (g : groups) : list ranked :=
  match g with
  | [] => []
  | (k', xs) :: g' => if k =? k' then xs else group_get k g'
  end.

(** [if gpu_mem:] is false for [None] and for [0]. *)
Definition gpu_class (x : ranked) : option Z :=
  match gpu_memory x with
  | Some m => if m =? 0 then None else Some m
  | None => None
  end.

(** One iteration of the first loop, from the annotated partition on. *)
Definition categorize_one (acc : groups * list ranked) (p : partition)
  : groups * list ranked :=
  let x := annotate p in
  match gpu_class x with
  | Some gpu_mem => (group_append gpu_mem x (fst acc), snd acc)
  | None => (fst acc, snd acc ++ [x])
  end.

(** The first loop: [(gpu_partitions, cpu_partitions)]. *)
Definition categorize (partitions : list partition) : groups * list ranked :=
  fold_left categorize_one partitions ([], []).

(** The sort key [(x['availability_score'], x['idle_nodes'])]. *)
Definition sort_key (x : ranked) : Z * Z :=
  (availability_score x, idle_nodes (part x)).

Definition sort_partitions (l : list ranked) : list ranked :=
  sort_reverse sort_key pair_ltb l.

(** The filter test of one partition inside the card loop. *)
Definition passes (min_gpu_memory gpu_mem : Z) (x : ranked) : bool :=
  let partition_available_nodes :=
    total_nodes (part x) - allocated_nodes (part x) in
  let partition_total_gpu_memory := gpu_mem * partition_available_nodes in
  (min_gpu_memory =? 0) || (min_gpu_memory <=? partition_total_gpu_memory).

(** An entry of [filtered_results].  The value of [availability_pct], a
    float nothing downstream reads, is left out; what computing it can
    raise is [availability_pct_raises] below. *)
Record result : Type := {
  res_partition : string;
  res_gpu_memory : Z;
  res_total_nodes : Z;
  res_available_nodes : Z;
  res_idle_nodes : Z;
  res_allocated_nodes : Z;
  res_timelimit : string;
  res_total_available_gpu_memory : Z
}.

Definition sum_of (f : partition -> Z) (l : list ranked) : Z :=
  fold_right (fun x acc => f (part x) + acc) 0 l.

(** One card of the GPU section: a capacity value, the partitions shown
    under it and the numbers of its header.  Its colour is left out; what
    computing it can raise is in [card_raises] below. *)
Record card : Type := {
  card_gpu_mem : Z;
  card_partitions : list ranked;
  card_group_size : nat;
  card_partial : bool;
  card_total_nodes_sum : Z;
  card_idle_nodes_sum : Z;
  card_available_nodes_sum : Z;
  card_total_available_gpu_memory : Z
}.

Definition make_card (min_gpu_memory gpu_mem : Z)
    (partitions_list filtered_partitions : list ranked) : card :=
  let total_nodes_sum := sum_of total_nodes filtered_partitions in
  let idle_nodes_sum := sum_of idle_nodes filtered_partitions in
  let allocated_nodes_sum := sum_of allocated_nodes filtered_partitions in
  let available_nodes_sum := total_nodes_sum - allocated_nodes_sum in
  {| card_gpu_mem := gpu_mem;
     card_partitions := filtered_partitions;
     card_group_size := List.length partitions_list;
     card_partial :=
       (0 <? min_gpu_memory)
       && (List.length filtered_partitions <? List.length partitions_list)%nat;
     card_total_nodes_sum := total_nodes_sum;
     card_idle_nodes_sum := idle_nodes_sum;
     card_available_nodes_sum := available_nodes_sum;
     card_total_available_gpu_memory := gpu_mem * available_nodes_sum |}.

(** The entry a shown partition adds to [filtered_results], if any. *)
Definition result_of (gpu_mem : Z) (x : ranked) : list result :=
  let p := part x in
  if (0 <? idle_nodes p) || (0 <? total_nodes p - allocated_nodes p) then
    let available := total_nodes p - allocated_nodes p in
    [ {| res_partition := name p;
         res_gpu_memory := gpu_mem;
         res_total_nodes := total_nodes p;
         res_available_nodes := available;
         res_idle_nodes := idle_nodes p;
         res_allocated_nodes := allocated_nodes p;
         res_timelimit := timelimit p;
         res_total_available_gpu_memory := gpu_mem * available |} ]
  else [].

(** The loop [for gpu_mem in sorted(gpu_partitions.keys(), reverse=True)]
    over already sorted groups: the cards shown, in order, and the entries
    appended to [filtered_results]. *)
Fixpoint gpu_cards (min_gpu_memory : Z) (gpu_partitions : groups)
    (keys : list Z) : list card * list result :=
  match keys with
  | [] => ([], [])
  | gpu_mem :: keys' =>
      let partitions_list := group_get gpu_mem gpu_partitions in
      let filtered_partitions :=
        filter (passes min_gpu_memory gpu_mem) partitions_list in
      let '(cards, results) := gpu_cards min_gpu_memory gpu_partitions keys' in
      match filtered_partitions with
      | [] => (cards, results)
      | _ :: _ =>
          (make_card min_gpu_memory gpu_mem partitions_list filtered_partitions
             :: cards,
           flat_map (result_of gpu_mem) filtered_partitions ++ results)
      end
  end.

(** The blocks appended to [summary], in order. *)
Inductive block : Type :=
| Banner
| GpuHeading (filtering : bool)
| GpuCard (c : card)
| GpuTypesShown (displayed_gpu_types total_gpu_types : nat)
| NoGpuFound
| CpuSection (cpu_partitions : list ranked)
| BestTable (filtered_results : list result)
| Legend.

(** How a call ends: it returns the error text or the joined summary, or
    an exception leaves it (the function has no handler of its own). *)
Inductive output : Type :=
| ErrorText (error : info_error)
| Summary (blocks : list block)
| Raised (e : exn).

Definition sorted_groups (gpu_partitions : groups) : groups :=
  map (fun kv => (fst kv, sort_partitions (snd kv))) gpu_partitions.

Definition sorted_keys (gpu_partitions : groups) : list Z :=
  sort_reverse (fun k : Z => k) Z.ltb (map fst gpu_partitions).

(** The block [if gpu_partitions:]. *)
Definition gpu_section (min_gpu_memory : Z) (gpu_partitions : groups)
    (cards : list card) : list block :=
  let has_displayed_gpu := negb (Nat.eqb (List.length cards) 0) in
  match gpu_partitions with
  | [] => []
  | _ :: _ =>
      [GpuHeading (0 <? min_gpu_memory)]
      ++ map GpuCard cards
      ++ (if (0 <? min_gpu_memory) && has_displayed_gpu
          then [GpuTypesShown (List.length cards) (List.length gpu_partitions)]
          else [])
      ++ (if negb has_displayed_gpu && (0 <? min_gpu_memory)
          then [NoGpuFound] else [])
  end.

(** The block [if cpu_partitions:]. *)
Definition cpu_section (cpu_partitions : list ranked) : list block :=
  match cpu_partitions with
  | [] => []
  | _ :: _ => [CpuSection cpu_partitions]
  end.

(** The block [if min_gpu_memory > 0 and filtered_results:]. *)
Definition table_section (min_gpu_memory : Z) (filtered_results : list result)
  : list block :=
  match filtered_results with
  | [] => []
  | _ :: _ =>
      if 0 <? min_gpu_memory
      then [BestTable (sort_reverse res_total_available_gpu_memory Z.ltb
                         filtered_results)]
      else []
  end.

(** The function after the error test: the blocks appended to [summary],
    in order.  The arithmetic on floats and the interpolations of integers
    that can raise on the way are listed, in the same order, by
    [render_raises] below; [render] is the list the function joins and
    returns when none of them raises. *)
Definition render (min_gpu_memory : Z) (partitions : list partition)
  : list block :=
  let '(gpu_partitions, cpu_partitions) := categorize partitions in
  let gpu_partitions := sorted_groups gpu_partitions in
  let cpu_partitions := sort_partitions cpu_partitions in
  let '(cards, filtered_results) :=
    gpu_cards min_gpu_memory gpu_partitions (sorted_keys gpu_partitions) in
  [Banner]
  ++ gpu_section min_gpu_memory gpu_partitions cards
  ++ cpu_section cpu_partitions
  ++ table_section min_gpu_memory filtered_results
  ++ [Legend].

(** ** create_progress_bar *)

(** The function computes the percentage, chooses the colours and then
    builds the markup with an f-string, which interpolates the percentage,
    the colours and the integers [used], [total] and [available]. *)

(** A Python number: an [int] or a [float]. *)
Inductive number : Type :=
| PyInt (z : Z)
| PyFloat (f : spec_float).

(** An [int] as an operand of a float operation, exactly. *)
Definition int_operand (z : Z) : spec_float :=
  match z with
  | Z0 => S754_zero false
  | Zpos p => S754_finite false p 0
  | Zneg p => S754_finite true p 0
  end.

(** [float(z)] for an [int] that a float holds exactly. *)
Definition float_of_int (z : Z) : spec_float :=
  binary_normalize 53 1024 z 0 false.

(** [a / b] on two [int]s: the correctly rounded quotient;
    [ZeroDivisionError] for a zero divisor, [OverflowError] when the
    rounded quotient is beyond the largest float. *)
Definition true_divide (a b : Z) : exn + spec_float :=
  if b =? 0 then inl ZeroDivisionError
  else match SFdiv 53 1024 (int_operand a) (int_operand b) with
       | S754_infinity _ => inl OverflowError
       | q => inr q
       end.

(** [x >= n] for a number [x] and a small [int] literal [n]. *)
Definition number_geb (x : number) (n : Z) : bool :=
  match x with
  | PyInt z => n <=? z
  | PyFloat f => SFleb (float_of_int n) f
  end.

(** [float(z)] as the product of an [int] and a float takes it:
    [OverflowError] when the nearest float is beyond the largest one. *)
Definition int_to_float (z : Z) : exn + spec_float :=
  match float_of_int z with
  | S754_infinity _ => inl OverflowError
  | f => inr f
  end.

(** The least magnitude whose decimal text is beyond the interpreter's
    limit on digits. *)
Definition int_str_bound : Z := 10 ^ Z.of_nat PyStr.max_str_digits.

(** What a statement raises, [None] when it raises nothing, and the first
    exception of statements run in order. *)
Fixpoint first_raise (statements : list (option exn)) : option exn :=
  match statements with
  | [] => None
  | Some e :: _ => Some e
  | None :: rest => first_raise rest
  end.

(** An [int] interpolated into an f-string: its decimal text has at most
    [max_str_digits] digits, the sign not counted, or the conversion
    raises.  (A float, a [str] and a [len] interpolate without raising.) *)
Definition format_int (z : Z) : option exn :=
  if Z.abs z <? int_str_bound then None else Some ValueErrorDigits.

(** The values interpolated into the returned markup. *)
Record progress_bar : Type := {
  pb_percentage : number;
  pb_bar_color : string;
  pb_bg_color : string;
  pb_used : Z;
  pb_total : Z;
  pb_available : Z
}.

Definition create_progress_bar (used total : Z) : exn + progress_bar :=
  let percentage : exn + number :=
    if total =? 0 then inr (PyInt 0)
    else match true_divide used total with
         | inl e => inl e
         | inr q => inr (PyFloat (SFmul 53 1024 q (float_of_int 100)))
         end in
  match percentage with
  | inl e => inl e
  | inr percentage =>
      let available := total - used in
      let '(bar_color, bg_color) :=
        if number_geb percentage 90 then ("#EF5350", "#FFCDD2")
        else if number_geb percentage 70 then ("#FFA726", "#FFE0B2")
        else if number_geb percentage 40 then ("#FFA726", "#FFE0B2")
        else ("#66BB6A", "#C8E6C9") in
      match first_raise [format_int used; format_int total;
                         format_int available] with
      | Some e => inl e
      | None =>
          inr {| pb_percentage := percentage;
                 pb_bar_color := bar_color;
                 pb_bg_color := bg_color;
                 pb_used := used;
                 pb_total := total;
                 pb_available := available |}
      end
  end.

(** ** get_available_resources: what can raise, and the function *)

(** A call of [create_progress_bar] as a statement. *)
Definition bar_raises (used total : Z) : option exn :=
  match create_progress_bar used total with
  | inl e => Some e
  | inr _ => None
  end.

(** [(available_nodes / total_nodes * 100) if total_nodes > 0 else 0] in an
    entry of [filtered_results]: the division can overflow, the product of
    two floats cannot raise. *)
Definition availability_pct_raises (p : partition) : option exn :=
  if 0 <? total_nodes p
  then match true_divide (total_nodes p - allocated_nodes p) (total_nodes p) with
       | inl e => Some e
       | inr _ => None
       end
  else None.

(** The body of the loop over the partitions of a card: the header with
    its three integers, the two bars, the details with their four
    integers, and the entry appended to [filtered_results]. *)
Definition gpu_partition_raises (gpu_mem : Z) (x : ranked)
  : list (option exn) :=
  let p := part x in
  let partition_available_nodes := total_nodes p - allocated_nodes p in
  let partition_available_gpu_memory := gpu_mem * partition_available_nodes in
  [ format_int partition_available_gpu_memory;
    format_int gpu_mem;
    format_int partition_available_nodes;
    bar_raises (allocated_nodes p) (total_nodes p);
    bar_raises (allocated_cpus p) (total_cpus p);
    format_int (idle_nodes p);
    format_int (allocated_nodes p);
    format_int (total_cpus p);
    format_int (idle_cpus p
                + (total_cpus p - allocated_cpus p - idle_cpus p
                   - other_cpus p));
    if (0 <? idle_nodes p) || (0 <? total_nodes p - allocated_nodes p)
    then availability_pct_raises p else None ].

(** One card: the product [total_nodes_sum * 0.3] of the colour test
    converts the sum to a float (the comparison that follows is exact and
    raises nothing; the colour is not kept); then the header, whose second
    line interpolates the total only when the card is not partial; then the
    partitions. *)
Definition card_raises (c : card) : list (option exn) :=
  [ match int_to_float (card_total_nodes_sum c) with
    | inl e => Some e
    | inr _ => None
    end;
    format_int (card_gpu_mem c);
    format_int (card_total_available_gpu_memory c);
    format_int (card_available_nodes_sum c);
    format_int (card_idle_nodes_sum c) ]
  ++ (if card_partial c then [] else [format_int (card_total_nodes_sum c)])
  ++ flat_map (gpu_partition_raises (card_gpu_mem c)) (card_partitions c).

(** The block [if gpu_partitions:]: the heading interpolates the threshold
    when it is positive, and so does either notice after the cards. *)
Definition gpu_section_raises (min_gpu_memory : Z) (gpu_partitions : groups)
    (cards : list card) : list (option exn) :=
  match gpu_partitions with
  | [] => []
  | _ :: _ =>
      (if 0 <? min_gpu_memory then [format_int min_gpu_memory] else [])
      ++ flat_map card_raises cards
      ++ (if 0 <? min_gpu_memory then [format_int min_gpu_memory] else [])
  end.

(** The body of the loop over [cpu_partitions]. *)
Definition cpu_partition_raises (x : ranked) : list (option exn) :=
  let p := part x in
  [ bar_raises (allocated_nodes p) (total_nodes p);
    bar_raises (allocated_cpus p) (total_cpus p);
    format_int (idle_nodes p);
    format_int (allocated_nodes p);
    format_int (total_cpus p);
    format_int (idle_cpus p) ].

(** One row of the table. *)
Definition result_raises (r : result) : list (option exn) :=
  [ format_int (res_gpu_memory r);
    format_int (res_total_available_gpu_memory r);
    format_int (res_gpu_memory r);
    format_int (res_available_nodes r);
    format_int (res_available_nodes r);
    format_int (res_idle_nodes r) ].

(** The block [if min_gpu_memory > 0 and filtered_results:]. *)
Definition table_section_raises (min_gpu_memory : Z)
    (filtered_results : list result) : list (option exn) :=
  match filtered_results with
  | [] => []
  | _ :: _ =>
      if 0 <? min_gpu_memory
      then format_int min_gpu_memory
           :: flat_map result_raises
                (sort_reverse res_total_available_gpu_memory Z.ltb
                   filtered_results)
      else []
  end.

(** The first exception met while the blocks of [render] are built, if
    any: the statements that can raise, in the order of the source. *)
Definition render_raises (min_gpu_memory : Z) (partitions : list partition)
  : option exn :=
  let '(gpu_partitions, cpu_partitions) := categorize partitions in
  let gpu_partitions := sorted_groups gpu_partitions in
  let cpu_partitions := sort_partitions cpu_partitions in
  let '(cards, filtered_results) :=
    gpu_cards min_gpu_memory gpu_partitions (sorted_keys gpu_partitions) in
  first_raise
    (gpu_section_raises min_gpu_memory gpu_partitions cards
     ++ flat_map cpu_partition_raises cpu_partitions
     ++ table_section_raises min_gpu_memory filtered_results).

Definition get_available_resources (min_gpu_memory : Z) (result : run_outcome)
  : output :=
  match get_detailed_partition_info result with
  | Failed error => ErrorText error
  | Info partitions =>
      match render_raises min_gpu_memory partitions with
      | Some e => Raised e
      | None => Summary (render min_gpu_memory partitions)
      end
  end.

(** ** generate_slurm_script *)

(** The arguments are taken as the interface passes them: the text boxes
    and the drop-down lists give [str], the sliders give [int], the check
    box gives [bool].  On [int] arguments [int(...)] cannot fail, so the
    three "Invalid ... value" errors and the return "Invalid numeric values
    in resource allocation" are not reached, and they are left out.  The
    returned text is kept at the level of its pieces: the messages of a
    refusal, or the chunks of the script, each of which the source ends with
    a line feed; the marks that decorate the messages are not kept. *)
Module SlurmScript.

Record form : Type := {
  job_name : string;
  account : string;
  partition : string;
  nodes : Z;
  ntasks_per_node : Z;
  cpus_per_task : Z;
  memory : string;
  walltime : string;
  program_file : string;
  program_args : string;
  gpu_count : Z;
  output_file : string;
  error_file : string;
  combine_output : bool;
  array_indices : string;
  dependency_type : string;
  dependency_job_ids : string;
  mail_type : string;
  mail_user : string;
  export_env : string;
  nodelist : string;
  signal_time : Z
}.

(** The truth value of a [str]: [true] unless it is empty. *)
Definition truthy (s : string) : bool :=
  match s with
  | EmptyString => false
  | String _ _ => true
  end.

(** [s and s.strip()] as a condition. *)
Definition filled (s : string) : bool := truthy s && truthy (PyStr.strip s).

(** [not s or not s.strip()]. *)
Definition missing (s : string) : bool :=
  negb (truthy s) || negb (truthy (PyStr.strip s)).

(** [s.endswith(suffix)]. *)
Fixpoint ends_with (suffix s : string) : bool :=
  String.eqb suffix s
  || match s with
     | EmptyString => false
     | String _ s' => ends_with suffix s'
     end.

(** [c.isdigit()] on a code point below 256: the ten digits and the
    superscripts two, three and one. *)
Definition is_digit (c : ascii) : bool :=
  let n := N_of_ascii c in
  ((48 <=? n) && (n <=? 57) || (n =? 178) || (n =? 179) || (n =? 185))%N.

(** [any(c.isdigit() for c in s)]. *)
Fixpoint any_digit (s : string) : bool :=
  match s with
  | EmptyString => false
  | String c s' => is_digit c || any_digit s'
  end.

(** [str(z)] for an [int]. *)
Definition str_of_int (z : Z) : string := NilZero.string_of_int (Z.to_int z).

Definition common_extensions : list string :=
  [".py"; ".sh"; ".R"; ".m"; ".cpp"; ".c"; ".f90"; ".f"; ".pl"; ".rb";
   ".go"; ".rs"].

(** The check of the wall time: the errors it appends. *)
Definition walltime_errors (walltime : string) : list string :=
  if negb (truthy walltime) then ["Wall Time is required"]
  else
    let parts := PyStr.split_on ":" walltime in
    if negb (List.length parts =? 3)%nat
    then ["Wall Time must be in HH:MM:SS format"]
    else
      match PyStr.int (nth 0 parts ""), PyStr.int (nth 1 parts ""),
            PyStr.int (nth 2 parts "") with
      | Some hours, Some minutes, Some seconds =>
          if (hours <? 0) || (minutes <? 0) || (60 <=? minutes)
             || (seconds <? 0) || (60 <=? seconds)
          then ["Invalid time values in Wall Time"]
          else []
      | _, _, _ =>
          ["Wall Time must contain only numbers and colons (HH:MM:SS)"]
      end.

(** The list [errors] when the checks are over. *)
Definition errors_of (f : form) : list string :=
  (if missing (job_name f) then ["Job Name is required"] else [])
  ++ (if missing (program_file f) then ["Program/Script to Run is required"]
      else [])
  ++ walltime_errors (walltime f)
  ++ (if nodes f <? 1 then ["Number of nodes must be at least 1"] else [])
  ++ (if filled (array_indices f)
      then if negb (any_digit (array_indices f))
           then ["Array indices must contain numbers"] else []
      else [])
  ++ (if negb (String.eqb (dependency_type f) "None")
         && missing (dependency_job_ids f)
      then ["Dependency Job IDs required when dependency type is selected"]
      else []).

(** The list [warnings] when the checks are over. *)
Definition warnings_of (f : form) : list string :=
  (if missing (job_name f) then []
   else if (64 <? String.length (PyStr.strip (job_name f)))%nat
        then ["Job Name is longer than 64 characters (may be truncated)"]
        else [])
  ++ (if missing (program_file f) then []
      else
        let stripped := PyStr.strip (program_file f) in
        if negb (existsb (fun e => ends_with e stripped) common_extensions
                 || (PyStr.starts_with "./" stripped
                     || PyStr.starts_with "/" stripped))
        then ["Program file doesn't have a common extension - ensure it's executable"]
        else [])
  ++ (if (0 <? gpu_count f)
         && (negb (truthy (partition f)) || String.eqb (partition f) "Default")
      then ["GPU requested but no GPU partition selected"] else [])
  ++ (if negb (String.eqb (mail_type f) "None") && missing (mail_user f)
      then ["Email address recommended when email notifications are enabled"]
      else []).

(** A chunk of the script: a text the source ends with a line feed, or
    one of the comment lines made from the warnings. *)
Inductive chunk : Type :=
| Text (s : string)
| WarningsTitle
| WarningItem (warning : string).

(** The comment block made from [warning_msg]: its title, one line per
    warning, and a closing ["#"]. *)
Definition warning_block (warnings : list string) : list chunk :=
  match warnings with
  | [] => []
  | _ :: _ => WarningsTitle :: map WarningItem warnings ++ [Text "#"]
  end.

Definition directive (key value : string) : chunk :=
  Text ("#SBATCH --" ++ key ++ "=" ++ value)%string.

Definition output_name (f : form) : string :=
  if truthy (PyStr.strip (output_file f)) then output_file f
  else (job_name f ++ "_%j.out")%string.

Definition error_name (f : form) : string :=
  if truthy (PyStr.strip (error_file f)) then error_file f
  else (job_name f ++ "_%j.err")%string.

(** The [#SBATCH] lines, in the order the source appends them. *)
Definition directives (f : form) : list chunk :=
  [directive "job-name" (job_name f); directive "time" (walltime f)]
  ++ (if filled (account f) then [directive "account" (account f)] else [])
  ++ (if truthy (partition f) && negb (String.eqb (partition f) "Default")
      then [directive "partition" (partition f)] else [])
  ++ [directive "nodes" (str_of_int (nodes f))]
  ++ (if 0 <? ntasks_per_node f
      then [directive "ntasks-per-node" (str_of_int (ntasks_per_node f))]
      else [])
  ++ (if 0 <? cpus_per_task f
      then [directive "cpus-per-task" (str_of_int (cpus_per_task f))]
      else [])
  ++ (if truthy (memory f) && negb (String.eqb (memory f) "Default")
      then [directive "mem" (memory f)] else [])
  ++ (if 0 <? gpu_count f
      then [directive "gres" ("gpu:" ++ str_of_int (gpu_count f))%string]
      else [])
  ++ (if combine_output f then [directive "output" (output_name f)]
      else [directive "output" (output_name f);
            directive "error" (error_name f)])
  ++ (if filled (array_indices f)
      then [directive "array" (array_indices f)] else [])
  ++ (if negb (String.eqb (dependency_type f) "None")
         && filled (dependency_job_ids f)
      then [directive "dependency"
              (dependency_type f ++ ":" ++ dependency_job_ids f)%string]
      else [])
  ++ (if negb (String.eqb (mail_type f) "None")
      then directive "mail-type" (mail_type f)
           :: (if filled (mail_user f)
               then [directive "mail-user" (mail_user f)] else [])
      else [])
  ++ (if negb (String.eqb (export_env f) "Default")
      then [directive "export" (export_env f)] else [])
  ++ (if filled (nodelist f) then [directive "nodelist" (nodelist f)] else [])
  ++ (if 0 <? signal_time f
      then [directive "signal" ("B:USR1@" ++ str_of_int (signal_time f))%string]
      else []).

(** The last chunk: the command that runs the program. *)
Definition command (f : form) : string :=
  ((if PyStr.starts_with "./" (program_file f)
       || PyStr.starts_with "/" (program_file f)
    then "python " ++ program_file f
    else "python ./" ++ program_file f)
   ++ (if filled (program_args f) then " " ++ program_args f else ""))%string.

Definition epilogue : list chunk :=
  [Text "";
   Text "# Available Slurm environment variables:";
   Text "# $SLURM_JOB_NAME - Job name";
   Text "# $SLURM_JOB_ID - Job ID";
   Text "# $SLURM_SUBMIT_DIR - Submit directory";
   Text "# $SLURM_SUBMIT_HOST - Submit host";
   Text "# $SLURM_JOB_NODELIST - Node list";
   Text "# $SLURM_JOB_PARTITION - Partition name";
   Text "# $SLURM_JOB_NUM_NODES - Number of allocated nodes";
   Text "# $SLURM_NTASKS - Number of processes";
   Text "# $SLURM_TASKS_PER_NODE - Processes per node";
   Text "# $SLURM_ARRAY_TASK_ID - Array task ID (if array job)";
   Text "";
   Text "# Change to the directory from which the job was submitted";
   Text "cd $SLURM_SUBMIT_DIR";
   Text "";
   Text "# Load required modules here";
   Text "# module load python/3.9";
   Text "# module load gcc/9.3.0";
   Text "";
   Text "# Run the program"].

(** What the function returns: the refusal with its errors and warnings,
    or the script. *)
Inductive output : Type :=
| ErrorsFound (errors warnings : list string)
| Script (chunks : list chunk).

Definition generate_slurm_script (f : form) : output :=
  let errors := errors_of f in
  let warnings := warnings_of f in
  match errors with
  | _ :: _ => ErrorsFound errors warnings
  | [] =>
      Script ([Text "#!/bin/bash"; Text "";
               Text "# Slurm job script generated by GUI"]
              ++ warning_block warnings
              ++ [Text ""]
              ++ directives f
              ++ epilogue
              ++ [Text (command f)])
  end.

End SlurmScript.

(** * Notions used in the statements *)

(** [fragment] occurs in [s]: the meaning of Python's [fragment in s]. *)
Definition occurs_in (fragment s : string) : Prop :=
  exists before after : string, s = (before ++ fragment ++ after)%string.

(** The rows a list of lines contributes: the lines whose loop body runs
    to its end, in order. *)
Definition rows_of (lines : list string) : list row :=
  flat_map (fun line => match parse_line line with
                        | Done r => [r]
                        | _ => []
                        end) lines.

(** No line of the list makes [int] fail. *)
Definition no_line_raises (lines : list string) : Prop :=
  forall line e, In line lines -> parse_line line <> Throw e.

(** The record a row is accumulated into. *)
Definition slot (d : dict) (r : row) : partition :=
  match dict_get (row_partition_name r) d with
  | Some p => p
  | None => fresh_partition r
  end.

(** Every key of the dict is the name stored under it. *)
Definition well_keyed (d : dict) : Prop :=
  Forall (fun kv => name (snd kv) = fst kv) d.

(** The aggregate of a partition name in the returned list. *)
Definition partition_named (nm : string) (partitions : list partition)
  : option partition :=
  find (fun p => String.eqb nm (name p)) partitions.

(** The four node counters and the four CPU counters. *)
Definition counters : Type := (Z * Z * Z * Z) * (Z * Z * Z * Z).

Definition counters_of (p : partition) : counters :=
  ((allocated_nodes p, idle_nodes p, other_nodes p, total_nodes p),
   (allocated_cpus p, idle_cpus p, other_cpus p, total_cpus p)).

Definition row_counters (r : row) : counters :=
  ((row_allocated_nodes r, row_idle_nodes r, row_other_nodes r,
    row_total_nodes r),
   (row_allocated_cpus r, row_idle_cpus r, row_other_cpus r,
    row_total_cpus r)).

Definition counters_add (x y : counters) : counters :=
  let '((a1, i1, o1, t1), (ca1, ci1, co1, ct1)) := x in
  let '((a2, i2, o2, t2), (ca2, ci2, co2, ct2)) := y in
  ((a1 + a2, i1 + i2, o1 + o2, t1 + t2),
   (ca1 + ca2, ci1 + ci2, co1 + co2, ct1 + ct2)).

Definition counters_zero : counters := ((0, 0, 0, 0), (0, 0, 0, 0)).

Arguments counters_add : simpl never.
Arguments counters_of : simpl never.
Arguments row_counters : simpl never.

(** The sum of the counters of the rows named [nm], and whether there is
    such a row. *)
Definition row_sum (nm : string) (rows : list row) : counters :=
  fold_right (fun r acc =>
                if String.eqb nm (row_partition_name r)
                then counters_add (row_counters r) acc else acc)
             counters_zero rows.

Definition has_row (nm : string) (rows : list row) : bool :=
  existsb (fun r => String.eqb nm (row_partition_name r)) rows.

(** The fields of a line: their number, and the three that are parsed. *)
Definition field_count (line : string) : nat :=
  List.length (PyStr.split_ws line).

Definition node_field (line : string) : string := nth 1 (PyStr.split_ws line) "".

Definition cpu_field (line : string) : string := nth 2 (PyStr.split_ws line) "".

Definition count_field (line : string) : string := nth 3 (PyStr.split_ws line) "".

(** The number of [/]-delimited parts of a ratio field. *)
Definition part_count (field : string) : nat :=
  List.length (PyStr.split_on "/" field).

(** A ratio field that splits into exactly four [/]-delimited integers. *)
Definition four_integers (field : string) (a b c d : Z) : Prop :=
  map PyStr.int (PyStr.split_on "/" field) = [Some a; Some b; Some c; Some d].

(** The row a line with seven fields and integer counters yields. *)
Definition row_from (line : string) (a i o t ca ci co ct n : Z) : row :=
  let parts := PyStr.split_ws line in
  {| row_partition_name := PyStr.remove_char "*" (nth 0 parts "");
     row_allocated_nodes := a; row_idle_nodes := i;
     row_other_nodes := o; row_total_nodes := t;
     row_allocated_cpus := ca; row_idle_cpus := ci;
     row_other_cpus := co; row_total_cpus := ct;
     row_nodes_count := n;
     row_timelimit := nth 4 parts "";
     row_state := nth 5 parts "";
     row_nodelist := PyStr.join " " (skipn 6 parts) |}.

(** The catalog without the two entries that an earlier entry shadows. *)
Definition GPU_MEMORY_unshadowed : list (string * Z) :=
  filter (fun entry => negb (String.eqb (fst entry) "l40sx")
                       && negb (String.eqb (fst entry) "rtx2080ti"))
         GPU_MEMORY.

(** The capacity class a partition is filed under. *)
Definition class_is (k : Z) (x : ranked) : bool :=
  match gpu_class x with
  | Some m => m =? k
  | None => false
  end.

Definition is_cpu (x : ranked) : bool :=
  match gpu_class x with
  | Some _ => false
  | None => true
  end.

(** The card of one key, when some partition of its group passes. *)
Definition card_for (min_gpu_memory : Z) (gpu_partitions : groups) (k : Z)
  : list card :=
  let partitions_list := group_get k gpu_partitions in
  match filter (passes min_gpu_memory k) partitions_list with
  | [] => []
  | x :: l => [make_card min_gpu_memory k partitions_list (x :: l)]
  end.

(** The cards among a run of blocks, and the partitions shown in it. *)
Definition cards_of (blocks : list block) : list card :=
  flat_map (fun b => match b with GpuCard c => [c] | _ => [] end) blocks.

Definition shown (blocks : list block) : list ranked :=
  flat_map (fun b => match b with
                     | GpuCard c => card_partitions c
                     | CpuSection l => l
                     | _ => []
                     end) blocks.

(** [x] may stand before [y] in descending order of the keys. *)
Definition not_below {A K : Type} (key : A -> K) (ltb : K -> K -> bool)
    (x y : A) : Prop :=
  ltb (key x) (key y) = false.

(** The key of [x] is neither below nor above [k]. *)
Definition same_key {A K : Type} (key : A -> K) (ltb : K -> K -> bool)
    (k : K) (x : A) : bool :=
  negb (ltb k (key x)) && negb (ltb (key x) k).

(** Node counters as counts: none is negative. *)
Definition nonneg_counts (p : partition) : Prop :=
  0 <= allocated_nodes p /\ 0 <= idle_nodes p
  /\ 0 <= other_nodes p /\ 0 <= total_nodes p.

(** [a] is at least [b] in the order on pairs. *)
Definition key_ge (a b : Z * Z) : Prop :=
  fst b < fst a \/ (fst a = fst b /\ snd b <= snd a).

Definition key_eqb (a b : Z * Z) : bool :=
  (fst a =? fst b) && (snd a =? snd b).

(** The available units of a partition:
    [max(0, total - allocated - other)]. *)
Definition available_units (p : partition) : Z :=
  Z.max 0 (total_nodes p - allocated_nodes p - other_nodes p).

(** The key the partitions are ranked by: the availability score, which
    is the available units of a partition with a positive total and 0 of
    any other, then the idle nodes. *)
Definition rank_key (p : partition) : Z * Z :=
  (if 0 <? total_nodes p then available_units p else 0, idle_nodes p).

(** The composite key in the words of the specification: the available
    units, then the idle nodes. *)
Definition spec_key (p : partition) : Z * Z :=
  (available_units p, idle_nodes p).

(** The partition's name puts it in the capacity class [k]. *)
Definition in_class (k : Z) (p : partition) : bool :=
  match infer_gpu_memory (name p) with
  | Some m => m =? k
  | None => false
  end.

(** The filter as the card loop applies it to a partition of class [k]. *)
Definition qualifies (min_gpu_memory k : Z) (p : partition) : bool :=
  (min_gpu_memory =? 0)
  || (min_gpu_memory <=? k * (total_nodes p - allocated_nodes p)).

(** The partitions of class [k] that survive the filter, and the
    compute-only partitions, both in aggregation order. *)
Definition survivors (min_gpu_memory k : Z) (partitions : list partition)
  : list partition :=
  filter (fun p => in_class k p && qualifies min_gpu_memory k p) partitions.

Definition compute_only (partitions : list partition) : list partition :=
  filter (fun p => match infer_gpu_memory (name p) with
                   | Some _ => false
                   | None => true
                   end) partitions.

(** [l] holds the candidates in descending order of [key], candidates
    with equal keys in the order they have among the candidates. *)
Definition stably_ranked (key : partition -> Z * Z)
    (candidates l : list partition) : Prop :=
  Permutation l candidates
  /\ StronglySorted (fun p q => key_ge (key p) (key q)) l
  /\ forall k : Z * Z,
       filter (fun p => key_eqb (key p) k) l
       = filter (fun p => key_eqb (key p) k) candidates.

(** Two partitions of the class of 40 in aggregation order; the first has
    a negative allocated count and no node in total. *)
Definition odd_counts : list partition :=
  [ {| name := "a100-x";
       allocated_nodes := -3; idle_nodes := 0; other_nodes := 0;
       total_nodes := 0;
       allocated_cpus := 0; idle_cpus := 8; other_cpus := 0; total_cpus := 8;
       timelimit := "1:00:00"; states := ["idle"]; nodelists := ["n1"] |};
    {| name := "a100-y";
       allocated_nodes := 0; idle_nodes := 0; other_nodes := 0;
       total_nodes := 1;
       allocated_cpus := 0; idle_cpus := 8; other_cpus := 0; total_cpus := 8;
       timelimit := "1:00:00"; states := ["idle"]; nodelists := ["n2"] |} ].

(** A partition given by its name and node counters, and a sample of six
    partitions in aggregation order. *)
Definition node_partition (nm : string) (a i o t : Z) : partition :=
  {| name := nm;
     allocated_nodes := a; idle_nodes := i; other_nodes := o; total_nodes := t;
     allocated_cpus := 0; idle_cpus := 0; other_cpus := 0; total_cpus := 0;
     timelimit := "infinite"; states := []; nodelists := [] |}.

Definition small_cluster : list partition :=
  [ node_partition "a5000-a" 1 1 0 2;
    node_partition "h200" 0 2 0 2;
    node_partition "a5500" 0 5 0 5;
    node_partition "cpu1" 0 1 0 1;
    node_partition "a5000-c" 0 5 0 5;
    node_partition "cpu2" 0 3 0 3 ].

(** The total available capacity as the first loop prepares it: per-card
    memory times [available_nodes], that is
    [max(0, total - allocated - other)]. *)
Definition total_available_capacity (gpu_mem : Z) (x : ranked) : Z :=
  gpu_mem * available_nodes x.

(** An integer whose decimal text has at most 4300 digits, the sign not
    counted: the integers an f-string can interpolate. *)
Definition printable (z : Z) : Prop := Z.abs z < 10 ^ 4300.

(** A float that is neither an infinity nor a NaN. *)
Definition is_finite (f : spec_float) : bool :=
  match f with
  | S754_zero _ | S754_finite _ _ _ => true
  | S754_infinity _ | S754_nan => false
  end.

(** The names of a list in order of first appearance, each once. *)
Fixpoint first_seen (names : list string) : list string :=
  match names with
  | [] => []
  | n :: rest =>
      n :: filter (fun m => negb (String.eqb m n)) (first_seen rest)
  end.

(** The rows of a partition name, in order. *)
Definition rows_named (nm : string) (rows : list row) : list row :=
  filter (fun r => String.eqb nm (row_partition_name r)) rows.

(** The first string of a list that [int] rejects. *)
Definition first_bad (l : list string) : option string :=
  find (fun s => match PyStr.int s with Some _ => false | None => true end) l.

(** A run of rows accumulated into one record. *)
Definition accumulate_all (rows : list row) (p : partition) : partition :=
  fold_left (fun q r => accumulate r q) rows p.

(** What the filter lets through: every compute-only partition, and the
    partitions that pass the test of their capacity class. *)
Definition visible (min_gpu_memory : Z) (x : ranked) : bool :=
  match gpu_class x with
  | Some k => passes min_gpu_memory k x
  | None => true
  end.

(** The memory a shown partition counts for in its card:
    [gpu_mem * (total_nodes - allocated_nodes)]. *)
Definition shown_memory (gpu_mem : Z) (x : ranked) : Z :=
  gpu_mem * (total_nodes (part x) - allocated_nodes (part x)).

Definition sum_list (l : list Z) : Z := fold_right Z.add 0 l.

(** The eight counters of a partition together. *)
Definition counter_sum (p : partition) : Z :=
  allocated_nodes p + idle_nodes p + other_nodes p + total_nodes p
  + allocated_cpus p + idle_cpus p + other_cpus p + total_cpus p.

(** Counters that are counts: none of the eight is negative. *)
Definition all_counts (p : partition) : Prop :=
  0 <= allocated_nodes p /\ 0 <= idle_nodes p /\ 0 <= other_nodes p
  /\ 0 <= total_nodes p /\ 0 <= allocated_cpus p /\ 0 <= idle_cpus p
  /\ 0 <= other_cpus p /\ 0 <= total_cpus p.

(** The counters of a cluster of moderate size: they are counts, and all
    of them together stay below [2^1000]. *)
Definition moderate (partitions : list partition) : Prop :=
  Forall all_counts partitions
  /\ sum_list (map counter_sum partitions) < 2 ^ 1000.

(** A report of one partition of class 40 with [10^400] allocated nodes
    out of one. *)
Definition huge_report : string :=
  String.concat (String "010" "")
    ["HDR";
     ("a100 1" ++ String.concat "" (repeat "0" 400)
      ++ "/0/0/1 0/8/0/8 1 1:00:00 alloc n1")%string].

(** A statement that raises nothing, an [OverflowError] or the
    [ValueError] of the digit limit. *)
Definition benign (s : option exn) : Prop :=
  forall e, s = Some e -> e = OverflowError \/ e = ValueErrorDigits.

(** A run of shown partitions of a moderate cluster: each is one of the
    aggregated partitions, and the counters of the run together stay below
    the bound. *)
Definition moderate_run (l : list ranked) : Prop :=
  (forall x, In x l -> all_counts (part x))
  /\ sum_of counter_sum l < 2 ^ 1000.

(** A text that is empty or all white space. *)
Definition blank (s : string) : Prop := PyStr.strip s = EmptyString.

(** A wall time the form check accepts: three [:]-separated integers, the
    hours not negative, the minutes and the seconds from 0 to 59. *)
Definition valid_walltime (w : string) : Prop :=
  exists hours minutes seconds : Z,
    map PyStr.int (PyStr.split_on ":" w)
    = [Some hours; Some minutes; Some seconds]
    /\ 0 <= hours /\ 0 <= minutes < 60 /\ 0 <= seconds < 60.

(** Some character of the text is a digit. *)
Definition has_digit (s : string) : Prop :=
  exists c, In c (list_ascii_of_string s) /\ SlurmScript.is_digit c = true.

(** Some chunk of the script is the directive [#SBATCH --key=...]. *)
Definition has_directive (key : string) (chunks : list SlurmScript.chunk)
  : bool :=
  existsb (fun c => match c with
                    | SlurmScript.Text s =>
                        PyStr.starts_with ("#SBATCH --" ++ key ++ "=") s
                    | _ => false
                    end) chunks.

(** A chunk that is the comment line of a warning. *)
Definition is_item (c : SlurmScript.chunk) : bool :=
  match c with
  | SlurmScript.WarningItem _ => true
  | _ => false
  end.

(** The refusal carries the error [msg]. *)
Definition reports (o : SlurmScript.output) (msg : string) : Prop :=
  match o with
  | SlurmScript.ErrorsFound errors _ => In msg errors
  | SlurmScript.Script _ => False
  end.

(** The returned text carries the warning [msg]: in the refusal, or as a
    comment line of the script. *)
Definition warns (o : SlurmScript.output) (msg : string) : Prop :=
  match o with
  | SlurmScript.ErrorsFound _ warnings => In msg warnings
  | SlurmScript.Script chunks => In (SlurmScript.WarningItem msg) chunks
  end.

(** A program name the form takes as it is: it ends with one of the
    common extensions or starts as a path. *)
Definition runnable_name (s : string) : Prop :=
  (exists e before, In e SlurmScript.common_extensions
                    /\ s = (before ++ e)%string)
  \/ (exists after, s = ("./" ++ after)%string)
  \/ (exists after, s = ("/" ++ after)%string).

(** A form that asks for two GPUs and leaves the partition at its default. *)
Definition gpu_job : SlurmScript.form :=
  {| SlurmScript.job_name := "train";
     SlurmScript.account := "";
     SlurmScript.partition := "Default";
     SlurmScript.nodes := 1;
     SlurmScript.ntasks_per_node := 1;
     SlurmScript.cpus_per_task := 4;
     SlurmScript.memory := "Default";
     SlurmScript.walltime := "01:00:00";
     SlurmScript.program_file := "train.py";
     SlurmScript.program_args := "";
     SlurmScript.gpu_count := 2;
     SlurmScript.output_file := "";
     SlurmScript.error_file := "";
     SlurmScript.combine_output := false;
     SlurmScript.array_indices := "";
     SlurmScript.dependency_type := "None";
     SlurmScript.dependency_job_ids := "";
     SlurmScript.mail_type := "None";
     SlurmScript.mail_user := "";
     SlurmScript.export_env := "Default";
     SlurmScript.nodelist := "";
     SlurmScript.signal_time := 0 |}.

(** * Properties *)

(** ** Substrings *)

Lemma string_app_assoc (a b c : string) :
  ((a ++ b) ++ c = a ++ b ++ c)%string.
Proof. induction a as [|x a IH]; simpl; [reflexivity | now rewrite IH]. Qed.

Lemma starts_with_spec (p s : string) :
  PyStr.starts_with p s = true <-> exists after, s = (p ++ after)%string.
Proof.
  revert s; induction p as [|a p IH]; intros s; simpl.
  - split; [intros _; now exists s | reflexivity].
  - destruct s as [|b s].
    + split; [discriminate | intros [after H]; discriminate].
    + rewrite andb_true_iff, Ascii.eqb_eq, IH. split.
      * intros [-> [after ->]]. now exists after.
      * intros [after H]. injection H as -> ->. split; [reflexivity | now exists after].
Qed.

Lemma contains_spec (fragment s : string) :
  PyStr.contains fragment s = true <-> occurs_in fragment s.
Proof.
  unfold occurs_in. induction s as [|c s IH].
  - simpl. rewrite orb_false_r, starts_with_spec. split.
    + intros [after H]. now exists EmptyString, after.
    + intros [before [after H]]. destruct before; simpl in H.
      * now exists after.
      * discriminate.
  - cbn [PyStr.contains]. rewrite orb_true_iff, IH, starts_with_spec. split.
    + intros [[after H] | [before [after H]]].
      * now exists EmptyString, after.
      * exists (String c before), after. simpl. now rewrite H.
    + intros [before [after H]]. destruct before as [|b before]; simpl in H.
      * left. now exists after.
      * right. injection H as _ H. now exists before, after.
Qed.

Lemma occurs_in_trans (a b s : string) :
  occurs_in a b -> occurs_in b s -> occurs_in a s.
Proof.
  intros [p1 [q1 ->]] [p2 [q2 ->]].
  exists (p2 ++ p1)%string, (q1 ++ q2)%string.
  now rewrite !string_app_assoc.
Qed.

Lemma contains_trans (a b s : string) :
  PyStr.contains a b = true -> PyStr.contains b s = true ->
  PyStr.contains a s = true.
Proof. rewrite !contains_spec. apply occurs_in_trans. Qed.

(** ** The first-match lookup over any catalog *)

Section FirstMatch.
Variable folded : string.

Lemma first_match_some (catalog : list (string * Z)) (memory : Z) :
  first_match catalog folded = Some memory <->
  exists (i : nat) (fragment : string),
    nth_error catalog i = Some (fragment, memory)
    /\ occurs_in fragment folded
    /\ forall j fragment' memory',
         (j < i)%nat -> nth_error catalog j = Some (fragment', memory') ->
         ~ occurs_in fragment' folded.
Proof.
  induction catalog as [|[f m] rest IH]; simpl.
  - split; [discriminate | intros [[|i] [fr [H _]]]; discriminate].
  - destruct (PyStr.contains f folded) eqn:Hc.
    + split.
      * intros [= <-]. exists 0%nat, f. split; [reflexivity|].
        split; [now apply contains_spec | intros j ? ? Hj; lia].
      * intros [[|i] [fr [Hn [Ho Hfirst]]]].
        -- now injection Hn as _ ->.
        -- exfalso. apply (Hfirst 0%nat f m); [lia | reflexivity |].
           now apply contains_spec.
    + rewrite IH. split.
      * intros [i [fr [Hn [Ho Hfirst]]]]. exists (S i), fr.
        split; [exact Hn | split; [exact Ho|]].
        intros [|j] f' m' Hj Hn'; simpl in Hn'.
        -- injection Hn' as <- <-. rewrite <- contains_spec, Hc. discriminate.
        -- apply (Hfirst j f' m'); [lia | exact Hn'].
      * intros [[|i] [fr [Hn [Ho Hfirst]]]]; simpl in Hn.
        -- injection Hn as <- <-. apply contains_spec in Ho. congruence.
        -- exists i, fr. split; [exact Hn | split; [exact Ho|]].
           intros j f' m' Hj Hn'. apply (Hfirst (S j) f' m'); [lia | exact Hn'].
Qed.

Lemma first_match_none (catalog : list (string * Z)) :
  first_match catalog folded = None <->
  forall fragment memory,
    In (fragment, memory) catalog -> ~ occurs_in fragment folded.
Proof.
  induction catalog as [|[f m] rest IH]; simpl.
  - split; [intros _ ? ? [] | reflexivity].
  - destruct (PyStr.contains f folded) eqn:Hc.
    + split; [discriminate|]. intros H. exfalso.
      apply (H f m); [now left | now apply contains_spec].
    + rewrite IH. split.
      * intros H fr me [[= <- <-] | Hin].
        -- rewrite <- contains_spec, Hc. discriminate.
        -- now apply (H fr me).
      * intros H fr me Hin. apply (H fr me). now right.
Qed.

(** An entry whose fragment contains the fragment of an earlier entry
    can be dropped without changing any lookup. *)
Lemma first_match_shadowed (before between after : list (string * Z))
      (f1 f2 : string) (m1 m2 : Z) :
  occurs_in f1 f2 ->
  first_match (before ++ (f1, m1) :: between ++ (f2, m2) :: after) folded
  = first_match (before ++ (f1, m1) :: between ++ after) folded.
Proof.
  intros Hsub. induction before as [|[f m] before IH]; simpl.
  - destruct (PyStr.contains f1 folded) eqn:H1; [reflexivity|].
    induction between as [|[f m] between IHb]; simpl.
    + destruct (PyStr.contains f2 folded) eqn:H2; [|reflexivity].
      apply contains_spec in H2.
      assert (PyStr.contains f1 folded = true)
        by (apply contains_spec; eapply occurs_in_trans; eassumption).
      congruence.
    + now destruct (PyStr.contains f folded).
  - now destruct (PyStr.contains f folded).
Qed.
End FirstMatch.

(** ** The row loop *)

Lemma aggregate_lines_app (d : dict) (l1 l2 : list string) :
  aggregate_lines d (l1 ++ l2)
  = match aggregate_lines d l1 with
    | inr d' => aggregate_lines d' l2
    | inl e => inl e
    end.
Proof.
  revert d; induction l1 as [|line l1 IH]; intros d; simpl; [reflexivity|].
  destruct (parse_line line); auto.
Qed.

Lemma aggregate_lines_skip (d : dict) (line : string) (rest : list string) :
  parse_line line = Skip ->
  aggregate_lines d (line :: rest) = aggregate_lines d rest.
Proof. intros H; simpl; now rewrite H. Qed.

Lemma aggregate_lines_rows (lines : list string) :
  no_line_raises lines ->
  forall d, aggregate_lines d lines = inr (fold_left add_row (rows_of lines) d).
Proof.
  unfold no_line_raises, rows_of.
  induction lines as [|line lines IH]; intros Hno d; simpl; [reflexivity|].
  assert (Hrest : forall l e, In l lines -> parse_line l <> Throw e)
    by (intros l e Hin; apply Hno; now right).
  destruct (parse_line line) as [r| |e] eqn:Hp; simpl.
  - now apply IH.
  - now apply IH.
  - exfalso. apply (Hno line e); [now left | exact Hp].
Qed.

Lemma aggregate_lines_raises (lines : list string) (d : dict) :
  (exists d', aggregate_lines d lines = inr d') -> no_line_raises lines.
Proof.
  revert d; induction lines as [|line lines IH]; intros d [d' H] l e Hin Hp.
  - destruct Hin.
  - simpl in H. destruct Hin as [<- | Hin].
    + rewrite Hp in H. discriminate.
    + destruct (parse_line line); try discriminate;
        (eapply IH; [eexists; exact H | exact Hin | exact Hp]).
Qed.

(** ** Lookups in the [partitions] dict *)

Lemma dict_mem_get (k : string) (d : dict) :
  dict_mem k d = match dict_get k d with Some _ => true | None => false end.
Proof.
  induction d as [|[k' v] d IH]; simpl; [reflexivity|].
  destruct (String.eqb k k'); simpl; [reflexivity | exact IH].
Qed.

Lemma dict_get_app (k : string) (d1 d2 : dict) :
  dict_get k (d1 ++ d2)
  = match dict_get k d1 with
    | Some v => Some v
    | None => dict_get k d2
    end.
Proof.
  induction d1 as [|[k' v] d1 IH]; simpl; [reflexivity|].
  destruct (String.eqb k k'); [reflexivity | exact IH].
Qed.

Lemma dict_get_update (k k' : string) (f : partition -> partition) (d : dict) :
  dict_get k' (dict_update k f d)
  = if String.eqb k' k then option_map f (dict_get k d) else dict_get k' d.
Proof.
  induction d as [|[k0 v] d IH]; simpl.
  - now destruct (String.eqb k' k).
  - destruct (String.eqb k k0) eqn:E0; simpl.
    + apply String.eqb_eq in E0; subst k0.
      destruct (String.eqb k' k); reflexivity.
    + destruct (String.eqb k' k0) eqn:E1.
      * destruct (String.eqb k' k) eqn:E2; [|reflexivity].
        apply String.eqb_eq in E1, E2. subst.
        rewrite String.eqb_refl in E0. discriminate.
      * exact IH.
Qed.

Lemma dict_get_add_row (k : string) (d : dict) (r : row) :
  dict_get k (add_row d r)
  = if String.eqb k (row_partition_name r)
    then Some (accumulate r (slot d r))
    else dict_get k d.
Proof.
  unfold add_row, slot. rewrite dict_get_update, dict_mem_get.
  destruct (dict_get (row_partition_name r) d) as [p|] eqn:Hg.
  - rewrite Hg. now destruct (String.eqb k (row_partition_name r)).
  - rewrite !dict_get_app, Hg. simpl. rewrite String.eqb_refl. simpl.
    destruct (String.eqb k (row_partition_name r)); [reflexivity|].
    now destruct (dict_get k d).
Qed.

Lemma well_keyed_update (k : string) (f : partition -> partition) (d : dict) :
  (forall p, name (f p) = name p) -> well_keyed d ->
  well_keyed (dict_update k f d).
Proof.
  intros Hf. unfold well_keyed.
  induction d as [|[k' v] d IH]; intros Hd; simpl; [constructor|].
  inversion Hd as [|? ? Hv Hd']; subst. simpl in Hv.
  destruct (String.eqb k k'); constructor; simpl; auto.
  now rewrite Hf.
Qed.

Lemma well_keyed_add_row (d : dict) (r : row) :
  well_keyed d -> well_keyed (add_row d r).
Proof.
  intros Hd. unfold add_row. apply well_keyed_update; [reflexivity|].
  destruct (dict_mem (row_partition_name r) d); [exact Hd|].
  unfold well_keyed. apply Forall_app. split; [exact Hd|].
  constructor; [reflexivity | constructor].
Qed.

Lemma well_keyed_fold (rows : list row) (d : dict) :
  well_keyed d -> well_keyed (fold_left add_row rows d).
Proof.
  revert d; induction rows as [|r rows IH]; intros d Hd; simpl; [exact Hd|].
  apply IH. now apply well_keyed_add_row.
Qed.

Lemma partition_named_values (nm : string) (d : dict) :
  well_keyed d -> partition_named nm (dict_values d) = dict_get nm d.
Proof.
  unfold partition_named, dict_values, well_keyed.
  induction d as [|[k v] d IH]; intros Hd; simpl; [reflexivity|].
  inversion Hd as [|? ? Hv Hd']; subst. simpl in Hv. rewrite Hv.
  destruct (String.eqb nm k); [reflexivity | now apply IH].
Qed.

(** ** Sums of counters *)

Ltac counters_arith :=
  repeat match goal with
         | c : counters |- _ => destruct c as [[[[? ?] ?] ?] [[[? ?] ?] ?]]
         end;
  unfold counters_add, counters_zero; simpl;
  repeat (f_equal; try lia).

Lemma counters_add_assoc (x y z : counters) :
  counters_add (counters_add x y) z = counters_add x (counters_add y z).
Proof. counters_arith. Qed.

Lemma counters_add_comm (x y : counters) :
  counters_add x y = counters_add y x.
Proof. counters_arith. Qed.

Lemma counters_add_zero_l (x : counters) : counters_add counters_zero x = x.
Proof. counters_arith. Qed.

Lemma counters_add_zero_r (x : counters) : counters_add x counters_zero = x.
Proof. counters_arith. Qed.

Lemma counters_of_accumulate (r : row) (p : partition) :
  counters_of (accumulate r p) = counters_add (counters_of p) (row_counters r).
Proof. reflexivity. Qed.

(** The counters stored under a name after a run of rows. *)
Lemma counters_after_rows (nm : string) (rows : list row) (d : dict) :
  option_map counters_of (dict_get nm (fold_left add_row rows d))
  = match option_map counters_of (dict_get nm d) with
    | Some c => Some (counters_add c (row_sum nm rows))
    | None => if has_row nm rows then Some (row_sum nm rows) else None
    end.
Proof.
  revert d; induction rows as [|r rows IH]; intros d; simpl.
  - destruct (dict_get nm d); simpl; [|reflexivity].
    now rewrite counters_add_zero_r.
  - rewrite IH, dict_get_add_row. unfold slot.
    destruct (String.eqb nm (row_partition_name r)) eqn:E; simpl.
    + apply String.eqb_eq in E; subst nm.
      destruct (dict_get (row_partition_name r) d); simpl;
        rewrite counters_of_accumulate, counters_add_assoc; [reflexivity|].
      now rewrite counters_add_zero_l.
    + reflexivity.
Qed.

Lemma row_sum_perm (nm : string) (rows rows' : list row) :
  Permutation rows rows' -> row_sum nm rows = row_sum nm rows'.
Proof.
  induction 1 as [|r l l' _ IH|r1 r2 l|l1 l2 l3 _ IH1 _ IH2]; simpl.
  - reflexivity.
  - now rewrite IH.
  - destruct (String.eqb nm (row_partition_name r1)),
             (String.eqb nm (row_partition_name r2)); try reflexivity.
    rewrite <- !counters_add_assoc.
    now rewrite (counters_add_comm (row_counters r1)).
  - congruence.
Qed.

Lemma has_row_perm (nm : string) (rows rows' : list row) :
  Permutation rows rows' -> has_row nm rows = has_row nm rows'.
Proof.
  unfold has_row.
  induction 1 as [|r l l' _ IH|r1 r2 l|l1 l2 l3 _ IH1 _ IH2]; simpl.
  - reflexivity.
  - now rewrite IH.
  - now rewrite !orb_assoc, (orb_comm (String.eqb nm (row_partition_name r1))).
  - congruence.
Qed.

Lemma rows_of_perm (lines lines' : list string) :
  Permutation lines lines' -> Permutation (rows_of lines) (rows_of lines').
Proof.
  unfold rows_of.
  induction 1 as [|l ls ls' _ IH|l1 l2 ls|l1 l2 l3 _ IH1 _ IH2]; simpl.
  - constructor.
  - now apply Permutation_app_head.
  - rewrite !app_assoc. apply Permutation_app_tail, Permutation_app_comm.
  - eapply Permutation_trans; eassumption.
Qed.

(** ** What the parser does with a line *)

Lemma parse_ratio_skip (field : string) :
  part_count field <> 4%nat -> parse_ratio field = Skip.
Proof.
  unfold part_count, parse_ratio. intros H.
  destruct (Nat.eqb_spec (List.length (PyStr.split_on "/" field)) 4);
    [contradiction | reflexivity].
Qed.

Lemma parse_ratio_done (field : string) (a b c d : Z) :
  four_integers field a b c d -> parse_ratio field = Done (a, b, c, d).
Proof.
  unfold four_integers, parse_ratio. intros H.
  destruct (PyStr.split_on "/" field) as [|s0 [|s1 [|s2 [|s3 [|s4 l]]]]];
    try discriminate H.
  simpl in H. injection H as H0 H1 H2 H3.
  simpl. unfold to_int. rewrite H0, H1, H2, H3. reflexivity.
Qed.

Lemma parse_line_few_fields (line : string) :
  (field_count line < 7)%nat -> parse_line line = Skip.
Proof.
  unfold field_count, parse_line. intros H.
  destruct (Nat.leb_spec 7 (List.length (PyStr.split_ws line)));
    [lia | reflexivity].
Qed.

Lemma parse_line_node_parts (line : string) :
  part_count (node_field line) <> 4%nat -> parse_line line = Skip.
Proof.
  unfold node_field, parse_line. intros H.
  destruct (7 <=? List.length (PyStr.split_ws line))%nat; [|reflexivity].
  now rewrite (parse_ratio_skip _ H).
Qed.

Lemma parse_line_cpu_parts (line : string) (a b c d : Z) :
  four_integers (node_field line) a b c d ->
  part_count (cpu_field line) <> 4%nat -> parse_line line = Skip.
Proof.
  unfold node_field, cpu_field, parse_line. intros Hn Hc.
  destruct (7 <=? List.length (PyStr.split_ws line))%nat; [|reflexivity].
  now rewrite (parse_ratio_done _ _ _ _ _ Hn), (parse_ratio_skip _ Hc).
Qed.

Lemma parse_line_done (line : string) (a i o t ca ci co ct n : Z) :
  (7 <= field_count line)%nat ->
  four_integers (node_field line) a i o t ->
  four_integers (cpu_field line) ca ci co ct ->
  PyStr.int (count_field line) = Some n ->
  parse_line line = Done (row_from line a i o t ca ci co ct n).
Proof.
  unfold field_count, node_field, cpu_field, count_field, parse_line, row_from.
  intros H7 Hn Hc Hk.
  destruct (Nat.leb_spec 7 (List.length (PyStr.split_ws line))); [|lia].
  rewrite (parse_ratio_done _ _ _ _ _ Hn), (parse_ratio_done _ _ _ _ _ Hc).
  simpl. unfold to_int. rewrite Hk. reflexivity.
Qed.

(** C4: [infer_gpu_memory] lower-cases the name and returns the memory of
    the first entry of [GPU_MEMORY], in the order it is written, whose
    fragment occurs in the lower-cased name; it returns [None] exactly when
    no fragment occurs in it.  Being a function, it is defined on every
    name.  The name [l40s_nova] resolves through the fragment [l40s],
    entry number 5, although no token of the name equals it. *)
Theorem infer_gpu_memory_first_match (partition_name : string) :
  let folded := PyStr.lower partition_name in
  (forall memory : Z,
     infer_gpu_memory partition_name = Some memory <->
     exists (i : nat) (fragment : string),
       nth_error GPU_MEMORY i = Some (fragment, memory)
       /\ occurs_in fragment folded
       /\ forall j fragment' memory',
            (j < i)%nat -> nth_error GPU_MEMORY j = Some (fragment', memory') ->
            ~ occurs_in fragment' folded)
  /\ (infer_gpu_memory partition_name = None <->
      forall fragment memory,
        In (fragment, memory) GPU_MEMORY -> ~ occurs_in fragment folded)
  /\ infer_gpu_memory "l40s_nova" = Some 48
  /\ nth_error GPU_MEMORY 5 = Some ("l40s", 48)
  /\ occurs_in "l40s" (PyStr.lower "l40s_nova")
  /\ first_match (firstn 5 GPU_MEMORY) (PyStr.lower "l40s_nova") = None.
Proof.
  cbv zeta. split; [|split; [|repeat split]].
  - intros memory. apply first_match_some.
  - apply first_match_none.
  - now exists EmptyString, "_nova".
Qed.

(** C9: no lookup resolves through the entries [l40sx] and [rtx2080ti]:
    [l40s] and [2080ti] precede them and occur in them, so a name in which
    one of the two occurs already matches the earlier entry, and
    [infer_gpu_memory] agrees on every name with the same first-match
    lookup over the catalog without these two entries. *)
Theorem infer_gpu_memory_shadowed_entries (partition_name : string) :
  infer_gpu_memory partition_name
  = first_match GPU_MEMORY_unshadowed (PyStr.lower partition_name)
  /\ GPU_MEMORY_unshadowed
     = [ ("a100", 40); ("h200", 141); ("v100", 16); ("a5000", 24);
         ("a5500", 24); ("l40s", 48); ("2080ti", 11); ("a6000", 48);
         ("a40", 48); ("rtx3090", 24); ("rtx4090", 24); ("titan", 24) ]
  /\ (forall i fragment memory,
        first_match (firstn i GPU_MEMORY) (PyStr.lower partition_name) = None ->
        nth_error GPU_MEMORY i = Some (fragment, memory) ->
        occurs_in fragment (PyStr.lower partition_name) ->
        fragment <> "l40sx" /\ fragment <> "rtx2080ti").
Proof.
  split; [|split; [reflexivity|]].
  - unfold infer_gpu_memory; cbv zeta.
    set (folded := PyStr.lower partition_name).
    assert (H1 : occurs_in "l40s" "l40sx") by now exists EmptyString, "x".
    assert (H2 : occurs_in "2080ti" "rtx2080ti") by now exists "rtx", EmptyString.
    change GPU_MEMORY with
      ([("a100", 40); ("h200", 141); ("v100", 16); ("a5000", 24); ("a5500", 24)]
       ++ ("l40s", 48) :: [] ++ ("l40sx", 48)
       :: [("2080ti", 11); ("rtx2080ti", 11); ("a6000", 48); ("a40", 48);
           ("rtx3090", 24); ("rtx4090", 24); ("titan", 24)]).
    rewrite (first_match_shadowed folded _ _ _ _ _ 48 48 H1).
    change (first_match _ folded) with
      (first_match
         ([("a100", 40); ("h200", 141); ("v100", 16); ("a5000", 24);
           ("a5500", 24); ("l40s", 48)]
          ++ ("2080ti", 11) :: [] ++ ("rtx2080ti", 11)
          :: [("a6000", 48); ("a40", 48); ("rtx3090", 24); ("rtx4090", 24);
              ("titan", 24)]) folded) at 1.
    rewrite (first_match_shadowed folded _ _ _ _ _ 11 11 H2).
    reflexivity.
  - intros i fragment memory Hnone Hnth Hocc.
    rewrite first_match_none in Hnone.
    split; intros ->.
    + apply (Hnone "l40s" 48).
      * do 7 (destruct i as [|i]; [discriminate Hnth || (simpl; tauto)|]).
        destruct i; simpl in Hnth; try discriminate;
          repeat (destruct i; simpl in Hnth; try discriminate).
      * eapply occurs_in_trans; [|exact Hocc]. now exists EmptyString, "x".
    + apply (Hnone "2080ti" 11).
      * do 9 (destruct i as [|i]; [discriminate Hnth || (simpl; tauto)|]).
        repeat (destruct i; simpl in Hnth; try discriminate).
      * eapply occurs_in_trans; [|exact Hocc]. now exists "rtx", EmptyString.
Qed.

(** ** Rows the parser skips, and rows that stop it *)

(** C2, as amended: a row with fewer than seven fields, a row whose node
    ratio does not split into exactly four parts, and a row whose node ratio
    is four integers while its CPU ratio does not split into exactly four
    parts, are skipped: the loop goes on as if the row were absent.  The
    first line is never parsed: the result does not depend on it. *)
Theorem malformed_row_skipped (line : string) :
  (field_count line < 7)%nat
  \/ part_count (node_field line) <> 4%nat
  \/ ((exists a b c d, four_integers (node_field line) a b c d)
      /\ part_count (cpu_field line) <> 4%nat) ->
  parse_line line = Skip
  /\ (forall (d : dict) (before after : list string),
        aggregate_lines d (before ++ line :: after)
        = aggregate_lines d (before ++ after))
  /\ (forall (header header' : string) (rows : list string),
        info_of_lines (header :: rows) = info_of_lines (header' :: rows)).
Proof.
  intros H.
  assert (Hskip : parse_line line = Skip).
  { destruct H as [H | [H | [[a [b [c [d Hn]]]] Hc]]].
    - now apply parse_line_few_fields.
    - now apply parse_line_node_parts.
    - eapply parse_line_cpu_parts; eassumption. }
  split; [exact Hskip | split].
  - intros d before after. rewrite !aggregate_lines_app.
    destruct (aggregate_lines d before); [reflexivity|].
    now apply aggregate_lines_skip.
  - reflexivity.
Qed.

Lemma malformed_row_skipped_witness :
  let line := "gpu 3/1/0 1/2/3/6 3 1:00 idle n1" in
  part_count (node_field line) <> 4%nat
  /\ parse_line line = Skip
  /\ (forall (d : dict) (before after : list string),
        aggregate_lines d (before ++ line :: after)
        = aggregate_lines d (before ++ after)).
Proof.
  cbv zeta.
  assert (H : part_count (node_field "gpu 3/1/0 1/2/3/6 3 1:00 idle n1") <> 4%nat)
    by (vm_compute; discriminate).
  split; [exact H|].
  destruct (malformed_row_skipped "gpu 3/1/0 1/2/3/6 3 1:00 idle n1"
              (or_intror (or_introl H))) as [H1 [H2 _]].
  split; [exact H1 | exact H2].
Defined.

(** C2 as the specification words it fails: a row whose node ratio has
    four parts that are not all integers is not skipped.  [int] raises on
    the part [x], and the call returns an error although the row after it
    is well formed. *)
Lemma malformed_integer_fails_batch :
  ~ (forall (line : string) (before after : list string),
       ((field_count line < 7)%nat
        \/ ~ (exists a b c d, four_integers (node_field line) a b c d)
        \/ ~ (exists a b c d, four_integers (cpu_field line) a b c d)) ->
       aggregate_lines [] (before ++ line :: after)
       = aggregate_lines [] (before ++ after)).
Proof.
  intros H.
  specialize (H "gpu 1/2/x/3 1/2/3/6 3 1:00 idle n1" []
                ["cpu 1/0/0/1 4/0/0/4 1 infinite alloc c1"]).
  assert (Hbad : ~ (exists a b c d,
                      four_integers
                        (node_field "gpu 1/2/x/3 1/2/3/6 3 1:00 idle n1")
                        a b c d)).
  { intros [a [b [c [d Hfour]]]]. vm_compute in Hfour. discriminate. }
  specialize (H (or_intror (or_introl Hbad))).
  vm_compute in H. discriminate.
Qed.

Example malformed_integer_report :
  info_of_lines ["HDR"; "gpu 1/2/x/3 1/2/3/6 3 1:00 idle n1";
                 "cpu 1/0/0/1 4/0/0/4 1 infinite alloc c1"]
  = Failed (Unexpected (ValueError "x")).
Proof. reflexivity. Qed.

(** ** Reports without a usable row *)

Lemma rows_of_all_skipped (rows : list string) :
  (forall line, In line rows -> parse_line line = Skip) -> rows_of rows = [].
Proof.
  unfold rows_of. induction rows as [|line rows IH]; intros H; simpl.
  - reflexivity.
  - rewrite (H line (or_introl eq_refl)). simpl. apply IH.
    intros l Hl. apply H. now right.
Qed.

Lemma add_row_not_empty (d : dict) (r : row) : add_row d r <> [].
Proof.
  unfold add_row. destruct (dict_mem (row_partition_name r) d) eqn:Hm.
  - destruct d as [|[k v] d]; [discriminate Hm|]. simpl.
    now destruct (String.eqb (row_partition_name r) k).
  - destruct d as [|[k v] d]; simpl.
    + now rewrite String.eqb_refl.
    + now destruct (String.eqb (row_partition_name r) k).
Qed.

Lemma fold_add_row_not_empty (rows : list row) (d : dict) :
  d <> [] -> fold_left add_row rows d <> [].
Proof.
  revert d; induction rows as [|r rows IH]; intros d Hd; simpl; [exact Hd|].
  apply IH, add_row_not_empty.
Qed.

(** C3 as the specification words it fails: a report made only of rows
    with the three-part ratio [3/1/0] has no usable row, and the call
    returns the empty partition list with no error; the page is built, with
    neither a GPU nor a CPU section. *)
Lemma all_rows_malformed_is_not_an_error :
  ~ (forall (min_gpu_memory : Z) (stdout : string),
       (forall partitions,
          get_detailed_partition_info (Completed 0 stdout) = Info partitions ->
          partitions = []) ->
       exists error,
         get_available_resources min_gpu_memory (Completed 0 stdout)
         = ErrorText error).
Proof.
  intros H.
  destruct (H 0 (String.concat (String "010" "")
                   ["HDR"; "gpu 3/1/0 1/2/3/6 3 1:00 idle n1";
                    "gpu 3/1/0 1/2/3/6 3 1:00 idle n2"]))
    as [error Herr].
  - intros partitions Hp. vm_compute in Hp. now injection Hp as <-.
  - vm_compute in Herr. discriminate.
Qed.

Example all_rows_malformed_report :
  info_of_lines ["HDR"; "gpu 3/1/0 1/2/3/6 3 1:00 idle n1";
                 "gpu 3/1/0 1/2/3/6 3 1:00 idle n2"] = Info []
  /\ render 0 [] = [Banner; Legend].
Proof. split; reflexivity. Qed.

(** ** Rows whose counters do not add up *)

(** C6, as amended: the parser does not compare the counters of a ratio
    with its total.  A row with seven fields, two ratios of four integers
    and an integer node count is accepted whatever the values, and its
    eight counters are added unchanged to the aggregate of its name. *)
Theorem parser_accepts_any_counters
    (line : string) (a i o t ca ci co ct n : Z) :
  (7 <= field_count line)%nat ->
  four_integers (node_field line) a i o t ->
  four_integers (cpu_field line) ca ci co ct ->
  PyStr.int (count_field line) = Some n ->
  exists r : row,
    parse_line line = Done r
    /\ row_counters r = ((a, i, o, t), (ca, ci, co, ct))
    /\ forall d : dict,
         aggregate_lines d [line] = inr (add_row d r)
         /\ option_map counters_of (dict_get (row_partition_name r) (add_row d r))
            = Some (counters_add
                      (match dict_get (row_partition_name r) d with
                       | Some p => counters_of p
                       | None => counters_zero
                       end)
                      ((a, i, o, t), (ca, ci, co, ct))).
Proof.
  intros H7 Hn Hc Hk.
  exists (row_from line a i o t ca ci co ct n).
  split; [now apply parse_line_done | split; [reflexivity|]].
  intros d. split.
  - simpl. now rewrite (parse_line_done _ _ _ _ _ _ _ _ _ _ H7 Hn Hc Hk).
  - rewrite dict_get_add_row, String.eqb_refl. unfold slot. simpl.
    rewrite counters_of_accumulate. now destruct (dict_get _ d).
Qed.

Lemma parser_accepts_any_counters_witness :
  let line := "gpu 1/1/1/10 2/2/2/20 10 1:00 idle n1" in
  1 + 1 + 1 <> 10
  /\ exists r : row,
       parse_line line = Done r
       /\ row_counters r = ((1, 1, 1, 10), (2, 2, 2, 20))
       /\ option_map counters_of (dict_get (row_partition_name r) (add_row [] r))
          = Some ((1, 1, 1, 10), (2, 2, 2, 20)).
Proof.
  cbv zeta. split; [lia|].
  destruct (parser_accepts_any_counters
              "gpu 1/1/1/10 2/2/2/20 10 1:00 idle n1" 1 1 1 10 2 2 2 20 10)
    as [r [H1 [H2 H3]]];
    [vm_compute; lia | reflexivity | reflexivity | reflexivity |].
  exists r. split; [exact H1 | split; [exact H2|]].
  exact (proj2 (H3 [])).
Defined.

(** C6 as the specification words it fails: the row [1/1/1/10] breaks
    [allocated + idle + other == total], is parsed all the same, and its
    counters reach the aggregate as they are. *)
Lemma inconsistent_row_is_aggregated :
  ~ (forall (line : string) (r : row),
       parse_line line = Done r ->
       row_allocated_nodes r + row_idle_nodes r + row_other_nodes r
       = row_total_nodes r
       /\ row_allocated_cpus r + row_idle_cpus r + row_other_cpus r
          = row_total_cpus r).
Proof.
  intros H.
  destruct (H "gpu 1/1/1/10 2/2/2/20 10 1:00 idle n1" _ eq_refl) as [Hn _].
  vm_compute in Hn. discriminate.
Qed.

Example inconsistent_row_report :
  option_map (map counters_of)
    (match info_of_lines ["HDR"; "gpu 1/1/1/10 2/2/2/20 10 1:00 idle n1"] with
     | Info partitions => Some partitions
     | Failed _ => None
     end)
  = Some [((1, 1, 1, 10), (2, 2, 2, 20))].
Proof. reflexivity. Qed.

(** ** Aggregation does not depend on the order of the rows *)

Lemma no_line_raises_perm (lines lines' : list string) :
  Permutation lines lines' -> no_line_raises lines -> no_line_raises lines'.
Proof.
  intros Hperm Hno line e Hin. apply Hno.
  eapply Permutation_in; [apply Permutation_sym; exact Hperm | exact Hin].
Qed.

(** The counters of a name in the list the aggregator returns. *)
Lemma counters_of_aggregate (nm : string) (rows : list row) :
  option_map counters_of
    (partition_named nm (dict_values (fold_left add_row rows [])))
  = if has_row nm rows then Some (row_sum nm rows) else None.
Proof.
  rewrite partition_named_values
    by (apply well_keyed_fold; constructor).
  now rewrite counters_after_rows.
Qed.

(** C7: for rows none of which makes [int] fail, in particular for
    well-formed rows, shuffling the rows before aggregation changes no
    partition's eight counters: both runs succeed and every partition name
    carries the same sums of the four node counters and the four CPU
    counters.  The two rows [2/1/0/3] and [1/0/0/1] of [gpu-a100-1]
    aggregate to allocated 3, idle 1, other 0, total 4; one node is
    available, the catalog gives 40 per card, and the total available
    memory is 40. *)
Theorem aggregation_order_invariant (lines lines' : list string) :
  Permutation lines lines' ->
  no_line_raises lines ->
  (exists d d' : dict,
     aggregate_lines [] lines = inr d
     /\ aggregate_lines [] lines' = inr d'
     /\ forall nm : string,
          option_map counters_of (partition_named nm (dict_values d))
          = option_map counters_of (partition_named nm (dict_values d')))
  /\ (exists p : partition,
        info_of_lines ["HDR"; "gpu-a100-1 2/1/0/3 8/4/0/12 3 1:00:00 mixed n[1-3]";
                       "gpu-a100-1 1/0/0/1 4/0/0/4 1 1:00:00 allocated n4"]
        = Info [p]
        /\ name p = "gpu-a100-1"
        /\ total_nodes p = 4 /\ allocated_nodes p = 3
        /\ idle_nodes p = 1 /\ other_nodes p = 0
        /\ available_nodes (annotate p) = 1
        /\ gpu_memory (annotate p) = Some 40
        /\ 40 * available_nodes (annotate p) = 40
        /\ 40 * (total_nodes p - allocated_nodes p) = 40).
Proof.
  intros Hperm Hno. split.
  - exists (fold_left add_row (rows_of lines) []),
           (fold_left add_row (rows_of lines') []).
    split; [now apply aggregate_lines_rows|].
    split; [apply aggregate_lines_rows; eapply no_line_raises_perm; eassumption|].
    intros nm. rewrite !counters_of_aggregate.
    assert (Hrows := rows_of_perm _ _ Hperm).
    now rewrite (has_row_perm nm _ _ Hrows), (row_sum_perm nm _ _ Hrows).
  - eexists. split; [reflexivity|]. repeat split.
Qed.

Lemma aggregation_order_invariant_witness :
  let l1 := "gpu-a100-1 2/1/0/3 8/4/0/12 3 1:00:00 mixed n[1-3]" in
  let l2 := "cpu 1/0/0/1 4/0/0/4 1 infinite allocated c1" in
  let l3 := "gpu-a100-1 1/0/0/1 4/0/0/4 1 2:00:00 allocated n4" in
  Permutation [l1; l2; l3] [l3; l2; l1]
  /\ no_line_raises [l1; l2; l3]
  /\ exists d d' : dict,
       aggregate_lines [] [l1; l2; l3] = inr d
       /\ aggregate_lines [] [l3; l2; l1] = inr d'
       /\ forall nm : string,
            option_map counters_of (partition_named nm (dict_values d))
            = option_map counters_of (partition_named nm (dict_values d')).
Proof.
  cbv zeta.
  set (l1 := "gpu-a100-1 2/1/0/3 8/4/0/12 3 1:00:00 mixed n[1-3]").
  set (l2 := "cpu 1/0/0/1 4/0/0/4 1 infinite allocated c1").
  set (l3 := "gpu-a100-1 1/0/0/1 4/0/0/4 1 2:00:00 allocated n4").
  assert (Hperm : Permutation [l1; l2; l3] [l3; l2; l1]).
  { apply (Permutation_trans (l' := [l2; l1; l3])); [apply perm_swap|].
    apply (Permutation_trans (l' := [l2; l3; l1]));
      [apply perm_skip, perm_swap|].
    apply perm_swap. }
  assert (Hno : no_line_raises [l1; l2; l3]).
  { intros line e [<- | [<- | [<- | []]]]; vm_compute; discriminate. }
  split; [exact Hperm | split; [exact Hno|]].
  exact (proj1 (aggregation_order_invariant _ _ Hperm Hno)).
Defined.

Example aggregation_order_example :
  map (fun p => (name p, timelimit p))
    (dict_values (fold_left add_row
       (rows_of ["gpu-a100-1 2/1/0/3 8/4/0/12 3 1:00:00 mixed n[1-3]";
                 "gpu-a100-1 1/0/0/1 4/0/0/4 1 2:00:00 allocated n4"]) []))
  = [("gpu-a100-1", "1:00:00")].
Proof. reflexivity. Qed.

(** ** The stable descending sort *)

Section PySortFacts.
Context {A K : Type} (key : A -> K) (ltb : K -> K -> bool).
Hypothesis ltb_asym : forall a b, ltb a b = true -> ltb b a = false.
Hypothesis ltb_negtrans :
  forall a b c, ltb a b = false -> ltb b c = false -> ltb a c = false.

Lemma insert_desc_perm (x : A) (l : list A) :
  Permutation (insert_desc key ltb x l) (x :: l).
Proof.
  induction l as [|y l IH]; simpl; [apply Permutation_refl|].
  destruct (ltb (key x) (key y)); [|apply Permutation_refl].
  eapply Permutation_trans; [apply perm_skip, IH | apply perm_swap].
Qed.

Lemma sort_reverse_perm (l : list A) :
  Permutation (sort_reverse key ltb l) l.
Proof.
  induction l as [|x l IH]; simpl; [constructor|].
  eapply Permutation_trans; [apply insert_desc_perm | now apply perm_skip].
Qed.

Lemma insert_desc_sorted (x : A) (l : list A) :
  StronglySorted (not_below key ltb) l ->
  StronglySorted (not_below key ltb) (insert_desc key ltb x l).
Proof.
  induction l as [|y l IH]; intros Hs; simpl.
  - constructor; constructor.
  - apply StronglySorted_inv in Hs. destruct Hs as [Hl Hy].
    destruct (ltb (key x) (key y)) eqn:Hxy.
    + constructor; [now apply IH|].
      eapply Permutation_Forall;
        [apply Permutation_sym, insert_desc_perm|].
      constructor; [now apply ltb_asym | exact Hy].
    + constructor; [now constructor|].
      constructor; [exact Hxy|].
      eapply Forall_impl; [|exact Hy].
      intros z Hz. unfold not_below in *. eapply ltb_negtrans; eassumption.
Qed.

Lemma sort_reverse_sorted (l : list A) :
  StronglySorted (not_below key ltb) (sort_reverse key ltb l).
Proof.
  induction l as [|x l IH]; simpl; [constructor|].
  now apply insert_desc_sorted.
Qed.

Lemma insert_desc_stable (k : K) (x : A) (l : list A) :
  filter (same_key key ltb k) (insert_desc key ltb x l) = filter (same_key key ltb k) (x :: l).
Proof.
  induction l as [|y l IH]; [reflexivity|].
  cbn [insert_desc]. destruct (ltb (key x) (key y)) eqn:Hxy; [|reflexivity].
  cbn [filter] in *. rewrite IH.
  destruct (same_key key ltb k x) eqn:Hx; [|reflexivity].
  destruct (same_key key ltb k y) eqn:Hy; [|reflexivity].
  exfalso. unfold same_key in Hx, Hy.
  apply andb_true_iff in Hx, Hy.
  destruct Hx as [_ Hx], Hy as [Hy _].
  apply negb_true_iff in Hx, Hy.
  rewrite (ltb_negtrans _ _ _ Hx Hy) in Hxy. discriminate.
Qed.

Lemma sort_reverse_stable (k : K) (l : list A) :
  filter (same_key key ltb k) (sort_reverse key ltb l) = filter (same_key key ltb k) l.
Proof.
  induction l as [|x l IH]; [reflexivity|].
  cbn [sort_reverse fold_right]. rewrite insert_desc_stable.
  cbn [filter]. fold (sort_reverse key ltb l). now rewrite IH.
Qed.

Lemma sort_reverse_nil_iff (l : list A) :
  sort_reverse key ltb l = [] <-> l = [].
Proof.
  split; [|now intros ->].
  intros H. apply Permutation_nil.
  rewrite <- H. apply sort_reverse_perm.
Qed.
End PySortFacts.

Section ListFacts.
Context {A : Type}.

Lemma StronglySorted_filter (R : A -> A -> Prop) (p : A -> bool) (l : list A) :
  StronglySorted R l -> StronglySorted R (filter p l).
Proof.
  induction 1 as [|x l Hs IH Hx]; simpl; [constructor|].
  destruct (p x); [|exact IH].
  constructor; [exact IH|].
  apply Forall_forall. intros y Hy. apply filter_In in Hy.
  rewrite Forall_forall in Hx. now apply Hx.
Qed.

Lemma StronglySorted_weaken (R R' : A -> A -> Prop) (l : list A) :
  (forall x y, In x l -> In y l -> R x y -> R' x y) ->
  StronglySorted R l -> StronglySorted R' l.
Proof.
  intros Himp Hs. induction Hs as [|x l Hs IH Hx]; [constructor|].
  constructor.
  - apply IH. intros a b Ha Hb. apply Himp; now right.
  - rewrite Forall_forall in *. intros y Hy.
    apply Himp; [now left | now right | now apply Hx].
Qed.

Lemma filter_comm (p q : A -> bool) (l : list A) :
  filter p (filter q l) = filter q (filter p l).
Proof.
  induction l as [|x l IH]; simpl; [reflexivity|].
  destruct (p x) eqn:Hp, (q x) eqn:Hq; simpl; rewrite ?Hp, ?Hq, IH; reflexivity.
Qed.

Lemma filter_and (p q : A -> bool) (l : list A) :
  filter p (filter q l) = filter (fun x => q x && p x) l.
Proof.
  induction l as [|x l IH]; simpl; [reflexivity|].
  destruct (q x); simpl; [destruct (p x)|]; now rewrite IH.
Qed.

Lemma filter_length_le (p q : A -> bool) (l : list A) :
  (forall x, In x l -> p x = true -> q x = true) ->
  (List.length (filter p l) <= List.length (filter q l))%nat.
Proof.
  induction l as [|x l IH]; intros H; simpl; [lia|].
  assert (IH' := IH (fun y Hy => H y (or_intror Hy))).
  destruct (p x) eqn:Hp.
  - rewrite (H x (or_introl eq_refl) Hp). simpl. lia.
  - destruct (q x); simpl; lia.
Qed.
End ListFacts.

(** The two orders the source sorts by. *)
Lemma pair_ltb_asym (a b : Z * Z) : pair_ltb a b = true -> pair_ltb b a = false.
Proof.
  destruct a as [a1 a2], b as [b1 b2]. unfold pair_ltb. simpl.
  destruct (Z.ltb_spec a1 b1), (Z.eqb_spec a1 b1), (Z.ltb_spec a2 b2),
    (Z.ltb_spec b1 a1), (Z.eqb_spec b1 a1), (Z.ltb_spec b2 a2);
    simpl; intros; try reflexivity; try discriminate; lia.
Qed.

Lemma pair_ltb_negtrans (a b c : Z * Z) :
  pair_ltb a b = false -> pair_ltb b c = false -> pair_ltb a c = false.
Proof.
  destruct a as [a1 a2], b as [b1 b2], c as [c1 c2]. unfold pair_ltb. simpl.
  destruct (Z.ltb_spec a1 b1), (Z.eqb_spec a1 b1), (Z.ltb_spec a2 b2),
    (Z.ltb_spec b1 c1), (Z.eqb_spec b1 c1), (Z.ltb_spec b2 c2),
    (Z.ltb_spec a1 c1), (Z.eqb_spec a1 c1), (Z.ltb_spec a2 c2);
    simpl; intros; try reflexivity; try discriminate; lia.
Qed.

Lemma Zltb_asym (a b : Z) : (a <? b) = true -> (b <? a) = false.
Proof. rewrite Z.ltb_lt, Z.ltb_ge. lia. Qed.

Lemma Zltb_negtrans (a b c : Z) :
  (a <? b) = false -> (b <? c) = false -> (a <? c) = false.
Proof. rewrite !Z.ltb_ge. lia. Qed.

(** ** The first loop of the ranker *)

Lemma group_get_append (k' k : Z) (x : ranked) (g : groups) :
  group_get k' (group_append k x g)
  = if k' =? k then group_get k g ++ [x] else group_get k' g.
Proof.
  induction g as [|[k0 xs] g IH]; simpl.
  - now destruct (k' =? k).
  - destruct (Z.eqb_spec k k0) as [->|Hk]; simpl.
    + destruct (Z.eqb_spec k' k0) as [->|Hk']; reflexivity.
    + rewrite IH. destruct (Z.eqb_spec k' k0) as [->|Hk'].
      * destruct (Z.eqb_spec k0 k); [congruence | reflexivity].
      * reflexivity.
Qed.

Lemma group_append_keys (k' k : Z) (x : ranked) (g : groups) :
  In k' (map fst (group_append k x g)) <-> k' = k \/ In k' (map fst g).
Proof.
  induction g as [|[k0 xs] g IH]; simpl.
  - intuition.
  - destruct (Z.eqb_spec k k0) as [->|Hk]; simpl.
    + intuition.
    + rewrite IH. intuition.
Qed.

Lemma group_append_nodup (k : Z) (x : ranked) (g : groups) :
  NoDup (map fst g) -> NoDup (map fst (group_append k x g)).
Proof.
  induction g as [|[k0 xs] g IH]; simpl; intros Hnd.
  - constructor; [intros [] | constructor].
  - inversion Hnd as [|? ? Hnot Hnd']; subst.
    destruct (Z.eqb_spec k k0) as [->|Hk]; simpl.
    + now constructor.
    + constructor; [|now apply IH].
      rewrite group_append_keys. intros [-> | Hin]; [congruence | contradiction].
Qed.

Lemma categorize_groups (k : Z) (partitions : list partition)
      (acc : groups * list ranked) :
  group_get k (fst (fold_left categorize_one partitions acc))
  = group_get k (fst acc) ++ filter (class_is k) (map annotate partitions).
Proof.
  revert acc; induction partitions as [|p ps IH]; intros acc;
    cbn [fold_left map filter].
  - now rewrite app_nil_r.
  - rewrite IH. unfold categorize_one, class_is at 2.
    destruct (gpu_class (annotate p)) as [m|]; cbn [fst snd].
    + rewrite group_get_append. rewrite (Z.eqb_sym m k).
      destruct (k =? m) eqn:E; [|reflexivity].
      apply Z.eqb_eq in E; subst. now rewrite <- app_assoc.
    + reflexivity.
Qed.

Lemma categorize_cpu (partitions : list partition)
      (acc : groups * list ranked) :
  snd (fold_left categorize_one partitions acc)
  = snd acc ++ filter is_cpu (map annotate partitions).
Proof.
  revert acc; induction partitions as [|p ps IH]; intros acc;
    cbn [fold_left map filter].
  - now rewrite app_nil_r.
  - rewrite IH. unfold categorize_one, is_cpu at 2.
    destruct (gpu_class (annotate p)) as [m|]; cbn [fst snd]; [reflexivity|].
    now rewrite <- app_assoc.
Qed.

Lemma categorize_nodup (partitions : list partition)
      (acc : groups * list ranked) :
  NoDup (map fst (fst acc)) ->
  NoDup (map fst (fst (fold_left categorize_one partitions acc))).
Proof.
  revert acc; induction partitions as [|p ps IH]; intros acc Hnd; simpl.
  - exact Hnd.
  - apply IH. unfold categorize_one.
    destruct (gpu_class (annotate p)); simpl; [|exact Hnd].
    now apply group_append_nodup.
Qed.

(** ** Sorted groups and sorted keys *)

Lemma sorted_groups_keys (g : groups) : map fst (sorted_groups g) = map fst g.
Proof. unfold sorted_groups. rewrite map_map. reflexivity. Qed.

Lemma sorted_groups_get (k : Z) (g : groups) :
  group_get k (sorted_groups g) = sort_partitions (group_get k g).
Proof.
  induction g as [|[k0 xs] g IH]; simpl; [reflexivity|].
  destruct (k =? k0); [reflexivity | exact IH].
Qed.

Lemma sorted_keys_sorted_groups (g : groups) :
  sorted_keys (sorted_groups g) = sorted_keys g.
Proof. unfold sorted_keys. now rewrite sorted_groups_keys. Qed.

(** Distinct keys in descending order are strictly descending. *)
Lemma descending_strict (l : list Z) :
  NoDup l ->
  StronglySorted (not_below (fun k : Z => k) Z.ltb) l ->
  StronglySorted (fun a b : Z => b < a) l.
Proof.
  intros Hnd Hs. induction Hs as [|a l Hs IH Ha]; [constructor|].
  inversion Hnd as [|? ? Hnot Hnd']; subst.
  constructor; [now apply IH|].
  rewrite Forall_forall in *. intros b Hb.
  specialize (Ha b Hb). unfold not_below in Ha. apply Z.ltb_ge in Ha.
  assert (a <> b) by (intros ->; contradiction). lia.
Qed.

Lemma sorted_keys_descending (g : groups) :
  NoDup (map fst g) -> StronglySorted (fun a b : Z => b < a) (sorted_keys g).
Proof.
  intros Hnd. unfold sorted_keys. apply descending_strict.
  - eapply Permutation_NoDup; [|exact Hnd].
    apply Permutation_sym, sort_reverse_perm.
  - apply sort_reverse_sorted; [apply Zltb_asym | apply Zltb_negtrans].
Qed.

(** ** The card loop *)

Lemma gpu_cards_fst (min_gpu_memory : Z) (g : groups) (keys : list Z) :
  fst (gpu_cards min_gpu_memory g keys)
  = flat_map (card_for min_gpu_memory g) keys.
Proof.
  induction keys as [|k keys IH]; simpl; [reflexivity|].
  destruct (gpu_cards min_gpu_memory g keys) as [cards results].
  simpl in IH. unfold card_for at 1.
  destruct (filter (passes min_gpu_memory k) (group_get k g)); simpl;
    now rewrite IH.
Qed.

Lemma card_for_spec (min_gpu_memory : Z) (g : groups) (k : Z) (c : card) :
  In c (card_for min_gpu_memory g k) ->
  card_gpu_mem c = k
  /\ card_partitions c = filter (passes min_gpu_memory k) (group_get k g).
Proof.
  unfold card_for.
  destruct (filter (passes min_gpu_memory k) (group_get k g)) eqn:E;
    [intros [] | intros [<- | []]]. simpl. now split.
Qed.

Lemma card_for_partitions (min_gpu_memory : Z) (g : groups) (k : Z) :
  flat_map card_partitions (card_for min_gpu_memory g k)
  = filter (passes min_gpu_memory k) (group_get k g).
Proof.
  unfold card_for.
  destruct (filter (passes min_gpu_memory k) (group_get k g)); simpl;
    [reflexivity | now rewrite app_nil_r].
Qed.

Lemma cards_in_keys (min_gpu_memory : Z) (g : groups) (keys : list Z)
      (c : card) :
  In c (flat_map (card_for min_gpu_memory g) keys) ->
  In (card_gpu_mem c) keys
  /\ card_partitions c
     = filter (passes min_gpu_memory (card_gpu_mem c))
              (group_get (card_gpu_mem c) g).
Proof.
  rewrite in_flat_map. intros [k [Hk Hc]].
  apply card_for_spec in Hc. destruct Hc as [-> Hp]. now split.
Qed.

Lemma cards_descending (min_gpu_memory : Z) (g : groups) (keys : list Z) :
  StronglySorted (fun a b : Z => b < a) keys ->
  StronglySorted (fun a b : Z => b < a)
    (map card_gpu_mem (flat_map (card_for min_gpu_memory g) keys)).
Proof.
  induction 1 as [|k keys Hs IH Hk]; simpl; [constructor|].
  rewrite map_app.
  destruct (card_for min_gpu_memory g k) as [|c [|c' l]] eqn:E; simpl.
  - exact IH.
  - assert (Hc : card_gpu_mem c = k)
      by (apply (card_for_spec min_gpu_memory g); rewrite E; now left).
    rewrite Hc. constructor; [exact IH|].
    rewrite Forall_forall in *. intros b Hb.
    apply in_map_iff in Hb. destruct Hb as [c0 [<- Hc0]].
    apply Hk. now apply (cards_in_keys min_gpu_memory g).
  - unfold card_for in E.
    destruct (filter (passes min_gpu_memory k) (group_get k g)); discriminate.
Qed.

Lemma cards_partitions (min_gpu_memory : Z) (g : groups) (keys : list Z) :
  flat_map card_partitions (flat_map (card_for min_gpu_memory g) keys)
  = flat_map (fun k => filter (passes min_gpu_memory k) (group_get k g)) keys.
Proof.
  induction keys as [|k keys IH]; simpl; [reflexivity|].
  now rewrite flat_map_app, card_for_partitions, IH.
Qed.

(** ** The shape of the page *)

Lemma render_unfold (min_gpu_memory : Z) (partitions : list partition) :
  let g := sorted_groups (fst (categorize partitions)) in
  let cpu := sort_partitions (snd (categorize partitions)) in
  let cards := fst (gpu_cards min_gpu_memory g (sorted_keys g)) in
  let results := snd (gpu_cards min_gpu_memory g (sorted_keys g)) in
  render min_gpu_memory partitions
  = Banner :: gpu_section min_gpu_memory g cards
      ++ cpu_section cpu ++ table_section min_gpu_memory results ++ [Legend].
Proof.
  cbv zeta. unfold render. destruct (categorize partitions) as [g0 cpu0].
  cbn [fst snd].
  destruct (gpu_cards min_gpu_memory (sorted_groups g0)
              (sorted_keys (sorted_groups g0))) as [cards results].
  reflexivity.
Qed.

Lemma cards_of_map (cards : list card) : cards_of (map GpuCard cards) = cards.
Proof. induction cards as [|c l IH]; simpl; [reflexivity | now rewrite IH]. Qed.

Lemma cards_of_app (l1 l2 : list block) :
  cards_of (l1 ++ l2) = cards_of l1 ++ cards_of l2.
Proof. apply flat_map_app. Qed.

Lemma shown_app (l1 l2 : list block) : shown (l1 ++ l2) = shown l1 ++ shown l2.
Proof. apply flat_map_app. Qed.

Lemma shown_map (cards : list card) :
  shown (map GpuCard cards) = flat_map card_partitions cards.
Proof. induction cards as [|c l IH]; simpl; [reflexivity | now rewrite IH]. Qed.

(** With no group there is no key, hence no card. *)
Lemma gpu_section_cards (min_gpu_memory : Z) (g : groups) :
  let cards := fst (gpu_cards min_gpu_memory g (sorted_keys g)) in
  cards_of (gpu_section min_gpu_memory g cards) = cards
  /\ shown (gpu_section min_gpu_memory g cards) = flat_map card_partitions cards
  /\ (forall l, ~ In (CpuSection l) (gpu_section min_gpu_memory g cards))
  /\ (forall c, In (GpuCard c) (gpu_section min_gpu_memory g cards) ->
                In c cards).
Proof.
  cbv zeta. set (cards := fst (gpu_cards min_gpu_memory g (sorted_keys g))).
  destruct g as [|kv g].
  - subst cards. simpl. repeat split; intros; try tauto.
  - unfold gpu_section.
    destruct (0 <? min_gpu_memory), (Nat.eqb (List.length cards) 0);
      cbn [negb andb]; (split; [|split; [|split]]).
    all: try (rewrite !cards_of_app, cards_of_map; simpl;
              now rewrite ?app_nil_r).
    all: try (rewrite !shown_app, shown_map; simpl; now rewrite ?app_nil_r).
    all: try solve
           [intros l Hin; rewrite !in_app_iff, in_map_iff in Hin;
            simpl in Hin;
            destruct Hin as [[H|[]] | [[c [H _]] | [H | H]]];
            try discriminate; try tauto;
            repeat (destruct H as [H | H]; try discriminate; try tauto)].
    all: intros c Hin; rewrite !in_app_iff, in_map_iff in Hin;
         simpl in Hin;
         destruct Hin as [[H|[]] | [[c0 [H Hc]] | [H | H]]];
         try discriminate; try tauto;
         try (injection H as ->; exact Hc);
         repeat (destruct H as [H | H]; try discriminate; try tauto).
Qed.

Lemma rest_has_no_card (min_gpu_memory : Z) (cpu : list ranked)
      (results : list result) (c : card) :
  ~ In (GpuCard c)
      (cpu_section cpu ++ table_section min_gpu_memory results ++ [Legend]).
Proof.
  rewrite !in_app_iff. unfold cpu_section, table_section.
  destruct cpu, results; try destruct (0 <? min_gpu_memory); simpl;
    intros H; repeat (destruct H as [H | H]; try discriminate; try tauto).
Qed.

Lemma rest_cpu_section (min_gpu_memory : Z) (cpu : list ranked)
      (results : list result) (l : list ranked) :
  In (CpuSection l)
     (cpu_section cpu ++ table_section min_gpu_memory results ++ [Legend]) ->
  l = cpu.
Proof.
  rewrite !in_app_iff. unfold cpu_section, table_section.
  destruct cpu, results; try destruct (0 <? min_gpu_memory); simpl;
    intros H; repeat (destruct H as [H | H]; try discriminate; try tauto);
    now injection H.
Qed.

Lemma shown_rest (min_gpu_memory : Z) (cpu : list ranked)
      (results : list result) :
  shown (cpu_section cpu ++ table_section min_gpu_memory results ++ [Legend])
  = cpu.
Proof.
  rewrite !shown_app. unfold cpu_section, table_section.
  destruct cpu, results; try destruct (0 <? min_gpu_memory); simpl;
    now rewrite ?app_nil_r.
Qed.

(** ** Ranking inside a group *)

Lemma pair_ltb_false_ge (a b : Z * Z) : pair_ltb a b = false -> key_ge a b.
Proof.
  destruct a as [a1 a2], b as [b1 b2]. unfold pair_ltb, key_ge. simpl.
  destruct (Z.ltb_spec a1 b1), (Z.eqb_spec a1 b1), (Z.ltb_spec a2 b2);
    simpl; intros; try discriminate; lia.
Qed.

Lemma Permutation_filter (A : Type) (p : A -> bool) (l l' : list A) :
  Permutation l l' -> Permutation (filter p l) (filter p l').
Proof.
  induction 1 as [|x l l' _ IH|x y l|l1 l2 l3 _ IH1 _ IH2]; simpl.
  - constructor.
  - destruct (p x); [now constructor | exact IH].
  - destruct (p x), (p y); try apply Permutation_refl. apply perm_swap.
  - eapply Permutation_trans; eassumption.
Qed.

Lemma filter_all (A : Type) (l : list A) : filter (fun _ => true) l = l.
Proof. induction l as [|x l IH]; simpl; [|rewrite IH]; reflexivity. Qed.

(** The members of the group of key [k], after the sort. *)
Lemma sorted_group_members (partitions : list partition) (k : Z) :
  group_get k (sorted_groups (fst (categorize partitions)))
  = sort_partitions (filter (class_is k) (map annotate partitions)).
Proof.
  rewrite sorted_groups_get. unfold categorize.
  now rewrite categorize_groups.
Qed.

Lemma sorted_cpu_members (partitions : list partition) :
  sort_partitions (snd (categorize partitions))
  = sort_partitions (filter is_cpu (map annotate partitions)).
Proof. unfold categorize. now rewrite categorize_cpu. Qed.


(** ** Which partitions are shown *)

Lemma categorize_keys (k : Z) (partitions : list partition)
      (acc : groups * list ranked) :
  In k (map fst (fst (fold_left categorize_one partitions acc)))
  <-> In k (map fst (fst acc))
      \/ exists x, In x (map annotate partitions) /\ gpu_class x = Some k.
Proof.
  revert acc; induction partitions as [|p ps IH]; intros acc;
    cbn [fold_left map].
  - split; [now left | intros [H | [x [[] _]]]; exact H].
  - rewrite IH. unfold categorize_one.
    destruct (gpu_class (annotate p)) as [m|] eqn:E; cbn [fst snd].
    + rewrite group_append_keys. split.
      * intros [[-> | H] | [x [Hx Hk]]].
        -- right. exists (annotate p). split; [now left | exact E].
        -- now left.
        -- right. exists x. split; [now right | exact Hk].
      * intros [H | [x [[<- | Hx] Hk]]].
        -- left. now right.
        -- left. left. congruence.
        -- right. now exists x.
    + split.
      * intros [H | [x [Hx Hk]]]; [now left|].
        right. exists x. split; [now right | exact Hk].
      * intros [H | [x [[<- | Hx] Hk]]]; [now left | congruence |].
        right. now exists x.
Qed.

Lemma class_is_iff (k : Z) (x : ranked) :
  class_is k x = true <-> gpu_class x = Some k.
Proof.
  unfold class_is. destruct (gpu_class x) as [m|].
  - rewrite Z.eqb_eq. split; congruence.
  - split; discriminate.
Qed.

(** The partitions a page shows: every card's partitions, then the
    compute-only ones. *)
Lemma render_shown (min_gpu_memory : Z) (partitions : list partition) :
  let g := sorted_groups (fst (categorize partitions)) in
  shown (render min_gpu_memory partitions)
  = flat_map (fun k => filter (passes min_gpu_memory k) (group_get k g))
             (sorted_keys g)
    ++ sort_partitions (snd (categorize partitions)).
Proof.
  cbv zeta. rewrite render_unfold.
  change (Banner :: ?l) with ([Banner] ++ l).
  rewrite !shown_app.
  destruct (gpu_section_cards min_gpu_memory
              (sorted_groups (fst (categorize partitions))))
    as [_ [Hshown _]].
  rewrite Hshown, gpu_cards_fst, cards_partitions.
  rewrite <- !shown_app, shown_rest. reflexivity.
Qed.

(** A partition is shown when it is compute-only, or when the memory of
    its class times [total_nodes - allocated_nodes] reaches the
    threshold. *)
Lemma shown_iff (min_gpu_memory : Z) (partitions : list partition)
      (x : ranked) :
  In x (shown (render min_gpu_memory partitions))
  <-> In x (map annotate partitions)
      /\ (is_cpu x = true
          \/ exists k, gpu_class x = Some k
                       /\ passes min_gpu_memory k x = true).
Proof.
  rewrite render_shown. cbv zeta. rewrite in_app_iff, in_flat_map.
  rewrite sorted_cpu_members.
  split.
  - intros [[k [Hk Hx]] | Hx].
    + apply filter_In in Hx. destruct Hx as [Hx Hpass].
      rewrite sorted_group_members in Hx.
      apply (Permutation_in _ (sort_reverse_perm _ _ _)) in Hx.
      apply filter_In in Hx. destruct Hx as [Hx Hclass].
      split; [exact Hx|]. right. exists k. split; [|exact Hpass].
      now apply class_is_iff.
    + apply (Permutation_in _ (sort_reverse_perm _ _ _)) in Hx.
      apply filter_In in Hx. destruct Hx as [Hx Hcpu]. now split; [|left].
  - intros [Hx [Hcpu | [k [Hk Hpass]]]].
    + right.
      apply (Permutation_in _ (Permutation_sym (sort_reverse_perm _ _ _))).
      apply filter_In. now split.
    + left. exists k. split.
      * rewrite sorted_keys_sorted_groups. unfold sorted_keys.
        apply (Permutation_in _ (Permutation_sym (sort_reverse_perm _ _ _))).
        unfold categorize. apply categorize_keys. right. now exists x.
      * apply filter_In. split; [|exact Hpass].
        rewrite sorted_group_members.
        apply (Permutation_in _ (Permutation_sym (sort_reverse_perm _ _ _))).
        apply filter_In. split; [exact Hx | now apply class_is_iff].
Qed.

Lemma passes_monotone (m1 m2 k : Z) (x : ranked) :
  0 <= m1 -> m1 <= m2 ->
  passes m2 k x = true -> passes m1 k x = true.
Proof.
  unfold passes. intros H0 H12.
  rewrite !orb_true_iff, !Z.eqb_eq, !Z.leb_le. lia.
Qed.

Lemma flat_filter_length_le (K : Type) (p q : K -> ranked -> bool)
      (f : K -> list ranked) (keys : list K) :
  (forall k x, p k x = true -> q k x = true) ->
  (List.length (flat_map (fun k => filter (p k) (f k)) keys)
   <= List.length (flat_map (fun k => filter (q k) (f k)) keys))%nat.
Proof.
  intros Hpq. induction keys as [|k keys IH]; simpl; [lia|].
  rewrite !length_app.
  assert (H := filter_length_le (p k) (q k) (f k) (fun x _ => Hpq k x)).
  lia.
Qed.

(** C8: for thresholds [0 <= m1 <= m2] and the same aggregated
    partitions, every partition shown under [m2] is shown under [m1], and
    the page for [m2] shows no more partitions than the page for [m1]. *)
Theorem filtering_monotonic (partitions : list partition) (m1 m2 : Z) :
  0 <= m1 -> m1 <= m2 ->
  (forall x, In x (shown (render m2 partitions)) ->
             In x (shown (render m1 partitions)))
  /\ (List.length (shown (render m2 partitions))
      <= List.length (shown (render m1 partitions)))%nat.
Proof.
  intros H0 H12. split.
  - intros x. rewrite !shown_iff.
    intros [Hx [Hcpu | [k [Hk Hpass]]]]; (split; [exact Hx|]).
    + now left.
    + right. exists k. split; [exact Hk|].
      eapply passes_monotone; eassumption.
  - rewrite !render_shown. cbv zeta. rewrite !length_app.
    apply Nat.add_le_mono_r.
    apply (flat_filter_length_le Z (passes m2) (passes m1)).
    intros k x. now apply passes_monotone.
Qed.

(** ** Witnesses on a small cluster *)

Lemma filtering_monotonic_witness :
  0 <= 24 /\ 24 <= 48
  /\ (forall x, In x (shown (render 48 small_cluster)) ->
                In x (shown (render 24 small_cluster)))
  /\ (List.length (shown (render 48 small_cluster))
      <= List.length (shown (render 24 small_cluster)))%nat.
Proof.
  assert (H0 : 0 <= 24) by lia.
  assert (H1 : 24 <= 48) by lia.
  split; [exact H0 | split; [exact H1|]].
  exact (filtering_monotonic small_cluster 24 48 H0 H1).
Defined.

Example small_cluster_page :
  map (fun b => match b with
                | GpuCard c =>
                    (card_gpu_mem c, map (fun x => name (part x)) (card_partitions c))
                | CpuSection l => (0, map (fun x => name (part x)) l)
                | _ => (-1, [])
                end) (render 48 small_cluster)
  = [(-1, []); (-1, []); (141, ["h200"]); (24, ["a5500"; "a5000-c"]);
     (-1, []); (0, ["cpu2"; "cpu1"]); (-1, []); (-1, [])].
Proof. reflexivity. Qed.

(** ** The filter and the nodes in state "other" *)

(** What the filter compares with the threshold instead. *)
Lemma passes_spec (min_gpu_memory gpu_mem : Z) (x : ranked) :
  passes min_gpu_memory gpu_mem x = true
  <-> min_gpu_memory = 0
      \/ min_gpu_memory
         <= gpu_mem * (total_nodes (part x) - allocated_nodes (part x)).
Proof. unfold passes. now rewrite orb_true_iff, Z.eqb_eq, Z.leb_le. Qed.

(** C1 at a failing input: one A5000 partition with two nodes, one idle
    and one in state "other", and the threshold 48.  Its available nodes
    are [max(0, 2 - 0 - 1) = 1] and its total available capacity is
    [24 * 1 = 24 < 48], yet the card loop recomputes the product from
    [total_nodes - allocated_nodes = 2], finds [48 >= 48] and shows the
    partition. *)
Example filter_counts_other_nodes :
  let stdout := String.concat (String "010" "")
                  ["PARTITION NODES(A/I/O/T) CPUS(A/I/O/T) NODES TIMELIMIT STATE NODELIST";
                   "a5000 0/1/1/2 0/8/8/16 2 1:00:00 mixed n[1-2]"] in
  exists (p : partition) (blocks : list block),
    get_detailed_partition_info (Completed 0 stdout) = Info [p]
    /\ counters_of p = ((0, 1, 1, 2), (0, 8, 8, 16))
    /\ gpu_memory (annotate p) = Some 24
    /\ available_nodes (annotate p) = 1
    /\ total_available_capacity 24 (annotate p) = 24
    /\ total_available_capacity 24 (annotate p) < 48
    /\ get_available_resources 48 (Completed 0 stdout) = Summary blocks
    /\ shown blocks = [annotate p]
    /\ passes 48 24 (annotate p) = true.
Proof.
  cbv zeta. eexists. eexists.
  split; [reflexivity|].
  split; [reflexivity|].
  split; [reflexivity|].
  split; [reflexivity|].
  split; [reflexivity|].
  split; [reflexivity|].
  split; [reflexivity|].
  split; reflexivity.
Qed.

(** ** The division of integers and its overflow *)

Lemma digits2_pos_size (p : positive) : digits2_pos p = Pos.size p.
Proof. induction p as [p IH|p IH|]; simpl; now rewrite ?IH. Qed.

Lemma Zdigits2_nonneg (m : Z) : 0 <= Zdigits2 m.
Proof. destruct m; simpl; lia. Qed.

Lemma Zdigits2_log2 (m : Z) : 0 < m -> Zdigits2 m = Z.log2 m + 1.
Proof.
  destruct m as [|p|p]; try lia. intros _.
  destruct p as [p|p|]; simpl; rewrite ?digits2_pos_size; lia.
Qed.

(** A non-negative integer below [2^k] has at most [k] binary digits. *)
Lemma Zdigits2_le (m k : Z) : 0 <= m -> 0 <= k -> m < 2 ^ k -> Zdigits2 m <= k.
Proof.
  intros Hm Hk Hlt. destruct (Z.eq_dec m 0) as [->|Hne]; [simpl; lia|].
  rewrite Zdigits2_log2 by lia.
  assert (Z.log2 m < k) by (apply Z.log2_lt_pow2; lia). lia.
Qed.

Lemma Zdigits2_succ (m : Z) : 0 <= m -> Zdigits2 (m + 1) <= Zdigits2 m + 1.
Proof.
  intros Hm. destruct (Z.eq_dec m 0) as [->|Hne]; [simpl; lia|].
  rewrite !Zdigits2_log2 by lia.
  assert (H := Z.log2_succ_le m). unfold Z.succ in H. lia.
Qed.

(** One right shift of the rounding record drops one digit. *)
Lemma shr_1_digits (r : shr_record) :
  0 <= shr_m r ->
  0 <= shr_m (shr_1 r)
  /\ Zdigits2 (shr_m (shr_1 r)) = Z.max 0 (Zdigits2 (shr_m r) - 1).
Proof.
  destruct r as [m rb sb]. cbn [shr_m]. intros Hm.
  destruct m as [|[p|p|]|p]; cbn [shr_1 shr_m Zdigits2 digits2_pos];
    rewrite ?Pos2Z.inj_succ; lia.
Qed.

Lemma iter_shr_digits (p : positive) (r : shr_record) :
  0 <= shr_m r ->
  0 <= shr_m (iter_pos shr_1 p r)
  /\ Zdigits2 (shr_m (iter_pos shr_1 p r))
     = Z.max 0 (Zdigits2 (shr_m r) - Zpos p).
Proof.
  revert r; induction p as [p IH|p IH|]; intros r Hr; simpl.
  - destruct (shr_1_digits r Hr) as [H1 D1].
    destruct (IH _ H1) as [H2 D2]. destruct (IH _ H2) as [H3 D3].
    split; [exact H3|]. rewrite D3, D2, D1. lia.
  - destruct (IH _ Hr) as [H2 D2]. destruct (IH _ H2) as [H3 D3].
    split; [exact H3|]. rewrite D3, D2. lia.
  - apply shr_1_digits, Hr.
Qed.

Lemma shr_record_of_loc_m (m : Z) (l : location) :
  shr_m (shr_record_of_loc m l) = m.
Proof. destruct l as [|[]]; reflexivity. Qed.

(** What [shr_fexp] does to the exponent and to the number of digits. *)
Lemma shr_fexp_bounds (m e : Z) (l : location) :
  0 <= m ->
  0 <= shr_m (fst (shr_fexp 53 1024 m e l))
  /\ snd (shr_fexp 53 1024 m e l)
     = Z.max e (fexp 53 1024 (Zdigits2 m + e))
  /\ Zdigits2 (shr_m (fst (shr_fexp 53 1024 m e l)))
     = Z.max 0 (Zdigits2 m + e - snd (shr_fexp 53 1024 m e l)).
Proof.
  intros Hm. unfold shr_fexp, shr.
  assert (Hd := Zdigits2_nonneg m).
  destruct (fexp 53 1024 (Zdigits2 m + e) - e) as [|n|n] eqn:En; simpl.
  - rewrite shr_record_of_loc_m. lia.
  - assert (Hr : 0 <= shr_m (shr_record_of_loc m l))
      by (rewrite shr_record_of_loc_m; exact Hm).
    destruct (iter_shr_digits n _ Hr) as [H1 D1].
    rewrite shr_record_of_loc_m in D1.
    split; [exact H1 | split; [lia|]]. rewrite D1. lia.
  - rewrite shr_record_of_loc_m. lia.
Qed.

Lemma round_nearest_even_cases (m : Z) (l : location) :
  round_nearest_even m l = m \/ round_nearest_even m l = m + 1.
Proof.
  unfold round_nearest_even.
  destruct l as [|[]]; try destruct (Z.even m); auto.
Qed.

(** Rounding a non-negative value below [2^1023] does not overflow. *)
Lemma binary_round_aux_finite (sx : bool) (mx ex : Z) (lx : location) :
  0 <= mx -> ex <= 970 -> Zdigits2 mx + ex <= 1023 ->
  is_finite (binary_round_aux 53 1024 sx mx ex lx) = true.
Proof.
  intros Hm He Hd. unfold binary_round_aux.
  destruct (shr_fexp_bounds mx ex lx Hm) as [H1 [E1 D1]].
  destruct (shr_fexp 53 1024 mx ex lx) as [r1 e1]. cbn [fst snd] in *.
  set (m1 := round_nearest_even (shr_m r1) (loc_of_shr_record r1)).
  assert (Hm1 : 0 <= m1 /\ Zdigits2 m1 <= Zdigits2 (shr_m r1) + 1).
  { subst m1.
    destruct (round_nearest_even_cases (shr_m r1) (loc_of_shr_record r1))
      as [-> | ->]; [lia|].
    split; [lia | now apply Zdigits2_succ]. }
  destruct Hm1 as [Hm1 Dm1].
  destruct (shr_fexp_bounds m1 e1 loc_Exact Hm1) as [H2 [E2 _]].
  destruct (shr_fexp 53 1024 m1 e1 loc_Exact) as [r2 e2]. cbn [fst snd] in *.
  destruct (shr_m r2) as [|p|p]; [reflexivity | | lia].
  assert (He2 : e2 <= 1024 - 53).
  { unfold fexp, emin in E1, E2. lia. }
  apply Z.leb_le in He2. now rewrite He2.
Qed.

(** The quotient of two positive integers, below [2^1023], is a finite
    float. *)
Lemma SFdiv_int_finite (a b : positive) :
  Zpos a < 2 ^ 1023 * Zpos b ->
  is_finite (SFdiv 53 1024 (S754_finite false a 0) (S754_finite false b 0))
  = true.
Proof.
  intros Hab. unfold SFdiv, SFdiv_core_binary.
  set (e' := Z.min (fexp 53 1024 (Zdigits2 (Zpos a) + 0 - (Zdigits2 (Zpos b) + 0)))
                   (0 - 0)).
  set (s := 0 - 0 - e').
  assert (Hs : 0 <= s) by (subst s e'; lia).
  set (m' := match s with
             | 0 => Zpos a
             | Zpos _ => Z.shiftl (Zpos a) s
             | Zneg _ => 0
             end).
  assert (Hm' : m' = Zpos a * 2 ^ s).
  { subst m'. destruct s as [|n|n] eqn:Es; [simpl; lia | | lia].
    now rewrite Z.shiftl_mul_pow2 by lia. }
  assert (Hq : fst (Z.div_eucl m' (Zpos b)) = m' / Zpos b) by reflexivity.
  destruct (Z.div_eucl m' (Zpos b)) as [q r]. cbn [fst] in Hq.
  assert (Hpow : 0 < 2 ^ s) by (apply Z.pow_pos_nonneg; lia).
  assert (Hq0 : 0 <= q)
    by (rewrite Hq; apply Z.div_pos; [rewrite Hm'|]; lia).
  assert (Hqlt : q < 2 ^ (1023 + s)).
  { rewrite Hq. apply Z.div_lt_upper_bound; [lia|].
    rewrite Hm', Z.pow_add_r by lia. nia. }
  apply binary_round_aux_finite; [exact Hq0 | subst e'; lia |].
  assert (Zdigits2 q <= 1023 + s) by (apply Zdigits2_le; lia).
  subst s. lia.
Qed.

(** Non-negative operands with a quotient below [2^1023] divide without
    an exception. *)
Lemma true_divide_defined (a b : Z) :
  0 <= a -> 0 < b -> a < 2 ^ 1023 * b ->
  exists q : spec_float,
    true_divide a b = inr q
    /\ q = SFdiv 53 1024 (int_operand a) (int_operand b)
    /\ is_finite q = true.
Proof.
  intros Ha Hb Hab. unfold true_divide.
  destruct (Z.eqb_spec b 0) as [->|_]; [lia|].
  destruct b as [|pb|pb]; try lia.
  destruct a as [|pa|pa]; try lia.
  - exists (S754_zero false). now repeat split.
  - assert (Hfin := SFdiv_int_finite pa pb Hab). cbn [int_operand].
    destruct (SFdiv 53 1024 (S754_finite false pa 0) (S754_finite false pb 0))
      as [sz|sz| |sz mz ez] eqn:E; try discriminate Hfin;
      eexists; repeat split.
Qed.

(** ** The progress bar *)

Lemma int_str_bound_eq : int_str_bound = 10 ^ 4300.
Proof. reflexivity. Qed.

Lemma format_int_none (z : Z) : format_int z = None <-> printable z.
Proof.
  unfold format_int, printable. rewrite <- int_str_bound_eq.
  destruct (Z.ltb_spec (Z.abs z) int_str_bound) as [Hlt|Hge]; split;
    intros H0; try reflexivity; try discriminate; try assumption.
  exfalso. revert Hge H0. generalize int_str_bound. intros b. lia.
Qed.

(** Sums and differences of bounded integers stay printable. *)
Lemma printable_le (z b : Z) :
  Z.abs z <= Z.abs b -> printable b -> printable z.
Proof.
  unfold printable. generalize (10 ^ 4300). intros L. lia.
Qed.

Lemma format_int_cases (z : Z) :
  format_int z = None \/ format_int z = Some ValueErrorDigits.
Proof. unfold format_int. destruct (_ <? _); [now left | now right]. Qed.

Lemma first_raise_none (statements : list (option exn)) :
  first_raise statements = None
  <-> forall s, In s statements -> s = None.
Proof.
  induction statements as [|[e|] l IH]; simpl.
  - split; [intros _ s [] | reflexivity].
  - split; [discriminate|]. intros H. now apply (H (Some e)); left.
  - rewrite IH. split.
    + intros H s [<- | Hs]; [reflexivity | now apply H].
    + intros H s Hs. apply H. now right.
Qed.

Lemma first_raise_some (statements : list (option exn)) (e : exn) :
  first_raise statements = Some e -> In (Some e) statements.
Proof.
  induction statements as [|[e'|] l IH]; simpl; [discriminate| |].
  - intros [= ->]. now left.
  - intros H. right. now apply IH.
Qed.

(** The interpolations of a bar raise nothing on printable integers. *)
Lemma bar_formats (used total : Z) :
  printable used -> printable total -> printable (total - used) ->
  first_raise [format_int used; format_int total; format_int (total - used)]
  = None.
Proof.
  intros Hu Ht Ha. apply first_raise_none.
  intros s [<- | [<- | [<- | []]]]; now apply format_int_none.
Qed.

(** C10, as amended: for non-negative [used] and [total] of at most 4300
    digits, when [total = 0] the builder takes the percentage [0] without
    dividing and returns; otherwise, when the quotient is below [2^1023]
    (as it is whenever [used <= total]), the division raises nothing and
    the builder returns with the percentage [(used / total) * 100] computed
    on floats. *)
Theorem create_progress_bar_defined (used total : Z) :
  0 <= used -> 0 <= total -> printable used -> printable total ->
  (total = 0 ->
   exists bar : progress_bar,
     create_progress_bar used total = inr bar
     /\ pb_percentage bar = PyInt 0)
  /\ (total <> 0 -> used < 2 ^ 1023 * total ->
      exists (q : spec_float) (bar : progress_bar),
        true_divide used total = inr q
        /\ q = SFdiv 53 1024 (int_operand used) (int_operand total)
        /\ create_progress_bar used total = inr bar
        /\ pb_percentage bar = PyFloat (SFmul 53 1024 q (float_of_int 100))
        /\ pb_used bar = used /\ pb_total bar = total
        /\ pb_available bar = total - used).
Proof.
  intros Hu Ht Hpu Hpt.
  assert (Hpa : printable (total - used)).
  { destruct (Z.le_ge_cases used total);
      [apply (printable_le _ total) | apply (printable_le _ used)];
      trivial; lia. }
  assert (Hfmt := bar_formats used total Hpu Hpt Hpa).
  split.
  - intros H0. unfold create_progress_bar.
    destruct (Z.eqb_spec total 0) as [_|]; [|contradiction].
    cbn [number_geb Z.leb Z.compare]. rewrite Hfmt.
    eexists. split; reflexivity.
  - intros Hne Hlt.
    destruct (true_divide_defined used total Hu ltac:(lia) Hlt)
      as [q [Hq [Hdef _]]].
    unfold create_progress_bar.
    destruct (Z.eqb_spec total 0) as [|_]; [contradiction|].
    rewrite Hq, Hfmt.
    set (pct := PyFloat (SFmul 53 1024 q (float_of_int 100))).
    exists q.
    destruct (number_geb pct 90); [|destruct (number_geb pct 70);
                                     [|destruct (number_geb pct 40)]];
      eexists; repeat split; exact Hdef.
Qed.

Lemma create_progress_bar_defined_witness :
  0 <= 3 /\ 0 <= 4
  /\ exists (q : spec_float) (bar : progress_bar),
       true_divide 3 4 = inr q
       /\ create_progress_bar 3 4 = inr bar
       /\ pb_percentage bar = PyFloat (SFmul 53 1024 q (float_of_int 100)).
Proof.
  assert (H3 : 0 <= 3) by lia.
  assert (H4 : 0 <= 4) by lia.
  assert (P3 : printable 3) by (vm_compute; reflexivity).
  assert (P4 : printable 4) by (vm_compute; reflexivity).
  split; [exact H3 | split; [exact H4|]].
  destruct (proj2 (create_progress_bar_defined 3 4 H3 H4 P3 P4))
    as [q [bar [Hq [_ [Hbar [Hpct _]]]]]];
    [lia | vm_compute; reflexivity |].
  exists q, bar. repeat split; assumption.
Defined.

(** C10 as it is worded fails: the division of integers raises
    [OverflowError] when the quotient is beyond the floats, as for
    [used = 2^1024] and [total = 1]. *)
Lemma progress_bar_overflows :
  ~ (forall used total : Z,
       0 <= used -> 0 <= total ->
       exists bar : progress_bar, create_progress_bar used total = inr bar).
Proof.
  intros H.
  destruct (H (2 ^ 1024) 1) as [bar Hbar];
    [vm_compute; discriminate | lia |].
  vm_compute in Hbar. discriminate.
Qed.

Example progress_bar_overflow_value :
  create_progress_bar (2 ^ 1024) 1 = inl OverflowError.
Proof. vm_compute. reflexivity. Qed.

(** Beyond 4300 digits the markup cannot be built, whatever the
    percentage: the interpolation of [used] raises. *)
Example progress_bar_digit_limit :
  create_progress_bar (10 ^ 4300) (10 ^ 4300) = inl ValueErrorDigits
  /\ create_progress_bar (10 ^ 4300) 0 = inl ValueErrorDigits.
Proof. split; vm_compute; reflexivity. Qed.

Example progress_bar_values :
  option_map (fun bar => (pb_percentage bar, pb_bar_color bar, pb_available bar))
    (match create_progress_bar 0 0 with inr bar => Some bar | inl _ => None end)
  = Some (PyInt 0, "#66BB6A", 0)
  /\ option_map (fun bar => (pb_percentage bar, pb_bar_color bar, pb_available bar))
       (match create_progress_bar 7 10 with inr bar => Some bar | inl _ => None end)
     = Some (PyFloat (float_of_int 70), "#FFA726", 3)
  /\ option_map (fun bar => (pb_percentage bar, pb_bar_color bar, pb_available bar))
       (match create_progress_bar 1 4 with inr bar => Some bar | inl _ => None end)
     = Some (PyFloat (float_of_int 25), "#66BB6A", 3)
  /\ option_map (fun bar => (pb_percentage bar, pb_bar_color bar, pb_available bar))
       (match create_progress_bar 9 10 with inr bar => Some bar | inl _ => None end)
     = Some (PyFloat (float_of_int 90), "#EF5350", 1).
Proof. vm_compute. repeat split. Qed.

(** * Further properties of the pipeline *)

(** ** The parser, case by case *)

Lemma first_bad_none (l : list string) :
  first_bad l = None <-> forall s, In s l -> PyStr.int s <> None.
Proof.
  unfold first_bad. induction l as [|x l IH]; simpl.
  - split; [intros _ s [] | reflexivity].
  - destruct (PyStr.int x) eqn:E.
    + rewrite IH. split.
      * intros H s [<- | Hs]; [congruence | now apply H].
      * intros H s Hs. apply H. now right.
    + split; [discriminate|]. intros H. exfalso.
      now apply (H x (or_introl eq_refl)).
Qed.

(** What [parse_ratio] returns, from the parts of the field. *)
Lemma parse_ratio_cases (field : string) :
  match parse_ratio field with
  | Skip => part_count field <> 4%nat
  | Throw e =>
      part_count field = 4%nat
      /\ exists literal, e = ValueError literal
                         /\ first_bad (PyStr.split_on "/" field) = Some literal
  | Done (a, b, c, d) =>
      four_integers field a b c d
      /\ first_bad (PyStr.split_on "/" field) = None
  end.
Proof.
  unfold parse_ratio, part_count, four_integers, first_bad.
  destruct (PyStr.split_on "/" field) as [|s0 [|s1 [|s2 [|s3 [|s4 l]]]]];
    simpl; try discriminate.
  unfold to_int.
  destruct (PyStr.int s0) eqn:E0; simpl;
    [|split; [reflexivity | now exists s0]].
  destruct (PyStr.int s1) eqn:E1; simpl;
    [|split; [reflexivity | now exists s1]].
  destruct (PyStr.int s2) eqn:E2; simpl;
    [|split; [reflexivity | now exists s2]].
  destruct (PyStr.int s3) eqn:E3; simpl;
    [|split; [reflexivity | now exists s3]].
  now split.
Qed.

(** A line that yields a row has seven fields, two ratios of four
    integers and an integer node count, and the row holds them. *)
Lemma parse_line_done_inv (line : string) (r : row) :
  parse_line line = Done r ->
  (7 <= field_count line)%nat
  /\ exists a i o t ca ci co ct n : Z,
       four_integers (node_field line) a i o t
       /\ four_integers (cpu_field line) ca ci co ct
       /\ PyStr.int (count_field line) = Some n
       /\ r = row_from line a i o t ca ci co ct n.
Proof.
  unfold parse_line, field_count, node_field, cpu_field, count_field.
  destruct (Nat.leb_spec 7 (List.length (PyStr.split_ws line))) as [H7|H7];
    [|discriminate].
  intros H. split; [assumption|].
  assert (Hn := parse_ratio_cases (nth 1 (PyStr.split_ws line) "")).
  destruct (parse_ratio (nth 1 (PyStr.split_ws line) ""))
    as [[[[a i] o] t]| |e]; try discriminate H.
  assert (Hc := parse_ratio_cases (nth 2 (PyStr.split_ws line) "")).
  cbn [bind] in H.
  destruct (parse_ratio (nth 2 (PyStr.split_ws line) ""))
    as [[[[ca ci] co] ct]| |e]; try discriminate H.
  cbn [bind] in H. unfold to_int in H.
  destruct (PyStr.int (nth 3 (PyStr.split_ws line) "")) as [n|] eqn:En;
    try discriminate H.
  cbn [bind] in H. injection H as <-.
  exists a, i, o, t, ca, ci, co, ct, n.
  repeat split; [apply Hn | apply Hc].
Qed.

(** X1: a line makes the parser raise exactly when it has at least seven
    fields and the first integer conversion that fails is one of: a part of
    a four-part node ratio; a part of a four-part CPU ratio after a node
    ratio of four integers; the node-count field after two ratios of four
    integers.  The exception carries that literal.  A line with fewer than
    seven fields never raises. *)
Theorem parse_line_raises_iff (line : string) (e : exn) :
  parse_line line = Throw e
  <-> (7 <= field_count line)%nat
      /\ exists literal : string,
           e = ValueError literal
           /\ let nodes := PyStr.split_on "/" (node_field line) in
              let cpus := PyStr.split_on "/" (cpu_field line) in
              (List.length nodes = 4%nat /\ first_bad nodes = Some literal)
              \/ (List.length nodes = 4%nat /\ first_bad nodes = None
                  /\ List.length cpus = 4%nat /\ first_bad cpus = Some literal)
              \/ (List.length nodes = 4%nat /\ first_bad nodes = None
                  /\ List.length cpus = 4%nat /\ first_bad cpus = None
                  /\ PyStr.int (count_field line) = None
                  /\ literal = count_field line).
Proof.
  cbv zeta.
  unfold parse_line, field_count, node_field, cpu_field, count_field.
  destruct (Nat.leb_spec 7 (List.length (PyStr.split_ws line))) as [H7|H7].
  2:{ split; [discriminate | intros [H _]; lia]. }
  assert (Hn := parse_ratio_cases (nth 1 (PyStr.split_ws line) "")).
  assert (Hc := parse_ratio_cases (nth 2 (PyStr.split_ws line) "")).
  unfold part_count in Hn, Hc.
  destruct (parse_ratio (nth 1 (PyStr.split_ws line) ""))
    as [[[[a i] o] t]| |e1]; cbn [bind].
  - destruct Hn as [Hn Hnb].
    assert (Hn4 : List.length
                    (PyStr.split_on "/" (nth 1 (PyStr.split_ws line) ""))
                  = 4%nat).
    { unfold four_integers in Hn.
      rewrite <- (length_map PyStr.int), Hn. reflexivity. }
    destruct (parse_ratio (nth 2 (PyStr.split_ws line) ""))
      as [[[[ca ci] co] ct]| |e2]; cbn [bind].
    + destruct Hc as [Hc Hcb].
      assert (Hc4 : List.length
                      (PyStr.split_on "/" (nth 2 (PyStr.split_ws line) ""))
                    = 4%nat).
      { unfold four_integers in Hc.
        rewrite <- (length_map PyStr.int), Hc. reflexivity. }
      unfold to_int.
      destruct (PyStr.int (nth 3 (PyStr.split_ws line) "")) as [n|] eqn:En;
        cbn [bind].
      * split; [discriminate|].
        intros [_ [lit [_ [[_ H] | [[_ [_ [_ H]]] | [_ [_ [_ [_ [H _]]]]]]]]]];
          congruence.
      * split.
        -- intros [= <-]. split; [assumption|].
           eexists. split; [reflexivity|]. right. right. now repeat split.
        -- intros [_ [lit [-> [[_ H] | [[_ [_ [_ H]]] | [_ [_ [_ [_ [_ ->]]]]]]]]]];
             [congruence | congruence | reflexivity].
    + split; [discriminate|].
      intros [_ [lit [_ [[_ H] | [[_ [_ [H _]]] | [_ [_ [H _]]]]]]]];
        [congruence | contradiction | contradiction].
    + destruct Hc as [Hc4 [lit [-> Hcb]]]. split.
      * intros [= <-]. split; [assumption|].
        exists lit. split; [reflexivity|]. right. left. now repeat split.
      * intros [_ [lit' [-> [[_ H] | [[_ [_ [_ H]]] | [_ [_ [_ [H _]]]]]]]]];
          congruence.
  - split; [discriminate|].
    intros [_ [lit [_ [[H _] | [[H _] | [H _]]]]]]; contradiction.
  - destruct Hn as [Hn4 [lit [-> Hnb]]]. split.
    + intros [= <-]. split; [assumption|].
      exists lit. split; [reflexivity|]. now left.
    + intros [_ [lit' [-> [[_ H] | [[_ [H _]] | [_ [H _]]]]]]]; congruence.
Qed.

(** ** The first row that raises decides *)

(** X2: the row loop fails exactly when some line raises while no line
    before it does, and it fails with the exception of that line: rows after
    the first raising one are never looked at, and the rows accumulated
    before it are lost. *)
Theorem aggregate_fails_at_first_raise
    (d : dict) (lines : list string) (e : exn) :
  aggregate_lines d lines = inl e
  <-> exists (before : list string) (line : string) (after : list string),
        lines = before ++ line :: after
        /\ no_line_raises before
        /\ parse_line line = Throw e.
Proof.
  revert d. induction lines as [|l lines IH]; intros d.
  - split; [discriminate|].
    intros [before [line [after [H _]]]]. now destruct before.
  - cbn [aggregate_lines].
    destruct (parse_line l) as [r| |e'] eqn:Hp.
    + rewrite IH. split.
      * intros [before [line [after [-> [Hno Hl]]]]].
        exists (l :: before), line, after. split; [reflexivity|].
        split; [|exact Hl].
        intros x ex [<- | Hin]; [congruence | now apply Hno].
      * intros [[|b before] [line [after [Heq [Hno Hl]]]]].
        -- injection Heq as -> _. congruence.
        -- injection Heq as -> ->. exists before, line, after.
           split; [reflexivity|]. split; [|exact Hl].
           intros x ex Hin. apply Hno. now right.
    + rewrite IH. split.
      * intros [before [line [after [-> [Hno Hl]]]]].
        exists (l :: before), line, after. split; [reflexivity|].
        split; [|exact Hl].
        intros x ex [<- | Hin]; [congruence | now apply Hno].
      * intros [[|b before] [line [after [Heq [Hno Hl]]]]].
        -- injection Heq as -> _. congruence.
        -- injection Heq as -> ->. exists before, line, after.
           split; [reflexivity|]. split; [|exact Hl].
           intros x ex Hin. apply Hno. now right.
    + split.
      * intros [= <-]. exists [], l, lines. split; [reflexivity|].
        split; [intros x ex [] | exact Hp].
      * intros [[|b before] [line [after [Heq [Hno Hl]]]]].
        -- injection Heq as -> _. congruence.
        -- injection Heq as -> _. exfalso.
           apply (Hno b e'); [now left | exact Hp].
Qed.

(** ** What a successful call returns *)

(** A successful call had at least one row line, none of which raised, and
    returns the values of the dict built from the rows, in order. *)
Lemma info_of_lines_success (header : string) (rows : list string)
      (partitions : list partition) :
  info_of_lines (header :: rows) = Info partitions ->
  rows <> [] /\ no_line_raises rows
  /\ partitions = dict_values (fold_left add_row (rows_of rows) []).
Proof.
  unfold info_of_lines. destruct rows as [|r0 rows]; [discriminate|].
  cbn [List.length Nat.ltb Nat.leb tl].
  destruct (aggregate_lines [] (r0 :: rows)) as [e|d] eqn:E; [discriminate|].
  intros [= <-].
  assert (Hno : no_line_raises (r0 :: rows))
    by (apply (aggregate_lines_raises _ []); now exists d).
  split; [discriminate | split; [exact Hno|]].
  rewrite (aggregate_lines_rows _ Hno) in E. now injection E as <-.
Qed.

Lemma dict_update_keys (k : string) (f : partition -> partition) (d : dict) :
  map fst (dict_update k f d) = map fst d.
Proof.
  induction d as [|[k' v] d IH]; simpl; [reflexivity|].
  destruct (String.eqb k k'); simpl; [reflexivity | now rewrite IH].
Qed.

Lemma dict_mem_keys (k : string) (d : dict) :
  dict_mem k d = existsb (String.eqb k) (map fst d).
Proof.
  induction d as [|[k' v] d IH]; simpl; [reflexivity | now rewrite IH].
Qed.

Lemma add_row_keys (d : dict) (r : row) :
  map fst (add_row d r)
  = if existsb (String.eqb (row_partition_name r)) (map fst d)
    then map fst d
    else map fst d ++ [row_partition_name r].
Proof.
  unfold add_row. rewrite dict_update_keys, dict_mem_keys.
  destruct (existsb _ (map fst d)); [reflexivity|].
  now rewrite map_app.
Qed.

(** The keys after a run of rows: the old keys, then the new names in
    order of first appearance. *)
Lemma fold_add_row_keys (rows : list row) (d : dict) :
  map fst (fold_left add_row rows d)
  = map fst d
    ++ filter (fun n => negb (existsb (String.eqb n) (map fst d)))
              (first_seen (map row_partition_name rows)).
Proof.
  revert d; induction rows as [|r rows IH]; intros d.
  - simpl. now rewrite app_nil_r.
  - cbn [fold_left map first_seen filter]. rewrite IH, add_row_keys.
    set (k := row_partition_name r).
    destruct (existsb (String.eqb k) (map fst d)) eqn:Hk; cbn [negb].
    + f_equal. rewrite filter_and. apply filter_ext_in. intros n _.
      destruct (String.eqb_spec n k) as [->|Hne]; cbn [negb andb].
      * now rewrite Hk.
      * reflexivity.
    + rewrite <- app_assoc. cbn [app]. f_equal. f_equal.
      rewrite filter_and. apply filter_ext. intros n.
      rewrite existsb_app. cbn [existsb].
      rewrite orb_false_r, negb_orb, andb_comm. reflexivity.
Qed.

Lemma first_seen_in (names : list string) (n : string) :
  In n (first_seen names) <-> In n names.
Proof.
  induction names as [|m names IH]; simpl; [tauto|].
  rewrite filter_In, IH. split.
  - intros [-> | [H _]]; auto.
  - intros [-> | H]; [now left|].
    destruct (String.eqb_spec n m) as [->|Hne]; [now left|].
    right. split; [exact H | reflexivity].
Qed.

Lemma NoDup_filter (A : Type) (p : A -> bool) (l : list A) :
  NoDup l -> NoDup (filter p l).
Proof.
  induction 1 as [|x l Hx Hl IH]; simpl; [constructor|].
  destruct (p x); [|exact IH].
  constructor; [|exact IH]. intros Hin. apply filter_In in Hin. tauto.
Qed.

Lemma first_seen_nodup (names : list string) : NoDup (first_seen names).
Proof.
  induction names as [|m names IH]; simpl; constructor.
  - intros Hin. apply filter_In in Hin. destruct Hin as [_ H].
    now rewrite String.eqb_refl in H.
  - now apply NoDup_filter.
Qed.

Lemma well_keyed_names (d : dict) :
  well_keyed d -> map name (dict_values d) = map fst d.
Proof.
  unfold well_keyed, dict_values. induction 1 as [|[k v] d Hv Hd IH]; simpl.
  - reflexivity.
  - simpl in Hv. now rewrite Hv, IH.
Qed.

Lemma aggregate_names (rows : list row) :
  map name (dict_values (fold_left add_row rows []))
  = first_seen (map row_partition_name rows).
Proof.
  rewrite well_keyed_names by (apply well_keyed_fold; constructor).
  rewrite fold_add_row_keys. cbn [map app existsb negb].
  apply filter_all.
Qed.

(** X3: a successful call lists the partitions in the order in which
    their names first appear among the parsed rows, each name exactly once;
    a name is listed exactly when some parsed row carries it. *)
Theorem partitions_in_first_seen_order
    (header : string) (rows : list string) (partitions : list partition) :
  info_of_lines (header :: rows) = Info partitions ->
  map name partitions = first_seen (map row_partition_name (rows_of rows))
  /\ NoDup (map name partitions)
  /\ (forall nm : string,
        In nm (map name partitions)
        <-> exists r, In r (rows_of rows) /\ row_partition_name r = nm)
  /\ (List.length partitions <= List.length (rows_of rows))%nat.
Proof.
  intros H. apply info_of_lines_success in H. destruct H as [_ [_ ->]].
  assert (Hnames := aggregate_names (rows_of rows)).
  split; [exact Hnames|].
  split; [rewrite Hnames; apply first_seen_nodup|].
  split.
  - intros nm. rewrite Hnames, first_seen_in, in_map_iff.
    split; intros [r [H1 H2]]; exists r; tauto.
  - rewrite <- (length_map name), Hnames.
    rewrite <- (length_map row_partition_name (rows_of rows)).
    generalize (map row_partition_name (rows_of rows)). intros l.
    induction l as [|n l IH]; simpl; [lia|].
    assert (Hf := filter_length_le
                    (fun m => negb (String.eqb m n)) (fun _ => true)
                    (first_seen l) (fun _ _ _ => eq_refl)).
    rewrite filter_all in Hf. lia.
Qed.

Lemma partitions_in_first_seen_order_witness :
  let rows := ["gpu* 1/1/0/2 8/8/0/16 2 1:00 mixed n[1-2]";
               "cpu 0/1/0/1 0/4/0/4 1 2:00 idle c1";
               "gpu 0/1/0/1 0/8/0/8 1 3:00 idle n3"] in
  exists partitions,
    info_of_lines ("HDR" :: rows) = Info partitions
    /\ map name partitions = ["gpu"; "cpu"]
    /\ NoDup (map name partitions).
Proof.
  cbv zeta.
  set (rows := ["gpu* 1/1/0/2 8/8/0/16 2 1:00 mixed n[1-2]";
                "cpu 0/1/0/1 0/4/0/4 1 2:00 idle c1";
                "gpu 0/1/0/1 0/8/0/8 1 3:00 idle n3"]).
  assert (H : info_of_lines ("HDR" :: rows)
              = Info (dict_values (fold_left add_row (rows_of rows) [])))
    by reflexivity.
  destruct (partitions_in_first_seen_order _ _ _ H) as [H1 [H2 _]].
  eexists. split; [exact H|]. split; [reflexivity | exact H2].
Defined.

(** ** The record of one partition *)

Lemma rows_named_cons (nm : string) (r : row) (rows : list row) :
  rows_named nm (r :: rows)
  = if String.eqb nm (row_partition_name r)
    then r :: rows_named nm rows else rows_named nm rows.
Proof. reflexivity. Qed.

(** The record stored under a name after a run of rows. *)
Lemma dict_get_fold (nm : string) (rows : list row) (d : dict) :
  dict_get nm (fold_left add_row rows d)
  = match dict_get nm d with
    | Some p => Some (accumulate_all (rows_named nm rows) p)
    | None =>
        match rows_named nm rows with
        | [] => None
        | r0 :: rest =>
            Some (accumulate_all (r0 :: rest) (fresh_partition r0))
        end
    end.
Proof.
  revert d; induction rows as [|r rows IH]; intros d.
  - simpl. now destruct (dict_get nm d).
  - cbn [fold_left]. rewrite IH, dict_get_add_row, rows_named_cons.
    unfold slot.
    destruct (String.eqb nm (row_partition_name r)) eqn:E.
    + apply String.eqb_eq in E. subst nm.
      now destruct (dict_get (row_partition_name r) d).
    + reflexivity.
Qed.

Lemma accumulate_all_fields (rows : list row) (p : partition) :
  name (accumulate_all rows p) = name p
  /\ timelimit (accumulate_all rows p) = timelimit p
  /\ states (accumulate_all rows p) = states p ++ map row_state rows
  /\ nodelists (accumulate_all rows p)
     = nodelists p ++ map row_nodelist rows.
Proof.
  unfold accumulate_all. revert p.
  induction rows as [|r rows IH]; intros p; cbn [fold_left map].
  - now rewrite !app_nil_r.
  - destruct (IH (accumulate r p)) as [H1 [H2 [H3 H4]]].
    rewrite H1, H2, H3, H4. cbn [accumulate name timelimit states nodelists].
    now rewrite <- !app_assoc.
Qed.

(** X4: in the list a successful call returns, the record of a name is
    determined by the parsed rows of that name: there is at least one; the
    time limit is that of the first of them, whatever the later rows say;
    the states and the node lists are theirs, in order and with
    repetitions; and the eight counters are their sums. *)
Theorem aggregate_record
    (header : string) (rows : list string) (partitions : list partition)
    (nm : string) (p : partition) :
  info_of_lines (header :: rows) = Info partitions ->
  partition_named nm partitions = Some p ->
  exists (r0 : row) (rest : list row),
    rows_named nm (rows_of rows) = r0 :: rest
    /\ name p = nm
    /\ timelimit p = row_timelimit r0
    /\ states p = map row_state (r0 :: rest)
    /\ nodelists p = map row_nodelist (r0 :: rest)
    /\ counters_of p = row_sum nm (rows_of rows).
Proof.
  intros H Hp. apply info_of_lines_success in H. destruct H as [_ [_ ->]].
  assert (Hc := counters_of_aggregate nm (rows_of rows)).
  rewrite Hp in Hc. cbn [option_map] in Hc.
  rewrite partition_named_values in Hp
    by (apply well_keyed_fold; constructor).
  rewrite dict_get_fold in Hp. cbn [dict_get] in Hp.
  destruct (rows_named nm (rows_of rows)) as [|r0 rest] eqn:Hrows;
    [discriminate|].
  assert (Hp' : p = accumulate_all (r0 :: rest) (fresh_partition r0))
    by (now injection Hp).
  clear Hp. subst p.
  destruct (accumulate_all_fields (r0 :: rest) (fresh_partition r0))
    as [H1 [H2 [H3 H4]]].
  exists r0, rest. split; [reflexivity|].
  split.
  { rewrite H1. cbn [fresh_partition name].
    assert (Hin : In r0 (rows_named nm (rows_of rows)))
      by (rewrite Hrows; now left).
    apply filter_In in Hin. destruct Hin as [_ Hin].
    symmetry. now apply String.eqb_eq. }
  split; [now rewrite H2|].
  split; [now rewrite H3|].
  split; [now rewrite H4|].
  destruct (has_row nm (rows_of rows)); [congruence | discriminate].
Qed.

Lemma aggregate_record_witness :
  let rows := ["gpu* 1/1/0/2 8/8/0/16 2 1:00 mixed n[1-2]";
               "cpu 0/1/0/1 0/4/0/4 1 2:00 idle c1";
               "gpu 0/1/0/1 0/8/0/8 1 3:00 idle n3"] in
  exists (partitions : list partition) (p : partition),
    info_of_lines ("HDR" :: rows) = Info partitions
    /\ partition_named "gpu" partitions = Some p
    /\ timelimit p = "1:00"
    /\ states p = ["mixed"; "idle"]
    /\ nodelists p = ["n[1-2]"; "n3"]
    /\ counters_of p = ((1, 2, 0, 3), (8, 16, 0, 24)).
Proof.
  cbv zeta.
  set (rows := ["gpu* 1/1/0/2 8/8/0/16 2 1:00 mixed n[1-2]";
                "cpu 0/1/0/1 0/4/0/4 1 2:00 idle c1";
                "gpu 0/1/0/1 0/8/0/8 1 3:00 idle n3"]).
  assert (H : info_of_lines ("HDR" :: rows)
              = Info (dict_values (fold_left add_row (rows_of rows) [])))
    by reflexivity.
  assert (Hp : exists p, partition_named "gpu"
                  (dict_values (fold_left add_row (rows_of rows) []))
                = Some p)
    by (eexists; reflexivity).
  destruct Hp as [p Hp].
  destruct (aggregate_record _ _ _ _ _ H Hp)
    as [r0 [rest [Hrows [_ [Ht [Hs [Hn Hc]]]]]]].
  assert (Hr : rows_named "gpu" (rows_of rows)
               = [row_from "gpu* 1/1/0/2 8/8/0/16 2 1:00 mixed n[1-2]"
                           1 1 0 2 8 8 0 16 2;
                  row_from "gpu 0/1/0/1 0/8/0/8 1 3:00 idle n3"
                           0 1 0 1 0 8 0 8 1])
    by reflexivity.
  rewrite Hr in Hrows. injection Hrows as <- <-.
  exists (dict_values (fold_left add_row (rows_of rows) [])), p.
  split; [exact H | split; [exact Hp|]].
  split; [exact Ht | split; [exact Hs | split; [exact Hn | exact Hc]]].
Defined.

(** ** Partition names *)

Lemma remove_char_absent (c : ascii) (s : string) :
  PyStr.contains (String c EmptyString) (PyStr.remove_char c s) = false.
Proof.
  induction s as [|a s IH]; [reflexivity|].
  cbn [PyStr.remove_char]. destruct (Ascii.eqb a c) eqn:E; [exact IH|].
  cbn [PyStr.contains PyStr.starts_with]. rewrite IH.
  rewrite Ascii.eqb_sym, E. reflexivity.
Qed.

Lemma rows_of_in (lines : list string) (r : row) :
  In r (rows_of lines)
  <-> exists line, In line lines /\ parse_line line = Done r.
Proof.
  unfold rows_of. rewrite in_flat_map. split.
  - intros [line [Hl Hr]]. exists line. split; [exact Hl|].
    destruct (parse_line line); simpl in Hr; try tauto.
    destruct Hr as [-> | []]. reflexivity.
  - intros [line [Hl Hr]]. exists line. split; [exact Hl|].
    rewrite Hr. now left.
Qed.

(** X5: every partition a successful call returns is named by the first
    field of one of the lines with all its asterisks removed, not only a
    trailing one; the name contains no asterisk. *)
Theorem partition_names_have_no_asterisk
    (header : string) (rows : list string) (partitions : list partition)
    (p : partition) :
  info_of_lines (header :: rows) = Info partitions ->
  In p partitions ->
  PyStr.contains "*" (name p) = false
  /\ exists line : string,
       In line rows
       /\ name p = PyStr.remove_char "*" (nth 0 (PyStr.split_ws line) "").
Proof.
  intros H Hp. apply info_of_lines_success in H. destruct H as [_ [_ ->]].
  assert (Hn : In (name p) (first_seen (map row_partition_name (rows_of rows))))
    by (rewrite <- aggregate_names; now apply in_map).
  apply first_seen_in, in_map_iff in Hn. destruct Hn as [r [Hr Hin]].
  apply rows_of_in in Hin. destruct Hin as [line [Hl Hd]].
  apply parse_line_done_inv in Hd.
  destruct Hd as [_ [a [i [o [t [ca [ci [co [ct [n [_ [_ [_ ->]]]]]]]]]]]]].
  cbn [row_from row_partition_name] in Hr. rewrite <- Hr.
  split; [apply remove_char_absent|]. now exists line.
Qed.

Lemma partition_names_have_no_asterisk_witness :
  exists (partitions : list partition) (p : partition),
    info_of_lines ["HDR"; "a*b** 1/1/0/2 8/8/0/16 2 1:00 mixed n[1-2]"]
    = Info partitions
    /\ In p partitions
    /\ name p = "ab"
    /\ PyStr.contains "*" (name p) = false.
Proof.
  assert (H : info_of_lines ["HDR"; "a*b** 1/1/0/2 8/8/0/16 2 1:00 mixed n[1-2]"]
              = Info (dict_values
                        (fold_left add_row
                           (rows_of ["a*b** 1/1/0/2 8/8/0/16 2 1:00 mixed n[1-2]"])
                           [])))
    by reflexivity.
  eexists. eexists. split; [exact H|].
  split; [left; reflexivity|]. split; [reflexivity|].
  exact (proj1 (partition_names_have_no_asterisk _ _ _ _ H
                  (or_introl eq_refl))).
Defined.

(** ** Output without a row line *)

Lemma split_on_not_nil (c : ascii) (s : string) : PyStr.split_on c s <> [].
Proof.
  destruct s as [|a s]; simpl; [discriminate|].
  destruct (Ascii.eqb a c); [discriminate|].
  destruct (PyStr.split_on c s); discriminate.
Qed.

(** Splitting gives a single part exactly when the separator is absent. *)
Lemma split_on_single (c : ascii) (s : string) :
  (List.length (PyStr.split_on c s) <? 2)%nat
  = negb (PyStr.contains (String c EmptyString) s).
Proof.
  induction s as [|a s IH]; [reflexivity|].
  cbn [PyStr.split_on PyStr.contains PyStr.starts_with].
  rewrite (Ascii.eqb_sym c a).
  destruct (Ascii.eqb a c) eqn:E.
  - cbn [andb orb negb List.length].
    destruct (PyStr.split_on c s) eqn:Es; [now apply split_on_not_nil in Es|].
    reflexivity.
  - cbn [andb orb]. rewrite <- IH.
    destruct (PyStr.split_on c s) eqn:Es; [now apply split_on_not_nil in Es|].
    reflexivity.
Qed.

Lemma lstrip_all_space (sp : ascii -> bool) (s : string) :
  (forall c, In c (list_ascii_of_string s) -> sp c = true) ->
  PyStr.lstrip_by sp s = EmptyString.
Proof.
  induction s as [|a s IH]; intros H; [reflexivity|].
  cbn [PyStr.lstrip_by]. rewrite (H a (or_introl eq_refl)).
  apply IH. intros c Hc. apply H. now right.
Qed.

(** X6: when the command exits with status 0, the call answers "No sinfo
    output" exactly when the output, stripped of surrounding white space,
    contains no line feed: an empty or all-blank output, and an output of a
    single line (a header with no row), are reported as missing, whereas a
    header followed by any second line is not. *)
Theorem no_output_iff (stdout : string) :
  (get_detailed_partition_info (Completed 0 stdout) = Failed NoOutput
   <-> PyStr.contains (String "010" EmptyString) (PyStr.strip stdout) = false)
  /\ ((forall c, In c (list_ascii_of_string stdout) -> PyStr.is_space c = true) ->
      get_detailed_partition_info (Completed 0 stdout) = Failed NoOutput).
Proof.
  assert (Hiff : get_detailed_partition_info (Completed 0 stdout)
                 = Failed NoOutput
                 <-> PyStr.contains (String "010" EmptyString)
                                    (PyStr.strip stdout) = false).
  { cbn [get_detailed_partition_info Z.eqb negb]. unfold info_of_lines.
    rewrite split_on_single.
    destruct (PyStr.contains (String "010" EmptyString) (PyStr.strip stdout));
      cbn [negb].
    - split; [|discriminate].
      destruct (aggregate_lines [] _); discriminate.
    - split; reflexivity. }
  split; [exact Hiff|].
  intros Hall. apply Hiff. unfold PyStr.strip.
  now rewrite (lstrip_all_space _ _ Hall).
Qed.

(** ** More on the capacity inferencer *)

Lemma lower_char_idempotent (c : ascii) :
  PyStr.lower_char (PyStr.lower_char c) = PyStr.lower_char c.
Proof.
  destruct c as [[] [] [] [] [] [] [] []]; reflexivity.
Qed.

Lemma lower_idempotent (s : string) : PyStr.lower (PyStr.lower s) = PyStr.lower s.
Proof.
  induction s as [|c s IH]; simpl; [reflexivity|].
  now rewrite lower_char_idempotent, IH.
Qed.

Lemma lower_app (s t : string) :
  PyStr.lower (s ++ t) = (PyStr.lower s ++ PyStr.lower t)%string.
Proof. induction s as [|c s IH]; simpl; [reflexivity | now rewrite IH]. Qed.

Lemma occurs_in_lower (s t : string) :
  occurs_in s t -> occurs_in (PyStr.lower s) (PyStr.lower t).
Proof.
  intros [before [after ->]]. rewrite !lower_app.
  now exists (PyStr.lower before), (PyStr.lower after).
Qed.

Lemma first_match_in (catalog : list (string * Z)) (s : string) (memory : Z) :
  first_match catalog s = Some memory ->
  exists fragment, In (fragment, memory) catalog.
Proof.
  induction catalog as [|[f m] rest IH]; simpl; [discriminate|].
  destruct (PyStr.contains f s).
  - intros [= <-]. exists f. now left.
  - intros H. destruct (IH H) as [f' Hf']. exists f'. now right.
Qed.

(** X7: the inferred memory does not depend on the case of the name: the
    name and its lower-cased form get the same answer, and so do any two
    names with the same lower-cased form. *)
Theorem infer_gpu_memory_ignores_case (n1 n2 : string) :
  infer_gpu_memory (PyStr.lower n1) = infer_gpu_memory n1
  /\ (PyStr.lower n1 = PyStr.lower n2 ->
      infer_gpu_memory n1 = infer_gpu_memory n2).
Proof.
  unfold infer_gpu_memory. split.
  - now rewrite lower_idempotent.
  - now intros ->.
Qed.

(** X8: a name that contains a name with an inferred memory has an
    inferred memory too: adding a prefix or a suffix to the name of a GPU
    partition never turns it into a compute-only one (the memory itself may
    change, when an earlier fragment of the catalog now occurs). *)
Theorem infer_gpu_memory_extends (n1 n2 : string) :
  occurs_in n1 n2 ->
  infer_gpu_memory n1 <> None ->
  infer_gpu_memory n2 <> None.
Proof.
  unfold infer_gpu_memory. intros Hocc H1 H2. apply H1.
  apply first_match_none. intros fragment memory Hin Hfr.
  rewrite first_match_none in H2. apply (H2 fragment memory Hin).
  eapply occurs_in_trans; [exact Hfr | now apply occurs_in_lower].
Qed.

Lemma infer_gpu_memory_extends_witness :
  occurs_in "h200" "h200-a100"
  /\ infer_gpu_memory "h200" = Some 141
  /\ infer_gpu_memory "h200-a100" <> None
  /\ infer_gpu_memory "h200-a100" = Some 40.
Proof.
  assert (Hocc : occurs_in "h200" "h200-a100") by now exists "", "-a100".
  assert (H1 : infer_gpu_memory "h200" <> None) by discriminate.
  split; [exact Hocc | split; [reflexivity | split; [|reflexivity]]].
  exact (infer_gpu_memory_extends _ _ Hocc H1).
Defined.

(** ** Capacity classes *)

(** X9: every memory the inferencer can return is one of the six values
    of the catalog, all positive; hence the truth test [if gpu_mem:] of the
    first loop never discards a match, and a partition is filed under a
    capacity class exactly when its name matches the catalog. *)
Theorem gpu_class_is_inferred_memory (p : partition) :
  gpu_class (annotate p) = infer_gpu_memory (name p)
  /\ (forall m : Z,
        infer_gpu_memory (name p) = Some m ->
        In m [11; 16; 24; 40; 48; 141] /\ 0 < m).
Proof.
  assert (Hval : forall m, infer_gpu_memory (name p) = Some m ->
                           In m [11; 16; 24; 40; 48; 141] /\ 0 < m).
  { intros m H. apply first_match_in in H. destruct H as [f Hf].
    simpl in Hf.
    repeat (destruct Hf as [Hf | Hf];
            [injection Hf as _ <-; split; [simpl; tauto | lia]|]).
    destruct Hf. }
  split; [|exact Hval].
  unfold gpu_class, annotate. cbn [gpu_memory].
  destruct (infer_gpu_memory (name p)) as [m|] eqn:E; [|reflexivity].
  destruct (Hval m eq_refl) as [_ Hpos].
  destruct (Z.eqb_spec m 0); [lia | reflexivity].
Qed.

(** ** The partitions a page shows, with multiplicity *)

Lemma flat_map_perm (A B : Type) (f g : A -> list B) (l : list A) :
  (forall a, In a l -> Permutation (f a) (g a)) ->
  Permutation (flat_map f l) (flat_map g l).
Proof.
  induction l as [|a l IH]; intros H; simpl; [constructor|].
  apply Permutation_app; [apply H; now left|].
  apply IH. intros b Hb. apply H. now right.
Qed.

Lemma flat_map_nil (A B : Type) (f : A -> list B) (l : list A) :
  (forall a, In a l -> f a = []) -> flat_map f l = [].
Proof.
  induction l as [|a l IH]; intros H; simpl; [reflexivity|].
  rewrite (H a (or_introl eq_refl)). apply IH.
  intros b Hb. apply H. now right.
Qed.

Lemma flat_map_ext_on (A B : Type) (f g : A -> list B) (l : list A) :
  (forall a, In a l -> f a = g a) -> flat_map f l = flat_map g l.
Proof.
  induction l as [|a l IH]; intros H; simpl; [reflexivity|].
  rewrite (H a (or_introl eq_refl)). f_equal. apply IH.
  intros b Hb. apply H. now right.
Qed.

(** Filing one more partition of class [k0] adds it to the block of [k0]
    only. *)
Lemma by_class_cons_gpu (keys : list Z) (k0 : Z) (y : ranked)
      (ys : list ranked) :
  NoDup keys -> In k0 keys -> gpu_class y = Some k0 ->
  Permutation
    (flat_map (fun k => filter (class_is k) (y :: ys)) keys)
    (y :: flat_map (fun k => filter (class_is k) ys) keys).
Proof.
  intros Hnd Hin Hy. induction keys as [|k keys IH]; [destruct Hin|].
  inversion Hnd as [|? ? Hnot Hnd']; subst.
  cbn [flat_map filter]. unfold class_is at 1. rewrite Hy.
  destruct (Z.eqb_spec k0 k) as [->|Hne].
  - cbn [app]. apply perm_skip. apply Permutation_app_head.
    rewrite (flat_map_ext_on _ _ _ (fun k' => filter (class_is k') ys));
      [apply Permutation_refl|].
    intros k' Hk'. cbn [filter]. unfold class_is at 1. rewrite Hy.
    destruct (Z.eqb_spec k k') as [->|]; [contradiction | reflexivity].
  - destruct Hin as [-> | Hin]; [congruence|].
    eapply Permutation_trans;
      [apply Permutation_app_head, (IH Hnd' Hin)|].
    apply Permutation_sym, Permutation_middle.
Qed.

Lemma by_class_cons_cpu (keys : list Z) (y : ranked) (ys : list ranked) :
  gpu_class y = None ->
  flat_map (fun k => filter (class_is k) (y :: ys)) keys
  = flat_map (fun k => filter (class_is k) ys) keys.
Proof.
  intros Hy. apply flat_map_ext. intros k. cbn [filter].
  unfold class_is at 1. now rewrite Hy.
Qed.

(** The blocks of the capacity classes and the compute-only rest hold
    every partition once. *)
Lemma by_class_perm (keys : list Z) (ys : list ranked) :
  NoDup keys ->
  (forall y k, In y ys -> gpu_class y = Some k -> In k keys) ->
  Permutation
    (flat_map (fun k => filter (class_is k) ys) keys ++ filter is_cpu ys)
    ys.
Proof.
  intros Hnd. induction ys as [|y ys IH]; intros Hcover.
  - rewrite flat_map_nil by reflexivity. constructor.
  - assert (IH' : Permutation
                    (flat_map (fun k => filter (class_is k) ys) keys
                     ++ filter is_cpu ys) ys).
    { apply IH. intros z k Hz. apply Hcover. now right. }
    change (filter is_cpu (y :: ys))
      with (if is_cpu y then y :: filter is_cpu ys else filter is_cpu ys).
    unfold is_cpu at 1.
    destruct (gpu_class y) as [k0|] eqn:Hy.
    + eapply Permutation_trans;
        [apply Permutation_app_tail,
           (by_class_cons_gpu keys k0 y ys Hnd
              (Hcover y k0 (or_introl eq_refl) Hy) Hy)|].
      cbn [app]. now apply perm_skip.
    + rewrite (by_class_cons_cpu keys y ys Hy).
      eapply Permutation_trans;
        [apply Permutation_sym, Permutation_middle|].
      now apply perm_skip.
Qed.

Lemma sorted_keys_spec (partitions : list partition) (k : Z) :
  In k (sorted_keys (sorted_groups (fst (categorize partitions))))
  <-> exists x, In x (map annotate partitions) /\ gpu_class x = Some k.
Proof.
  rewrite sorted_keys_sorted_groups. unfold sorted_keys, categorize.
  split.
  - intros H. apply (Permutation_in _ (sort_reverse_perm _ _ _)) in H.
    apply categorize_keys in H. destruct H as [[] | H]. exact H.
  - intros H.
    apply (Permutation_in _ (Permutation_sym (sort_reverse_perm _ _ _))).
    apply categorize_keys. now right.
Qed.

Lemma sorted_keys_nodup (partitions : list partition) :
  NoDup (sorted_keys (sorted_groups (fst (categorize partitions)))).
Proof.
  rewrite sorted_keys_sorted_groups. unfold sorted_keys.
  eapply Permutation_NoDup;
    [apply Permutation_sym, sort_reverse_perm|].
  unfold categorize. apply categorize_nodup. constructor.
Qed.

(** X10: the partitions a page shows, over all its cards and its
    compute-only section, are exactly the aggregated partitions that are
    compute-only or pass the filter of their class, each shown once; with
    the threshold 0 every aggregated partition is shown exactly once. *)
Theorem shown_once (min_gpu_memory : Z) (partitions : list partition) :
  Permutation (shown (render min_gpu_memory partitions))
              (filter (visible min_gpu_memory) (map annotate partitions))
  /\ Permutation (shown (render 0 partitions)) (map annotate partitions).
Proof.
  assert (Hgen : forall m,
             Permutation (shown (render m partitions))
                         (filter (visible m) (map annotate partitions))).
  { intros m. rewrite render_shown. cbv zeta. rewrite sorted_cpu_members.
    set (xs := map annotate partitions).
    set (keys := sorted_keys (sorted_groups (fst (categorize partitions)))).
    eapply Permutation_trans;
      [|apply (by_class_perm keys (filter (visible m) xs))].
    - apply Permutation_app.
      + apply flat_map_perm. intros k _.
        rewrite sorted_group_members. fold xs.
        eapply Permutation_trans;
          [apply Permutation_filter, sort_reverse_perm|].
        rewrite !filter_and.
        rewrite (filter_ext (fun x => class_is k x && passes m k x)
                            (fun x => visible m x && class_is k x));
          [apply Permutation_refl|].
        intros x. unfold visible, class_is.
        destruct (gpu_class x) as [k'|]; [|reflexivity].
        destruct (Z.eqb_spec k' k) as [->|]; cbn [andb].
        * now rewrite andb_true_r.
        * now rewrite andb_false_r.
      + eapply Permutation_trans; [apply sort_reverse_perm|].
        rewrite filter_and.
        rewrite (filter_ext (fun x => visible m x && is_cpu x) is_cpu);
          [apply Permutation_refl|].
        intros x. unfold visible, is_cpu.
        destruct (gpu_class x); [apply andb_false_r | reflexivity].
    - apply sorted_keys_nodup.
    - intros y k Hy Hk. apply sorted_keys_spec. exists y.
      apply filter_In in Hy. tauto. }
  split; [apply Hgen|].
  eapply Permutation_trans; [apply Hgen|].
  rewrite (filter_ext (visible 0) (fun _ => true)); [now rewrite filter_all|].
  intros x. unfold visible, passes.
  now destruct (gpu_class x).
Qed.

(** ** The cards *)

Lemma gpu_cards_no_groups (min_gpu_memory : Z) :
  gpu_cards min_gpu_memory [] (sorted_keys []) = ([], []).
Proof. reflexivity. Qed.

(** The cards of a page are the cards of the card loop. *)
Lemma card_in_render (min_gpu_memory : Z) (partitions : list partition)
      (c : card) :
  let g := sorted_groups (fst (categorize partitions)) in
  In (GpuCard c) (render min_gpu_memory partitions)
  <-> In c (flat_map (card_for min_gpu_memory g) (sorted_keys g)).
Proof.
  cbv zeta. rewrite render_unfold. cbv zeta.
  set (g := sorted_groups (fst (categorize partitions))).
  rewrite <- gpu_cards_fst.
  set (cards := fst (gpu_cards min_gpu_memory g (sorted_keys g))).
  destruct (gpu_section_cards min_gpu_memory g) as [_ [_ [_ Hin]]].
  fold cards in Hin.
  split.
  - intros [H | H]; [discriminate|].
    apply in_app_iff in H. destruct H as [H | H]; [now apply Hin|].
    now apply rest_has_no_card in H.
  - intros H. right. apply in_app_iff. left.
    unfold gpu_section. destruct g as [|kv g'] eqn:Eg.
    + subst cards. rewrite gpu_cards_no_groups in H. destruct H.
    + apply in_app_iff. right. apply in_app_iff. left. now apply in_map.
Qed.

Lemma card_for_not_empty (min_gpu_memory : Z) (g : groups) (k : Z) (c : card) :
  In c (card_for min_gpu_memory g k) ->
  card_partitions c <> []
  /\ card_group_size c = List.length (group_get k g)
  /\ card_partial c
     = (0 <? min_gpu_memory)
       && (List.length (card_partitions c) <? card_group_size c)%nat.
Proof.
  unfold card_for.
  destruct (filter (passes min_gpu_memory k) (group_get k g)) eqn:E;
    [intros [] | intros [<- | []]].
  cbn [make_card card_partitions card_group_size card_partial].
  repeat split. discriminate.
Qed.

Lemma descending_nodup (l : list Z) :
  StronglySorted (fun a b : Z => b < a) l -> NoDup l.
Proof.
  induction 1 as [|a l Hs IH Ha]; constructor; [|exact IH].
  intros Hin. rewrite Forall_forall in Ha. specialize (Ha a Hin). lia.
Qed.

(** X11: a page has one card per capacity class with at least one
    partition that passes the filter, and no other: no card is empty, no
    two cards share a memory value, a card holds exactly the passing
    partitions of its class, and its group size counts all the partitions of
    the class, shown or not. *)
Theorem cards_hold_passing_partitions
    (min_gpu_memory : Z) (partitions : list partition) :
  (forall c : card,
     In (GpuCard c) (render min_gpu_memory partitions) ->
     card_partitions c <> []
     /\ card_partitions c
        = filter (passes min_gpu_memory (card_gpu_mem c))
            (sort_partitions
               (filter (class_is (card_gpu_mem c)) (map annotate partitions)))
     /\ card_group_size c
        = List.length
            (filter (class_is (card_gpu_mem c)) (map annotate partitions))
     /\ card_partial c
        = (0 <? min_gpu_memory)
          && (List.length (card_partitions c) <? card_group_size c)%nat)
  /\ (forall (x : ranked) (k : Z),
        In x (map annotate partitions) ->
        gpu_class x = Some k ->
        passes min_gpu_memory k x = true ->
        exists c : card,
          In (GpuCard c) (render min_gpu_memory partitions)
          /\ card_gpu_mem c = k /\ In x (card_partitions c))
  /\ NoDup (map card_gpu_mem (cards_of (render min_gpu_memory partitions))).
Proof.
  set (g := sorted_groups (fst (categorize partitions))).
  split; [|split].
  - intros c Hc. apply card_in_render in Hc. fold g in Hc.
    apply in_flat_map in Hc. destruct Hc as [k [Hk Hc]].
    destruct (card_for_spec _ _ _ _ Hc) as [Hmem Hparts].
    destruct (card_for_not_empty _ _ _ _ Hc) as [Hne [Hsize Hpartial]].
    subst k. unfold g in Hparts, Hsize.
    rewrite sorted_group_members in Hparts, Hsize.
    split; [exact Hne | split; [exact Hparts | split; [|exact Hpartial]]].
    rewrite Hsize. apply Permutation_length, sort_reverse_perm.
  - intros x k Hx Hk Hpass.
    assert (Hin : In x (filter (passes min_gpu_memory k) (group_get k g))).
    { apply filter_In. split; [|exact Hpass].
      unfold g. rewrite sorted_group_members.
      apply (Permutation_in _ (Permutation_sym (sort_reverse_perm _ _ _))).
      apply filter_In. split; [exact Hx | now apply class_is_iff]. }
    exists (make_card min_gpu_memory k (group_get k g)
              (filter (passes min_gpu_memory k) (group_get k g))).
    split; [|split; [reflexivity | exact Hin]].
    apply card_in_render. fold g. apply in_flat_map. exists k. split.
    + apply sorted_keys_spec. now exists x.
    + unfold card_for.
      destruct (filter (passes min_gpu_memory k) (group_get k g));
        [destruct Hin | now left].
  - apply descending_nodup.
    rewrite render_unfold. cbv zeta. fold g.
    change (Banner :: ?l) with ([Banner] ++ l).
    rewrite cards_of_app, cards_of_app.
    destruct (gpu_section_cards min_gpu_memory g) as [Hcards _].
    rewrite Hcards, gpu_cards_fst.
    assert (Hrest : forall cpu results,
               cards_of (cpu_section cpu
                         ++ table_section min_gpu_memory results ++ [Legend])
               = []).
    { intros cpu results. unfold cpu_section, table_section.
      destruct cpu, results; try destruct (0 <? min_gpu_memory); reflexivity. }
    rewrite Hrest. cbn [cards_of flat_map app]. rewrite app_nil_r.
    apply cards_descending. unfold g.
    rewrite sorted_keys_sorted_groups. apply sorted_keys_descending.
    unfold categorize. apply categorize_nodup. constructor.
Qed.

(** ** The figures of a card *)

Lemma sum_of_map (f : partition -> Z) (l : list ranked) :
  sum_of f l = sum_list (map (fun x => f (part x)) l).
Proof.
  unfold sum_of, sum_list. induction l as [|x l IH]; simpl; [reflexivity|].
  now rewrite IH.
Qed.

Lemma sum_list_sub (f g : ranked -> Z) (l : list ranked) :
  sum_list (map f l) - sum_list (map g l)
  = sum_list (map (fun x => f x - g x) l).
Proof.
  unfold sum_list. induction l as [|x l IH]; simpl; [reflexivity|]. lia.
Qed.

Lemma sum_list_scale (k : Z) (f : ranked -> Z) (l : list ranked) :
  k * sum_list (map f l) = sum_list (map (fun x => k * f x) l).
Proof.
  unfold sum_list. induction l as [|x l IH]; simpl; [lia|]. lia.
Qed.

Lemma sum_list_lower_bound (m : Z) (l : list Z) :
  (forall z, In z l -> m <= z) ->
  m * Z.of_nat (List.length l) <= sum_list l.
Proof.
  unfold sum_list. induction l as [|z l IH]; intros H.
  - simpl. lia.
  - cbn [List.length fold_right]. rewrite Nat2Z.inj_succ.
    assert (m <= z) by (apply H; now left).
    assert (m * Z.of_nat (List.length l) <= fold_right Z.add 0 l)
      by (apply IH; intros y Hy; apply H; now right).
    lia.
Qed.

(** X12: the figures in the header of a card are sums over the
    partitions shown in that card: its available nodes are the sum of
    [total_nodes - allocated_nodes], and its total available memory is the
    sum of the memories shown for its partitions; under a positive
    threshold it is at least the threshold times the number of partitions
    shown. *)
Theorem card_figures_are_sums
    (min_gpu_memory : Z) (partitions : list partition) (c : card) :
  In (GpuCard c) (render min_gpu_memory partitions) ->
  card_available_nodes_sum c
  = sum_list (map (fun x => total_nodes (part x) - allocated_nodes (part x))
                  (card_partitions c))
  /\ card_total_available_gpu_memory c
     = sum_list (map (shown_memory (card_gpu_mem c)) (card_partitions c))
  /\ card_idle_nodes_sum c
     = sum_list (map (fun x => idle_nodes (part x)) (card_partitions c))
  /\ (0 < min_gpu_memory ->
      min_gpu_memory * Z.of_nat (List.length (card_partitions c))
      <= card_total_available_gpu_memory c).
Proof.
  intros Hc. apply card_in_render in Hc.
  apply in_flat_map in Hc. destruct Hc as [k [_ Hc]].
  unfold card_for in Hc.
  set (g := sorted_groups (fst (categorize partitions))) in *.
  assert (Hpass : forall x,
             In x (filter (passes min_gpu_memory k) (group_get k g)) ->
             passes min_gpu_memory k x = true)
    by (intros x Hx; now apply filter_In in Hx).
  destruct (filter (passes min_gpu_memory k) (group_get k g)) as [|x0 l];
    [destruct Hc | destruct Hc as [<- | []]].
  cbn [make_card card_available_nodes_sum card_total_available_gpu_memory
       card_idle_nodes_sum card_partitions card_gpu_mem].
  rewrite !sum_of_map, sum_list_sub.
  assert (Hmem : k * sum_list
                       (map (fun x => total_nodes (part x)
                                      - allocated_nodes (part x)) (x0 :: l))
                 = sum_list (map (shown_memory k) (x0 :: l)))
    by (rewrite sum_list_scale; reflexivity).
  split; [reflexivity | split; [exact Hmem | split; [reflexivity|]]].
  intros Hpos. rewrite Hmem.
  rewrite <- (length_map (shown_memory k) (x0 :: l)).
  apply sum_list_lower_bound. intros z Hz.
  apply in_map_iff in Hz. destruct Hz as [x [<- Hx]].
  specialize (Hpass x Hx). apply passes_spec in Hpass.
  unfold shown_memory. lia.
Qed.

Lemma card_figures_are_sums_witness :
  exists c : card,
    In (GpuCard c) (render 48 small_cluster)
    /\ card_gpu_mem c = 24
    /\ card_total_available_gpu_memory c = 240
    /\ 48 * Z.of_nat (List.length (card_partitions c))
       <= card_total_available_gpu_memory c.
Proof.
  assert (Hc : exists c, In (GpuCard c) (render 48 small_cluster)
                         /\ card_gpu_mem c = 24
                         /\ card_total_available_gpu_memory c = 240).
  { set (g := sorted_groups (fst (categorize small_cluster))).
    exists (make_card 48 24 (group_get 24 g)
              (filter (passes 48 24) (group_get 24 g))).
    split; [|split; reflexivity].
    vm_compute. right. right. right. left. reflexivity. }
  destruct Hc as [c [Hin [Hk Ht]]].
  exists c. split; [exact Hin | split; [exact Hk | split; [exact Ht|]]].
  apply (proj2 (proj2 (proj2 (card_figures_are_sums 48 small_cluster c Hin)))).
  lia.
Defined.

(** ** The blocks of a page, one by one *)

Lemma in_if_singleton (cond : bool) (x b : block) :
  In b (if cond then [x] else []) <-> cond = true /\ b = x.
Proof.
  destruct cond; simpl.
  - split; [intros [H | []]; now split | intros [_ ->]; now left].
  - split; [intros [] | intros [H _]; discriminate].
Qed.

Lemma length_eqb_zero (A : Type) (l : list A) :
  negb (Nat.eqb (List.length l) 0) = true <-> l <> [].
Proof. destruct l; simpl; split; congruence. Qed.

Lemma gpu_section_blocks (min_gpu_memory : Z) (g : groups) (cards : list card)
      (b : block) :
  In b (gpu_section min_gpu_memory g cards)
  <-> g <> []
      /\ (b = GpuHeading (0 <? min_gpu_memory)
          \/ (exists c, In c cards /\ b = GpuCard c)
          \/ (b = GpuTypesShown (List.length cards) (List.length g)
              /\ (0 <? min_gpu_memory) = true /\ cards <> [])
          \/ (b = NoGpuFound
              /\ (0 <? min_gpu_memory) = true /\ cards = [])).
Proof.
  unfold gpu_section. destruct g as [|kv g].
  - split; [intros [] | intros [H _]; now apply H].
  - rewrite !in_app_iff, in_map_iff, !in_if_singleton, !andb_true_iff.
    rewrite length_eqb_zero, negb_true_iff.
    assert (Hnil : negb (Nat.eqb (List.length cards) 0) = false <-> cards = [])
      by (destruct cards; simpl; split; congruence).
    rewrite Hnil. cbn [In]. split.
    + intros [[H | []] | [[c [H Hc]] | [[[Hm Hne] H] | [[He Hm] H]]]];
        (split; [discriminate|]).
      * left. now symmetry.
      * right. left. exists c. split; [exact Hc | now symmetry].
      * right. right. left. now repeat split.
      * right. right. right. now repeat split.
    + intros [_ [H | [[c [Hc H]] | [[H [Hm Hne]] | [H [Hm He]]]]]].
      * left. left. now symmetry.
      * right. left. exists c. split; [now symmetry | exact Hc].
      * right. right. left. now repeat split.
      * right. right. right. now repeat split.
Qed.

Lemma rest_blocks (min_gpu_memory : Z) (cpu : list ranked)
      (results : list result) (b : block) :
  In b (cpu_section cpu ++ table_section min_gpu_memory results ++ [Legend])
  <-> (b = CpuSection cpu /\ cpu <> [])
      \/ (b = BestTable (sort_reverse res_total_available_gpu_memory Z.ltb
                           results)
          /\ (0 <? min_gpu_memory) = true /\ results <> [])
      \/ b = Legend.
Proof.
  rewrite !in_app_iff. unfold cpu_section, table_section. cbn [In].
  destruct cpu as [|x cpu], results as [|r results];
    destruct (0 <? min_gpu_memory); cbn [In]; split.
  all: try (intros [[] | [[] | [H | []]]]; right; right; now symmetry).
  all: try (intros [[H | []] | [[] | [H | []]]];
            [left; split; [now symmetry | discriminate]
            | right; right; now symmetry]).
  all: try (intros [[] | [[H | []] | [H | []]]];
            [right; left; split; [now symmetry | split; [reflexivity | discriminate]]
            | right; right; now symmetry]).
  all: try (intros [[H | []] | [[H | []] | [H | []]]];
            [left; split; [now symmetry | discriminate]
            | right; left; split; [now symmetry | split; [reflexivity | discriminate]]
            | right; right; now symmetry]).
  all: intros [[H Hne] | [[H [Hm Hne]] | H]];
       try congruence; try discriminate;
       try (left; left; now symmetry);
       try (right; left; left; now symmetry);
       try (right; right; left; now symmetry).
Qed.

Lemma render_blocks (min_gpu_memory : Z) (partitions : list partition)
      (b : block) :
  let g := sorted_groups (fst (categorize partitions)) in
  let cards := flat_map (card_for min_gpu_memory g) (sorted_keys g) in
  let results := snd (gpu_cards min_gpu_memory g (sorted_keys g)) in
  In b (render min_gpu_memory partitions)
  <-> b = Banner
      \/ In b (gpu_section min_gpu_memory g cards)
      \/ In b (cpu_section (sort_partitions (snd (categorize partitions)))
               ++ table_section min_gpu_memory results ++ [Legend]).
Proof.
  cbv zeta. rewrite render_unfold. cbv zeta. rewrite gpu_cards_fst.
  cbn [In]. rewrite in_app_iff. split.
  - intros [H | H]; [left; now symmetry | now right].
  - intros [H | H]; [left; now symmetry | now right].
Qed.

(** ** The table of best partitions *)

Lemma gpu_cards_snd (min_gpu_memory : Z) (g : groups) (keys : list Z) :
  snd (gpu_cards min_gpu_memory g keys)
  = flat_map (fun k => flat_map (result_of k)
                         (filter (passes min_gpu_memory k) (group_get k g)))
             keys.
Proof.
  induction keys as [|k keys IH]; simpl; [reflexivity|].
  destruct (gpu_cards min_gpu_memory g keys) as [cards results].
  simpl in IH.
  destruct (filter (passes min_gpu_memory k) (group_get k g)); simpl;
    now rewrite IH.
Qed.

Lemma gpu_class_positive (p : partition) (k : Z) :
  gpu_class (annotate p) = Some k -> 0 < k.
Proof.
  unfold gpu_class, annotate. cbn [gpu_memory].
  destruct (infer_gpu_memory (name p)) as [m|] eqn:E; [|discriminate].
  destruct (Z.eqb_spec m 0); [discriminate|]. intros [= <-].
  apply first_match_in in E. destruct E as [f Hf]. simpl in Hf.
  repeat (destruct Hf as [Hf | Hf]; [injection Hf as _ <-; lia|]).
  destruct Hf.
Qed.

(** Under a positive threshold a passing partition of a positive class
    has nodes left, so it always yields its table row. *)
Lemma result_of_passing (min_gpu_memory k : Z) (x : ranked) :
  0 < min_gpu_memory -> 0 < k -> passes min_gpu_memory k x = true ->
  exists r,
    result_of k x = [r]
    /\ res_partition r = name (part x)
    /\ res_gpu_memory r = k
    /\ res_available_nodes r
       = total_nodes (part x) - allocated_nodes (part x)
    /\ res_total_available_gpu_memory r = shown_memory k x
    /\ 0 < res_available_nodes r
    /\ min_gpu_memory <= res_total_available_gpu_memory r.
Proof.
  intros Hm Hk Hpass. apply passes_spec in Hpass.
  assert (Havail : 0 < total_nodes (part x) - allocated_nodes (part x)) by nia.
  unfold result_of.
  assert (Hcond : (0 <? idle_nodes (part x))
                  || (0 <? total_nodes (part x) - allocated_nodes (part x))
                  = true).
  { apply orb_true_iff. right. now apply Z.ltb_lt. }
  rewrite Hcond. eexists. split; [reflexivity|].
  cbn [res_partition res_gpu_memory res_available_nodes
       res_total_available_gpu_memory].
  unfold shown_memory. repeat split; try assumption. lia.
Qed.

(** X13: the table of best partitions appears only under a positive
    threshold.  It then has one row for every partition shown in a card (the
    test on idle and available nodes excludes none of them), in descending
    order of total available memory; each row reaches the threshold, has a
    positive number of available nodes, and its total is its per-card
    memory times its available nodes. *)
Theorem best_table_rows
    (min_gpu_memory : Z) (partitions : list partition) (rows : list result) :
  In (BestTable rows) (render min_gpu_memory partitions) ->
  0 < min_gpu_memory
  /\ rows <> []
  /\ StronglySorted
       (fun a b => res_total_available_gpu_memory b
                   <= res_total_available_gpu_memory a) rows
  /\ (forall r, In r rows ->
        min_gpu_memory <= res_total_available_gpu_memory r
        /\ res_total_available_gpu_memory r
           = res_gpu_memory r * res_available_nodes r
        /\ 0 < res_available_nodes r)
  /\ Permutation
       (map res_partition rows)
       (map (fun x => name (part x))
            (flat_map card_partitions
               (cards_of (render min_gpu_memory partitions)))).
Proof.
  intros Hin. apply render_blocks in Hin. cbv zeta in Hin.
  set (g := sorted_groups (fst (categorize partitions))) in *.
  set (results := snd (gpu_cards min_gpu_memory g (sorted_keys g))) in *.
  destruct Hin as [Hin | [Hin | Hin]]; [discriminate | |].
  { apply gpu_section_blocks in Hin.
    destruct Hin as [_ [H | [[c [_ H]] | [[H _] | [H _]]]]]; discriminate. }
  apply rest_blocks in Hin.
  destruct Hin as [[H _] | [[H [Hm Hne]] | H]]; try discriminate.
  injection H as ->. apply Z.ltb_lt in Hm.
  assert (Hperm := sort_reverse_perm res_total_available_gpu_memory Z.ltb
                     results).
  (* every passing partition of every key gives its row *)
  assert (Hkeys : forall k, In k (sorted_keys g) -> 0 < k).
  { intros k Hk. unfold g in Hk. apply sorted_keys_spec in Hk.
    destruct Hk as [x [Hx Hc]]. apply in_map_iff in Hx.
    destruct Hx as [p [<- _]]. now apply gpu_class_positive in Hc. }
  assert (Hrow : forall r, In r results ->
            min_gpu_memory <= res_total_available_gpu_memory r
            /\ res_total_available_gpu_memory r
               = res_gpu_memory r * res_available_nodes r
            /\ 0 < res_available_nodes r).
  { intros r Hr. unfold results in Hr. rewrite gpu_cards_snd in Hr.
    apply in_flat_map in Hr. destruct Hr as [k [Hk Hr]].
    apply in_flat_map in Hr. destruct Hr as [x [Hx Hr]].
    apply filter_In in Hx. destruct Hx as [_ Hpass].
    destruct (result_of_passing min_gpu_memory k x Hm (Hkeys k Hk) Hpass)
      as [r' [Hr' [_ [Hg [Ha [Ht [Hpos Hge]]]]]]].
    rewrite Hr' in Hr. destruct Hr as [<- | []].
    split; [exact Hge | split; [|exact Hpos]].
    rewrite Ht, Hg, Ha. reflexivity. }
  split; [exact Hm|].
  split.
  { intros Hnil. apply Hne. apply Permutation_nil.
    rewrite <- Hnil. exact Hperm. }
  split.
  { eapply StronglySorted_weaken;
      [|apply (sort_reverse_sorted res_total_available_gpu_memory Z.ltb
                 Zltb_asym Zltb_negtrans)].
    intros a b _ _ Hab. unfold not_below in Hab.
    now apply Z.ltb_ge in Hab. }
  split.
  { intros r Hr. apply Hrow. eapply Permutation_in; eassumption. }
  eapply Permutation_trans; [apply Permutation_map, Hperm|].
  assert (Hcards : cards_of (render min_gpu_memory partitions)
                   = flat_map (card_for min_gpu_memory g) (sorted_keys g)).
  { rewrite render_unfold. cbv zeta. fold g.
    change (Banner :: ?l) with ([Banner] ++ l).
    rewrite cards_of_app, cards_of_app.
    destruct (gpu_section_cards min_gpu_memory g) as [Hc _].
    rewrite Hc, gpu_cards_fst.
    assert (Hrest : forall cpu rs,
               cards_of (cpu_section cpu
                         ++ table_section min_gpu_memory rs ++ [Legend]) = []).
    { intros cpu rs. unfold cpu_section, table_section.
      destruct cpu, rs; try destruct (0 <? min_gpu_memory); reflexivity. }
    rewrite Hrest. cbn [cards_of flat_map app]. now rewrite app_nil_r. }
  rewrite Hcards, cards_partitions. unfold results. rewrite gpu_cards_snd.
  generalize Hkeys. generalize (sorted_keys g). intros keys Hpos.
  induction keys as [|k keys IH]; [constructor|].
  cbn [flat_map]. rewrite !map_app. apply Permutation_app.
  - assert (Hk : 0 < k) by (apply Hpos; now left).
    assert (Hall : forall x,
               In x (filter (passes min_gpu_memory k) (group_get k g)) ->
               passes min_gpu_memory k x = true)
      by (intros x Hx; now apply filter_In in Hx).
    induction (filter (passes min_gpu_memory k) (group_get k g))
      as [|x l IHl]; [constructor|].
    cbn [flat_map map].
    destruct (result_of_passing min_gpu_memory k x Hm Hk
                (Hall x (or_introl eq_refl))) as [r [Hr [Hn _]]].
    rewrite Hr. cbn [app map]. rewrite Hn. apply perm_skip.
    apply IHl. intros y Hy. apply Hall. now right.
  - apply IH. intros k' Hk'. apply Hpos. now right.
Qed.

Lemma best_table_rows_witness :
  exists rows : list result,
    In (BestTable rows) (render 48 small_cluster)
    /\ map res_partition rows = ["h200"; "a5500"; "a5000-c"]
    /\ map res_total_available_gpu_memory rows = [282; 120; 120]
    /\ forall r, In r rows -> 48 <= res_total_available_gpu_memory r.
Proof.
  set (g := sorted_groups (fst (categorize small_cluster))).
  set (rows := sort_reverse res_total_available_gpu_memory Z.ltb
                 (snd (gpu_cards 48 g (sorted_keys g)))).
  assert (Hin : In (BestTable rows) (render 48 small_cluster)).
  { vm_compute. do 6 right. left. reflexivity. }
  exists rows. split; [exact Hin | split; [reflexivity | split; [reflexivity|]]].
  intros r Hr.
  exact (proj1 (proj1 (proj2 (proj2 (proj2
           (best_table_rows 48 small_cluster rows Hin)))) r Hr)).
Defined.

(** ** The notices of the GPU section *)

Lemma sorted_keys_length (g : groups) :
  List.length (sorted_keys g) = List.length g.
Proof.
  unfold sorted_keys.
  rewrite (Permutation_length (sort_reverse_perm _ _ _)).
  apply length_map.
Qed.

Lemma card_for_nil_iff (min_gpu_memory : Z) (g : groups) (k : Z) :
  card_for min_gpu_memory g k = []
  <-> filter (passes min_gpu_memory k) (group_get k g) = [].
Proof.
  unfold card_for.
  destruct (filter (passes min_gpu_memory k) (group_get k g));
    split; congruence.
Qed.

Lemma cards_nil_iff (min_gpu_memory : Z) (g : groups) (keys : list Z) :
  flat_map (card_for min_gpu_memory g) keys = []
  <-> forall k, In k keys ->
                filter (passes min_gpu_memory k) (group_get k g) = [].
Proof.
  induction keys as [|k keys IH]; cbn [flat_map].
  - split; [intros _ k [] | reflexivity].
  - split.
    + intros H. apply app_eq_nil in H. destruct H as [H1 H2].
      intros k' [<- | Hk']; [now apply card_for_nil_iff | now apply IH].
    + intros H.
      rewrite (proj2 (card_for_nil_iff min_gpu_memory g k)
                 (H k (or_introl eq_refl))).
      apply IH. intros k' Hk'. apply H. now right.
Qed.

Lemma cards_length_le (min_gpu_memory : Z) (g : groups) (keys : list Z) :
  (List.length (flat_map (card_for min_gpu_memory g) keys)
   <= List.length keys)%nat.
Proof.
  induction keys as [|k keys IH]; cbn [flat_map List.length]; [lia|].
  rewrite length_app. unfold card_for at 1.
  destruct (filter (passes min_gpu_memory k) (group_get k g)); simpl; lia.
Qed.

Lemma filter_nil_iff (A : Type) (p : A -> bool) (l : list A) :
  filter p l = [] <-> forall x, In x l -> p x = false.
Proof.
  induction l as [|x l IH]; simpl.
  - split; [intros _ x [] | reflexivity].
  - destruct (p x) eqn:E.
    + split; [discriminate|]. intros H.
      specialize (H x (or_introl eq_refl)). congruence.
    + rewrite IH. split.
      * intros H y [<- | Hy]; [exact E | now apply H].
      * intros H y Hy. apply H. now right.
Qed.

Lemma cards_of_render (min_gpu_memory : Z) (partitions : list partition) :
  let g := sorted_groups (fst (categorize partitions)) in
  cards_of (render min_gpu_memory partitions)
  = flat_map (card_for min_gpu_memory g) (sorted_keys g).
Proof.
  cbv zeta. rewrite render_unfold. cbv zeta.
  set (g := sorted_groups (fst (categorize partitions))).
  change (Banner :: ?l) with ([Banner] ++ l).
  rewrite cards_of_app, cards_of_app.
  destruct (gpu_section_cards min_gpu_memory g) as [Hc _].
  rewrite Hc, gpu_cards_fst.
  assert (Hrest : forall cpu rs,
             cards_of (cpu_section cpu
                       ++ table_section min_gpu_memory rs ++ [Legend]) = []).
  { intros cpu rs. unfold cpu_section, table_section.
    destruct cpu, rs; try destruct (0 <? min_gpu_memory); reflexivity. }
  rewrite Hrest. cbn [cards_of flat_map app]. now rewrite app_nil_r.
Qed.

(** X14: the notice "No GPU Partitions Found" appears exactly when the
    threshold is positive, some partition belongs to a capacity class and
    none of those passes the filter; the page then has no card.  The line
    "Showing d of t GPU types" appears only under a positive threshold, with
    [d] the number of cards, at least one, and [t] the number of distinct
    capacity classes among the partitions. *)
Theorem gpu_notices (min_gpu_memory : Z) (partitions : list partition) :
  (In NoGpuFound (render min_gpu_memory partitions)
   <-> 0 < min_gpu_memory
       /\ (exists x k, In x (map annotate partitions) /\ gpu_class x = Some k)
       /\ (forall x k,
             In x (map annotate partitions) -> gpu_class x = Some k ->
             passes min_gpu_memory k x = false))
  /\ (In NoGpuFound (render min_gpu_memory partitions) ->
      cards_of (render min_gpu_memory partitions) = [])
  /\ (forall d t : nat,
        In (GpuTypesShown d t) (render min_gpu_memory partitions) ->
        0 < min_gpu_memory
        /\ d = List.length (cards_of (render min_gpu_memory partitions))
        /\ (1 <= d <= t)%nat
        /\ exists keys : list Z,
             NoDup keys
             /\ (forall k, In k keys
                           <-> exists x, In x (map annotate partitions)
                                         /\ gpu_class x = Some k)
             /\ t = List.length keys).
Proof.
  set (g := sorted_groups (fst (categorize partitions))).
  set (cards := flat_map (card_for min_gpu_memory g) (sorted_keys g)).
  assert (Hcards : cards_of (render min_gpu_memory partitions) = cards)
    by apply cards_of_render.
  assert (Hg : g <> []
               <-> exists x k, In x (map annotate partitions)
                               /\ gpu_class x = Some k).
  { split.
    - intros Hne.
      destruct (sorted_keys g) as [|k keys] eqn:Ek.
      + exfalso. apply Hne. apply length_zero_iff_nil.
        rewrite <- sorted_keys_length, Ek. reflexivity.
      + assert (Hk : In k (sorted_keys g)) by (rewrite Ek; now left).
        unfold g in Hk. apply sorted_keys_spec in Hk.
        destruct Hk as [x Hx]. now exists x, k.
    - intros [x [k [Hx Hk]]] Hnil.
      assert (Hin : In k (sorted_keys g))
        by (unfold g; apply sorted_keys_spec; now exists x).
      rewrite Hnil in Hin. destruct Hin. }
  assert (Hnone : cards = []
                  <-> forall x k,
                        In x (map annotate partitions) ->
                        gpu_class x = Some k ->
                        passes min_gpu_memory k x = false).
  { unfold cards. rewrite cards_nil_iff. split.
    - intros H x k Hx Hk.
      assert (Hin : In k (sorted_keys g))
        by (unfold g; apply sorted_keys_spec; now exists x).
      specialize (H k Hin). rewrite filter_nil_iff in H. apply H.
      unfold g. rewrite sorted_group_members.
      apply (Permutation_in _ (Permutation_sym (sort_reverse_perm _ _ _))).
      apply filter_In. split; [exact Hx | now apply class_is_iff].
    - intros H k Hk. apply filter_nil_iff. intros x Hx.
      unfold g in Hx. rewrite sorted_group_members in Hx.
      apply (Permutation_in _ (sort_reverse_perm _ _ _)) in Hx.
      apply filter_In in Hx. destruct Hx as [Hx Hc].
      apply (H x k Hx). now apply class_is_iff. }
  assert (Hnotice : In NoGpuFound (render min_gpu_memory partitions)
                    <-> g <> [] /\ (0 <? min_gpu_memory) = true /\ cards = []).
  { rewrite render_blocks. cbv zeta. fold g. fold cards.
    rewrite gpu_section_blocks, rest_blocks. split.
    - intros [H | [[Hne H] | H]]; [discriminate | |].
      + destruct H as [H | [[c [_ H]] | [[H _] | [_ H]]]];
          try discriminate. now split.
      + destruct H as [[H _] | [[H _] | H]]; discriminate.
    - intros [Hne [Hm Hc]]. right. left. split; [exact Hne|].
      right. right. right. now repeat split. }
  split; [|split].
  - rewrite Hnotice, Hg, Hnone, Z.ltb_lt. tauto.
  - intros H. apply Hnotice in H. rewrite Hcards. tauto.
  - intros d t Hin. apply render_blocks in Hin. cbv zeta in Hin.
    fold g in Hin. fold cards in Hin.
    destruct Hin as [Hin | [Hin | Hin]]; [discriminate | |].
    + apply gpu_section_blocks in Hin.
      destruct Hin as [_ [H | [[c [_ H]] | [[H [Hm Hne]] | [H _]]]]];
        try discriminate.
      injection H as -> ->. apply Z.ltb_lt in Hm.
      split; [exact Hm | split; [now rewrite Hcards | split]].
      * split.
        -- destruct cards; [congruence | simpl; lia].
        -- rewrite <- sorted_keys_length. apply cards_length_le.
      * exists (sorted_keys g). split; [apply sorted_keys_nodup|].
        split; [intros k; apply sorted_keys_spec|].
        symmetry. apply sorted_keys_length.
    + apply rest_blocks in Hin.
      destruct Hin as [[H _] | [[H _] | H]]; discriminate.
Qed.

(** * The job-script generator *)

(** ** The checks of the form *)

Lemma truthy_false (s : string) : SlurmScript.truthy s = false <-> s = EmptyString.
Proof. destruct s; simpl; split; congruence. Qed.

Lemma missing_blank (s : string) : SlurmScript.missing s = true <-> blank s.
Proof.
  unfold SlurmScript.missing, blank.
  rewrite orb_true_iff, !negb_true_iff, !truthy_false.
  split; [|now right]. intros [-> | H]; [reflexivity | exact H].
Qed.

Lemma filled_missing (s : string) :
  SlurmScript.filled s = negb (SlurmScript.missing s).
Proof.
  unfold SlurmScript.filled, SlurmScript.missing.
  now rewrite negb_orb, !negb_involutive.
Qed.

Lemma filled_not_blank (s : string) : SlurmScript.filled s = true <-> ~ blank s.
Proof.
  rewrite filled_missing, <- missing_blank, negb_true_iff.
  destruct (SlurmScript.missing s); split; congruence.
Qed.

Lemma any_digit_spec (s : string) :
  SlurmScript.any_digit s = true <-> has_digit s.
Proof.
  unfold has_digit. induction s as [|c s IH]; simpl.
  - split; [discriminate | intros [c [[] _]]].
  - rewrite orb_true_iff, IH. split.
    + intros [H | [d [Hd Hdig]]]; [exists c; now split; [left|]|].
      exists d. split; [now right | exact Hdig].
    + intros [d [[<- | Hd] Hdig]]; [now left|]. right. now exists d.
Qed.

Lemma walltime_errors_nil (w : string) :
  SlurmScript.walltime_errors w = [] <-> valid_walltime w.
Proof.
  unfold SlurmScript.walltime_errors, valid_walltime.
  destruct w as [|c w]; cbn [SlurmScript.truthy negb].
  - split; [discriminate|]. intros [h [m [s [H _]]]]. discriminate.
  - set (parts := PyStr.split_on ":" (String c w)).
    destruct parts as [|p0 [|p1 [|p2 [|p3 parts]]]]; cbn [List.length Nat.eqb negb].
    1-3, 5: split; [discriminate | intros [h [m [s [H _]]]]; discriminate].
    cbn [nth map].
    destruct (PyStr.int p0) as [h|], (PyStr.int p1) as [m|],
             (PyStr.int p2) as [s|];
      try (split; [discriminate | intros [h' [m' [s' [H _]]]]; discriminate]).
    destruct (Z.ltb_spec h 0), (Z.ltb_spec m 0), (Z.leb_spec 60 m),
             (Z.ltb_spec s 0), (Z.leb_spec 60 s); cbn [orb];
      split; try discriminate; try reflexivity;
      try (intros [h' [m' [s' [Heq Hr]]]]; injection Heq as <- <- <-; lia).
    intros _. exists h, m, s. split; [reflexivity | lia].
Qed.

Lemma app_nil_iff (A : Type) (l1 l2 : list A) :
  l1 ++ l2 = [] <-> l1 = [] /\ l2 = [].
Proof.
  split; [apply app_eq_nil | intros [-> ->]; reflexivity].
Qed.

Lemma if_single_nil (A : Type) (cond : bool) (x : A) :
  (if cond then [x] else []) = [] <-> cond = false.
Proof. destruct cond; split; congruence. Qed.

(** When the list [errors] is empty. *)
Lemma errors_of_nil (f : SlurmScript.form) :
  SlurmScript.errors_of f = []
  <-> ~ blank (SlurmScript.job_name f)
      /\ ~ blank (SlurmScript.program_file f)
      /\ valid_walltime (SlurmScript.walltime f)
      /\ 1 <= SlurmScript.nodes f
      /\ (blank (SlurmScript.array_indices f)
          \/ has_digit (SlurmScript.array_indices f))
      /\ (SlurmScript.dependency_type f = "None"
          \/ ~ blank (SlurmScript.dependency_job_ids f)).
Proof.
  unfold SlurmScript.errors_of.
  rewrite !app_nil_iff, !if_single_nil, walltime_errors_nil.
  rewrite <- !filled_not_blank, !filled_missing, !negb_true_iff.
  rewrite Z.ltb_ge.
  assert (Harr : (if negb (SlurmScript.missing (SlurmScript.array_indices f))
                  then if negb (SlurmScript.any_digit (SlurmScript.array_indices f))
                       then ["Array indices must contain numbers"] else []
                  else []) = []
                 <-> blank (SlurmScript.array_indices f)
                     \/ has_digit (SlurmScript.array_indices f)).
  { rewrite <- missing_blank, <- any_digit_spec.
    destruct (SlurmScript.missing (SlurmScript.array_indices f)),
             (SlurmScript.any_digit (SlurmScript.array_indices f));
      cbn [negb]; split; try tauto; try discriminate;
      intros [H | H]; discriminate. }
  rewrite Harr.
  assert (Hdep : negb (String.eqb (SlurmScript.dependency_type f) "None")
                 && SlurmScript.missing (SlurmScript.dependency_job_ids f)
                 = false
                 <-> SlurmScript.dependency_type f = "None"
                     \/ SlurmScript.missing (SlurmScript.dependency_job_ids f)
                        = false).
  { rewrite andb_false_iff, negb_false_iff, String.eqb_eq. tauto. }
  rewrite Hdep. tauto.
Qed.

(** X15: the generator returns a script exactly when the job name and
    the program are not blank, the wall time is three [:]-separated integers
    with hours not negative and minutes and seconds from 0 to 59, there is at
    least one node, the array indices are blank or contain a digit, and a
    dependency type other than "None" comes with job ids that are not blank.
    Warnings never stand in the way, and nothing else is checked: not the
    shape of the array indices, nor an upper bound on the hours. *)
Theorem script_generated_iff (f : SlurmScript.form) :
  (exists chunks, SlurmScript.generate_slurm_script f = SlurmScript.Script chunks)
  <-> ~ blank (SlurmScript.job_name f)
      /\ ~ blank (SlurmScript.program_file f)
      /\ valid_walltime (SlurmScript.walltime f)
      /\ 1 <= SlurmScript.nodes f
      /\ (blank (SlurmScript.array_indices f)
          \/ has_digit (SlurmScript.array_indices f))
      /\ (SlurmScript.dependency_type f = "None"
          \/ ~ blank (SlurmScript.dependency_job_ids f)).
Proof.
  rewrite <- errors_of_nil. unfold SlurmScript.generate_slurm_script.
  destruct (SlurmScript.errors_of f) as [|e errors]; split.
  - reflexivity.
  - intros _. eexists. reflexivity.
  - intros [chunks H]. discriminate.
  - discriminate.
Qed.

(** ** The directives of the script *)

Lemma has_directive_app (key : string) (l1 l2 : list SlurmScript.chunk) :
  has_directive key (l1 ++ l2) = has_directive key l1 || has_directive key l2.
Proof. apply existsb_app. Qed.

Lemma has_directive_warning_block (key : string) (warnings : list string) :
  has_directive key (SlurmScript.warning_block warnings) = false.
Proof.
  unfold SlurmScript.warning_block. destruct warnings as [|w ws]; [reflexivity|].
  unfold has_directive. cbn [existsb orb]. rewrite existsb_app.
  cbn [existsb]. rewrite orb_false_r.
  assert (H : forall l, existsb
                (fun c => match c with
                          | SlurmScript.Text s =>
                              PyStr.starts_with ("#SBATCH --" ++ key ++ "=") s
                          | _ => false
                          end) (map SlurmScript.WarningItem l) = false)
    by (induction l as [|x l IH]; simpl; [reflexivity | exact IH]).
  rewrite (H (w :: ws)). reflexivity.
Qed.

Lemma has_directive_epilogue (key : string) :
  has_directive key SlurmScript.epilogue = false.
Proof. reflexivity. Qed.

Lemma has_directive_command (key : string) (f : SlurmScript.form) :
  has_directive key [SlurmScript.Text (SlurmScript.command f)] = false.
Proof.
  unfold has_directive, SlurmScript.command. cbn [existsb].
  now destruct (PyStr.starts_with "./" (SlurmScript.program_file f)
                || PyStr.starts_with "/" (SlurmScript.program_file f)).
Qed.

(** Outside the block of directives no chunk is a directive. *)
Lemma has_directive_script (key : string) (f : SlurmScript.form)
      (chunks : list SlurmScript.chunk) :
  SlurmScript.generate_slurm_script f = SlurmScript.Script chunks ->
  has_directive key chunks = has_directive key (SlurmScript.directives f).
Proof.
  unfold SlurmScript.generate_slurm_script.
  destruct (SlurmScript.errors_of f); [|discriminate].
  intros [= <-].
  cbn [app].
  change (has_directive key
            ([SlurmScript.Text "#!/bin/bash"; SlurmScript.Text "";
              SlurmScript.Text "# Slurm job script generated by GUI"]
             ++ SlurmScript.warning_block (SlurmScript.warnings_of f)
             ++ [SlurmScript.Text ""]
             ++ SlurmScript.directives f
             ++ SlurmScript.epilogue
             ++ [SlurmScript.Text (SlurmScript.command f)])
          = has_directive key (SlurmScript.directives f)).
  rewrite !has_directive_app, has_directive_warning_block,
    has_directive_epilogue, has_directive_command.
  cbn [has_directive existsb orb].
  now rewrite !orb_false_r.
Qed.

Lemma existsb_if (A : Type) (p : A -> bool) (c : bool) (l1 l2 : list A) :
  existsb p (if c then l1 else l2) = if c then existsb p l1 else existsb p l2.
Proof. now destruct c. Qed.

Lemma if_same (A : Type) (c : bool) (x : A) : (if c then x else x) = x.
Proof. now destruct c. Qed.

Lemma if_true_false (c : bool) : (if c then true else false) = c.
Proof. now destruct c. Qed.

Ltac directive_present :=
  unfold has_directive, SlurmScript.directives, SlurmScript.directive;
  rewrite ?existsb_app, ?existsb_if;
  cbn [existsb PyStr.starts_with String.append Ascii.eqb Bool.eqb andb orb];
  rewrite ?existsb_if;
  cbn [existsb PyStr.starts_with String.append Ascii.eqb Bool.eqb andb orb];
  rewrite ?if_same, ?if_true_false, ?orb_false_r, ?orb_false_l;
  try reflexivity.

(** X16: in a generated script the directives for the job name, the
    time, the nodes and the output file are always present, and each other
    directive is present exactly under its own condition: [--error] unless
    the outputs are combined, [--gres] for a positive number of GPUs,
    [--partition] for a partition other than "Default", [--mail-user] only
    together with a mail type other than "None", and so on.  In particular
    GPUs requested with the "Default" partition still give a script with
    [--gres] and no [--partition] line. *)
Theorem directives_present
    (f : SlurmScript.form) (chunks : list SlurmScript.chunk) :
  SlurmScript.generate_slurm_script f = SlurmScript.Script chunks ->
  has_directive "job-name" chunks = true
  /\ has_directive "time" chunks = true
  /\ has_directive "nodes" chunks = true
  /\ has_directive "output" chunks = true
  /\ has_directive "error" chunks = negb (SlurmScript.combine_output f)
  /\ has_directive "account" chunks = SlurmScript.filled (SlurmScript.account f)
  /\ has_directive "partition" chunks
     = SlurmScript.truthy (SlurmScript.partition f)
       && negb (String.eqb (SlurmScript.partition f) "Default")
  /\ has_directive "ntasks-per-node" chunks = (0 <? SlurmScript.ntasks_per_node f)
  /\ has_directive "cpus-per-task" chunks = (0 <? SlurmScript.cpus_per_task f)
  /\ has_directive "mem" chunks
     = SlurmScript.truthy (SlurmScript.memory f)
       && negb (String.eqb (SlurmScript.memory f) "Default")
  /\ has_directive "gres" chunks = (0 <? SlurmScript.gpu_count f)
  /\ has_directive "array" chunks = SlurmScript.filled (SlurmScript.array_indices f)
  /\ has_directive "dependency" chunks
     = negb (String.eqb (SlurmScript.dependency_type f) "None")
  /\ has_directive "mail-type" chunks
     = negb (String.eqb (SlurmScript.mail_type f) "None")
  /\ has_directive "mail-user" chunks
     = negb (String.eqb (SlurmScript.mail_type f) "None")
       && SlurmScript.filled (SlurmScript.mail_user f)
  /\ has_directive "export" chunks
     = negb (String.eqb (SlurmScript.export_env f) "Default")
  /\ has_directive "nodelist" chunks = SlurmScript.filled (SlurmScript.nodelist f)
  /\ has_directive "signal" chunks = (0 <? SlurmScript.signal_time f).
Proof.
  intros H.
  assert (Hdep : negb (String.eqb (SlurmScript.dependency_type f) "None")
                 && SlurmScript.filled (SlurmScript.dependency_job_ids f)
                 = negb (String.eqb (SlurmScript.dependency_type f) "None")).
  { assert (He : SlurmScript.errors_of f = []).
    { unfold SlurmScript.generate_slurm_script in H.
      now destruct (SlurmScript.errors_of f). }
    apply errors_of_nil in He.
    destruct He as [_ [_ [_ [_ [_ [Hd | Hd]]]]]].
    - rewrite Hd. reflexivity.
    - apply filled_not_blank in Hd. rewrite Hd. apply andb_true_r. }
  rewrite !(has_directive_script _ f chunks H).
  repeat split; directive_present.
  exact Hdep.
Qed.

Lemma directives_present_witness :
  exists chunks,
    SlurmScript.generate_slurm_script gpu_job = SlurmScript.Script chunks
    /\ has_directive "gres" chunks = true
    /\ has_directive "partition" chunks = false.
Proof.
  eexists. split; [reflexivity|].
  split.
  - etransitivity;
      [apply (directives_present gpu_job _ eq_refl) | reflexivity].
  - etransitivity;
      [apply (directives_present gpu_job _ eq_refl) | reflexivity].
Defined.

(** ** The messages of the form check *)

Lemma reports_iff (f : SlurmScript.form) (msg : string) :
  reports (SlurmScript.generate_slurm_script f) msg
  <-> In msg (SlurmScript.errors_of f).
Proof.
  unfold SlurmScript.generate_slurm_script.
  destruct (SlurmScript.errors_of f); simpl; tauto.
Qed.

Lemma in_if_single (A : Type) (cond : bool) (x y : A) :
  In y (if cond then [x] else []) <-> cond = true /\ y = x.
Proof.
  destruct cond; simpl; split.
  - intros [H | []]. now split.
  - intros [_ ->]. now left.
  - intros [].
  - intros [H _]. discriminate.
Qed.

(** The wall time check appends nothing or one of its four messages. *)
Lemma walltime_errors_cases (w : string) :
  SlurmScript.walltime_errors w = []
  \/ (w = EmptyString
      /\ SlurmScript.walltime_errors w = ["Wall Time is required"])
  \/ (w <> EmptyString
      /\ (SlurmScript.walltime_errors w
          = ["Wall Time must be in HH:MM:SS format"]
          \/ SlurmScript.walltime_errors w
             = ["Invalid time values in Wall Time"]
          \/ SlurmScript.walltime_errors w
             = ["Wall Time must contain only numbers and colons (HH:MM:SS)"])).
Proof.
  unfold SlurmScript.walltime_errors.
  destruct w as [|c w]; cbn [SlurmScript.truthy negb].
  - right. left. now split.
  - destruct (negb (List.length (PyStr.split_on ":" (String c w)) =? 3)%nat).
    + right. right. split; [discriminate | now left].
    + destruct (PyStr.int (nth 0 (PyStr.split_on ":" (String c w)) ""))
        as [h|];
        [|right; right; split; [discriminate | now right; right]].
      destruct (PyStr.int (nth 1 (PyStr.split_on ":" (String c w)) ""))
        as [m|];
        [|right; right; split; [discriminate | now right; right]].
      destruct (PyStr.int (nth 2 (PyStr.split_on ":" (String c w)) ""))
        as [s|];
        [|right; right; split; [discriminate | now right; right]].
      destruct ((h <? 0) || (m <? 0) || (60 <=? m) || (s <? 0) || (60 <=? s)).
      * right. right. split; [discriminate | now right; left].
      * now left.
Qed.

Lemma errors_of_in (f : SlurmScript.form) (x : string) :
  In x (SlurmScript.errors_of f)
  <-> (SlurmScript.missing (SlurmScript.job_name f) = true
       /\ x = "Job Name is required")
      \/ (SlurmScript.missing (SlurmScript.program_file f) = true
          /\ x = "Program/Script to Run is required")
      \/ In x (SlurmScript.walltime_errors (SlurmScript.walltime f))
      \/ ((SlurmScript.nodes f <? 1) = true
          /\ x = "Number of nodes must be at least 1")
      \/ (SlurmScript.filled (SlurmScript.array_indices f) = true
          /\ SlurmScript.any_digit (SlurmScript.array_indices f) = false
          /\ x = "Array indices must contain numbers")
      \/ (negb (String.eqb (SlurmScript.dependency_type f) "None")
          && SlurmScript.missing (SlurmScript.dependency_job_ids f) = true
          /\ x = "Dependency Job IDs required when dependency type is selected").
Proof.
  unfold SlurmScript.errors_of.
  rewrite !in_app_iff, !in_if_single.
  assert (Harr : In x (if SlurmScript.filled (SlurmScript.array_indices f)
                       then if negb (SlurmScript.any_digit
                                       (SlurmScript.array_indices f))
                            then ["Array indices must contain numbers"]
                            else []
                       else [])
                 <-> SlurmScript.filled (SlurmScript.array_indices f) = true
                     /\ SlurmScript.any_digit (SlurmScript.array_indices f)
                        = false
                     /\ x = "Array indices must contain numbers").
  { destruct (SlurmScript.filled (SlurmScript.array_indices f)),
             (SlurmScript.any_digit (SlurmScript.array_indices f));
      simpl; split; try tauto; try (intros [H _]; discriminate);
      try (intros [_ [H _]]; discriminate).
    - intros [H | []]. now repeat split.
    - intros [_ [_ ->]]. now left. }
  rewrite Harr. tauto.
Qed.

(** Equalities between closed messages, or closed lists of them, are
    replaced by their truth values. *)
Ltac decide_messages :=
  repeat match goal with
         | |- context [@eq ?T ?a ?b] =>
             let H := fresh in
             first
               [ assert (H : a = b <-> True)
                   by (split; [trivial | intros _; reflexivity])
               | assert (H : a = b <-> False)
                   by (split; [discriminate | intros []]) ];
             rewrite H; clear H
         end.

Lemma in_existsb_eqb (x : string) (l : list string) :
  In x l <-> existsb (String.eqb x) l = true.
Proof.
  rewrite existsb_exists. split.
  - intros H. exists x. split; [exact H | apply String.eqb_refl].
  - intros [y [Hy He]]. apply String.eqb_eq in He. now subst y.
Qed.

Ltac message_present :=
  rewrite ?existsb_app, ?existsb_if;
  cbn [existsb String.eqb Ascii.eqb Bool.eqb andb orb];
  rewrite ?existsb_if;
  cbn [existsb String.eqb Ascii.eqb Bool.eqb andb orb];
  rewrite ?if_same, ?if_true_false, ?orb_false_r, ?orb_false_l.

(** X17: a refusal lists every failed check of the form, each one
    exactly under its own condition: a blank job name, a blank program, an
    empty wall time, a wall time that is not an accepted [HH:MM:SS] (one of
    the four wall time messages), fewer than one node, array indices that
    are filled in but hold no digit, a dependency type chosen with blank job
    identifiers. *)
Theorem errors_reported (f : SlurmScript.form) :
  let o := SlurmScript.generate_slurm_script f in
  (reports o "Job Name is required" <-> blank (SlurmScript.job_name f))
  /\ (reports o "Program/Script to Run is required"
      <-> blank (SlurmScript.program_file f))
  /\ (reports o "Wall Time is required"
      <-> SlurmScript.walltime f = EmptyString)
  /\ (reports o "Wall Time is required"
      \/ reports o "Wall Time must be in HH:MM:SS format"
      \/ reports o "Invalid time values in Wall Time"
      \/ reports o "Wall Time must contain only numbers and colons (HH:MM:SS)"
      <-> ~ valid_walltime (SlurmScript.walltime f))
  /\ (reports o "Number of nodes must be at least 1"
      <-> SlurmScript.nodes f < 1)
  /\ (reports o "Array indices must contain numbers"
      <-> ~ blank (SlurmScript.array_indices f)
          /\ ~ has_digit (SlurmScript.array_indices f))
  /\ (reports o "Dependency Job IDs required when dependency type is selected"
      <-> SlurmScript.dependency_type f <> "None"
          /\ blank (SlurmScript.dependency_job_ids f)).
Proof.
  cbv zeta.
  rewrite !reports_iff, !in_existsb_eqb.
  rewrite <- filled_not_blank, <- !missing_blank, <- any_digit_spec,
    <- walltime_errors_nil, not_true_iff_false.
  unfold SlurmScript.errors_of.
  pose proof (walltime_errors_cases (SlurmScript.walltime f)) as Hw.
  destruct Hw as [Hw | [[He Hw] | [Hne [Hw | [Hw | Hw]]]]]; rewrite Hw;
    repeat apply conj; message_present.
  all: try (rewrite andb_true_iff, negb_true_iff, String.eqb_neq).
  all: try tauto.
  all: try (rewrite Z.ltb_lt; tauto).
  all: try solve [intros; discriminate].
  all: try solve [intros Hx; rewrite Hx in Hw; discriminate].
  all: try solve [intros; congruence].
  all: try solve [intros [H|[H|[H|H]]]; discriminate].
  all: try solve [intros; auto].
  all: try solve [destruct (SlurmScript.filled (SlurmScript.array_indices f)),
                    (SlurmScript.any_digit (SlurmScript.array_indices f));
                  cbn [negb]; intuition congruence].
Qed.

Lemma ends_with_spec (e s : string) :
  SlurmScript.ends_with e s = true
  <-> exists before, s = (before ++ e)%string.
Proof.
  induction s as [|c s IH]; cbn [SlurmScript.ends_with].
  - rewrite orb_false_r, String.eqb_eq. split.
    + intros ->. now exists EmptyString.
    + intros [[|b before] H]; simpl in H; [now symmetry | discriminate].
  - rewrite orb_true_iff, String.eqb_eq, IH. split.
    + intros [-> | [before ->]].
      * now exists EmptyString.
      * now exists (String c before).
    + intros [[|b before] H]; simpl in H.
      * left. now symmetry.
      * right. injection H as _ ->. now exists before.
Qed.

Lemma runnable_name_spec (s : string) :
  existsb (fun e => SlurmScript.ends_with e s) SlurmScript.common_extensions
  || (PyStr.starts_with "./" s || PyStr.starts_with "/" s) = true
  <-> runnable_name s.
Proof.
  unfold runnable_name.
  rewrite !orb_true_iff, existsb_exists, !starts_with_spec.
  assert (H : (exists e, In e SlurmScript.common_extensions
                         /\ SlurmScript.ends_with e s = true)
              <-> (exists e before, In e SlurmScript.common_extensions
                                    /\ s = (before ++ e)%string)).
  { split.
    - intros [e [Hin He]]. apply ends_with_spec in He.
      destruct He as [before He]. now exists e, before.
    - intros [e [before [Hin He]]]. exists e. split; [exact Hin|].
      apply ends_with_spec. now exists before. }
  rewrite H. tauto.
Qed.

Lemma item_in (msg : string) (l : list SlurmScript.chunk) :
  In (SlurmScript.WarningItem msg) l -> existsb is_item l = true.
Proof.
  intros H. apply existsb_exists. now exists (SlurmScript.WarningItem msg).
Qed.

Lemma directives_no_item (f : SlurmScript.form) :
  existsb is_item (SlurmScript.directives f) = false.
Proof.
  unfold SlurmScript.directives, SlurmScript.directive.
  rewrite ?existsb_app, ?existsb_if.
  cbn [existsb is_item orb].
  rewrite ?existsb_if.
  cbn [existsb is_item orb].
  now rewrite ?if_same.
Qed.

Lemma warning_block_in (msg : string) (warnings : list string) :
  In (SlurmScript.WarningItem msg) (SlurmScript.warning_block warnings)
  <-> In msg warnings.
Proof.
  unfold SlurmScript.warning_block.
  destruct warnings as [|w ws]; [tauto|].
  cbn [In]. rewrite in_app_iff, in_map_iff. cbn [In]. split.
  - intros [H | [[x [Hx Hin]] | [H | []]]]; try discriminate.
    injection Hx as ->. exact Hin.
  - intros H. right. left. now exists msg.
Qed.

Lemma warns_iff (f : SlurmScript.form) (msg : string) :
  warns (SlurmScript.generate_slurm_script f) msg
  <-> In msg (SlurmScript.warnings_of f).
Proof.
  unfold SlurmScript.generate_slurm_script.
  destruct (SlurmScript.errors_of f); [|simpl; tauto].
  unfold warns. rewrite !in_app_iff, warning_block_in. split.
  - intros [H | [H | [H | [H | [H | H]]]]]; try exact H.
    + cbn [In] in H. decompose [or] H; try discriminate; contradiction.
    + destruct H as [H | []]. discriminate.
    + apply item_in in H. rewrite directives_no_item in H. discriminate.
    + apply item_in in H. discriminate.
    + destruct H as [H | []]. discriminate.
  - intros H. right. now left.
Qed.

Lemma warnings_of_in (f : SlurmScript.form) (x : string) :
  In x (SlurmScript.warnings_of f)
  <-> (SlurmScript.missing (SlurmScript.job_name f) = false
       /\ (64 <? String.length (PyStr.strip (SlurmScript.job_name f)))%nat
          = true
       /\ x = "Job Name is longer than 64 characters (may be truncated)")
      \/ (SlurmScript.missing (SlurmScript.program_file f) = false
          /\ existsb (fun e => SlurmScript.ends_with e
                                 (PyStr.strip (SlurmScript.program_file f)))
               SlurmScript.common_extensions
             || (PyStr.starts_with "./"
                   (PyStr.strip (SlurmScript.program_file f))
                 || PyStr.starts_with "/"
                      (PyStr.strip (SlurmScript.program_file f))) = false
          /\ x = "Program file doesn't have a common extension - ensure it's executable")
      \/ ((0 <? SlurmScript.gpu_count f)
          && (negb (SlurmScript.truthy (SlurmScript.partition f))
              || String.eqb (SlurmScript.partition f) "Default") = true
          /\ x = "GPU requested but no GPU partition selected")
      \/ (negb (String.eqb (SlurmScript.mail_type f) "None")
          && SlurmScript.missing (SlurmScript.mail_user f) = true
          /\ x = "Email address recommended when email notifications are enabled").
Proof.
  unfold SlurmScript.warnings_of.
  rewrite !in_app_iff, !in_if_single. cbv zeta.
  destruct (SlurmScript.missing (SlurmScript.job_name f)),
           (SlurmScript.missing (SlurmScript.program_file f)),
           (64 <? String.length (PyStr.strip (SlurmScript.job_name f)))%nat,
           (existsb (fun e => SlurmScript.ends_with e
                                (PyStr.strip (SlurmScript.program_file f)))
              SlurmScript.common_extensions
            || (PyStr.starts_with "./"
                  (PyStr.strip (SlurmScript.program_file f))
                || PyStr.starts_with "/"
                     (PyStr.strip (SlurmScript.program_file f))));
    cbn [negb In]; split; intros H; decompose [and or] H; clear H;
    try discriminate; try contradiction; subst; tauto.
Qed.

(** X18: the warnings never stand in the way of a script, and the same
    warnings are given whether the form is refused or not, each one exactly
    under its own condition: a job name of more than 64 characters once
    stripped; a program that is not blank and whose stripped name neither
    ends with a common extension nor starts as a path; GPUs requested with
    the partition empty or left at "Default"; a mail type chosen with a
    blank address. *)
Theorem warnings_given (f : SlurmScript.form) :
  let o := SlurmScript.generate_slurm_script f in
  (warns o "Job Name is longer than 64 characters (may be truncated)"
   <-> (64 < String.length (PyStr.strip (SlurmScript.job_name f)))%nat)
  /\ (warns o "Program file doesn't have a common extension - ensure it's executable"
      <-> ~ blank (SlurmScript.program_file f)
          /\ ~ runnable_name (PyStr.strip (SlurmScript.program_file f)))
  /\ (warns o "GPU requested but no GPU partition selected"
      <-> 0 < SlurmScript.gpu_count f
          /\ (SlurmScript.partition f = EmptyString
              \/ SlurmScript.partition f = "Default"))
  /\ (warns o "Email address recommended when email notifications are enabled"
      <-> SlurmScript.mail_type f <> "None"
          /\ blank (SlurmScript.mail_user f)).
Proof.
  cbv zeta.
  rewrite !warns_iff, !warnings_of_in.
  rewrite <- runnable_name_spec, <- !missing_blank.
  rewrite !not_true_iff_false.
  rewrite !andb_true_iff, orb_true_iff, !negb_true_iff, truthy_false,
    Z.ltb_lt, Nat.ltb_lt, String.eqb_eq, <- String.eqb_neq.
  assert (Hjob : SlurmScript.missing (SlurmScript.job_name f) = true ->
                 (64 < String.length (PyStr.strip (SlurmScript.job_name f)))%nat
                 -> False).
  { intros H%missing_blank. unfold blank in H. rewrite H. simpl. lia. }
  destruct (SlurmScript.missing (SlurmScript.job_name f));
    decide_messages; tauto.
Qed.

(** ** The colours of a progress bar *)

Lemma number_geb_40 (p : number) (n : Z) :
  n = 70 \/ n = 90 -> number_geb p n = true -> number_geb p 40 = true.
Proof.
  intros Hn. destruct p as [z|f]; cbn [number_geb].
  - rewrite !Z.leb_le. lia.
  - set (c := float_of_int 40). vm_compute in c. subst c.
    destruct Hn as [-> | ->];
      [set (c := float_of_int 70) | set (c := float_of_int 90)];
      vm_compute in c; subst c;
      (destruct f as [s|s| |s m e]; try (vm_compute; congruence));
      unfold SFleb, SFcompare; (destruct s; [discriminate|]).
    + destruct (Z.compare_spec (-46) e) as [He|He|He]; try discriminate.
      * subst e. reflexivity.
      * intros _. destruct (Z.compare_spec (-47) e); try lia; reflexivity.
    + destruct (Z.compare_spec (-46) e) as [He|He|He]; try discriminate.
      * subst e. reflexivity.
      * intros _. destruct (Z.compare_spec (-47) e); try lia; reflexivity.
Qed.

(** X19: the colours of a bar depend on two thresholds only: red from
    90 percent on, orange from 40 percent up to 90, green below 40; the test
    against 70 changes nothing.  A bar over a total of zero is green at 0
    percent whatever is used, and so is a bar with nothing used. *)
Theorem progress_bar_colours (used total : Z) (b : progress_bar) :
  create_progress_bar used total = inr b ->
  (number_geb (pb_percentage b) 90 = true ->
   pb_bar_color b = "#EF5350" /\ pb_bg_color b = "#FFCDD2")
  /\ (number_geb (pb_percentage b) 90 = false ->
      number_geb (pb_percentage b) 40 = true ->
      pb_bar_color b = "#FFA726" /\ pb_bg_color b = "#FFE0B2")
  /\ (number_geb (pb_percentage b) 40 = false ->
      pb_bar_color b = "#66BB6A" /\ pb_bg_color b = "#C8E6C9")
  /\ (total = 0 \/ used = 0 ->
      number_geb (pb_percentage b) 40 = false)
  /\ pb_available b = total - used.
Proof.
  unfold create_progress_bar.
  set (percentage := if total =? 0 then inr (PyInt 0) else _).
  assert (Hzero : total = 0 \/ used = 0 ->
                  forall p, percentage = inr p -> number_geb p 40 = false).
  { intros Hz p. subst percentage.
    destruct (Z.eqb_spec total 0) as [Ht|Ht].
    - intros [= <-]. reflexivity.
    - destruct Hz as [Hz|Hz]; [contradiction|]. subst used.
      unfold true_divide. destruct (Z.eqb_spec total 0); [contradiction|].
      destruct total as [|t|t]; [contradiction| |];
        cbn [int_operand SFdiv xorb]; intros [= <-]; reflexivity. }
  destruct percentage as [e|p]; [discriminate|].
  specialize (fun H => Hzero H p eq_refl).
  pose proof (number_geb_40 p 70 (or_introl eq_refl)) as H70.
  pose proof (number_geb_40 p 90 (or_intror eq_refl)) as H90.
  destruct (first_raise [format_int used; format_int total;
                         format_int (total - used)]);
    [now destruct (number_geb p 90), (number_geb p 70), (number_geb p 40)|].
  destruct (number_geb p 90) eqn:E90, (number_geb p 70) eqn:E70,
           (number_geb p 40) eqn:E40;
    intros [= <-]; cbn [pb_percentage pb_bar_color pb_bg_color pb_available];
    rewrite ?E90, ?E40;
    repeat split; try congruence; try (intros; exact (Hzero ltac:(assumption)));
    try (specialize (H70 eq_refl); discriminate);
    try (specialize (H90 eq_refl); discriminate).
Qed.

Lemma progress_bar_colours_witness :
  exists b, create_progress_bar 9 10 = inr b
            /\ pb_bar_color b = "#EF5350" /\ pb_bg_color b = "#FFCDD2".
Proof.
  assert (H : exists b, create_progress_bar 9 10 = inr b
                        /\ number_geb (pb_percentage b) 90 = true).
  { eexists. split; [vm_compute; reflexivity | vm_compute; reflexivity]. }
  destruct H as [b [Hb H90]]. exists b. split; [exact Hb|].
  exact (proj1 (progress_bar_colours 9 10 b Hb) H90).
Defined.

(** * The ranking of the page *)

Section SortMap.
Context {A B K : Type} (f : A -> B) (key : B -> K) (ltb : K -> K -> bool).

Lemma insert_desc_map (x : A) (l : list A) :
  insert_desc key ltb (f x) (map f l)
  = map f (insert_desc (fun a => key (f a)) ltb x l).
Proof.
  induction l as [|y l IH]; simpl; [reflexivity|].
  destruct (ltb (key (f x)) (key (f y))); simpl; [now rewrite IH | reflexivity].
Qed.

Lemma sort_reverse_map (l : list A) :
  sort_reverse key ltb (map f l)
  = map f (sort_reverse (fun a => key (f a)) ltb l).
Proof.
  induction l as [|x l IH]; simpl; [reflexivity|].
  unfold sort_reverse in *. cbn [fold_right]. rewrite IH.
  apply insert_desc_map.
Qed.

Lemma filter_map_comm (p : B -> bool) (l : list A) :
  filter p (map f l) = map f (filter (fun a => p (f a)) l).
Proof.
  induction l as [|x l IH]; simpl; [reflexivity|].
  destruct (p (f x)); simpl; now rewrite IH.
Qed.
End SortMap.

Lemma same_key_eqb (A : Type) (key : A -> Z * Z) (k : Z * Z) (x : A) :
  same_key key pair_ltb k x = key_eqb (key x) k.
Proof.
  unfold same_key, key_eqb, pair_ltb.
  destruct (key x) as [a b], k as [c d]. cbn [fst snd].
  destruct (Z.ltb_spec c a), (Z.ltb_spec a c), (Z.eqb_spec c a),
           (Z.eqb_spec a c), (Z.ltb_spec d b), (Z.ltb_spec b d),
           (Z.eqb_spec b d); cbn; try reflexivity; lia.
Qed.

(** Sorting by the rank key, then filtering: the survivors are ranked
    stably. *)
Lemma filter_sort_stably (q : partition -> bool) (l0 : list partition) :
  stably_ranked rank_key (filter q l0)
    (filter q (sort_reverse rank_key pair_ltb l0)).
Proof.
  assert (Hperm := sort_reverse_perm rank_key pair_ltb l0).
  split; [now apply Permutation_filter | split].
  - apply StronglySorted_filter.
    eapply StronglySorted_weaken;
      [|apply (sort_reverse_sorted rank_key pair_ltb
                 pair_ltb_asym pair_ltb_negtrans)].
    intros x y _ _ Hxy. now apply pair_ltb_false_ge.
  - intros k. rewrite !(filter_comm _ q). f_equal.
    rewrite (filter_ext _ (same_key rank_key pair_ltb k))
      by (intros x; symmetry; apply same_key_eqb).
    rewrite (sort_reverse_stable rank_key pair_ltb pair_ltb_negtrans).
    apply filter_ext. intros x. apply same_key_eqb.
Qed.

Lemma gpu_class_annotate (p : partition) :
  gpu_class (annotate p) = infer_gpu_memory (name p).
Proof.
  destruct (gpu_class (annotate p)) as [k|] eqn:E.
  - unfold gpu_class, annotate in E. cbn [gpu_memory] in E.
    destruct (infer_gpu_memory (name p)) as [m|]; [|discriminate].
    destruct (m =? 0); [discriminate | exact (eq_sym E)].
  - unfold gpu_class, annotate in E. cbn [gpu_memory] in E.
    destruct (infer_gpu_memory (name p)) as [m|] eqn:Em; [|reflexivity].
    destruct (Z.eqb_spec m 0) as [->|]; [|discriminate].
    exfalso. apply first_match_in in Em. destruct Em as [f Hf]. simpl in Hf.
    repeat (destruct Hf as [Hf | Hf]; [discriminate Hf|]).
    destruct Hf.
Qed.

Lemma class_is_annotate (k : Z) (p : partition) :
  class_is k (annotate p) = in_class k p.
Proof. unfold class_is, in_class. now rewrite gpu_class_annotate. Qed.

Lemma is_cpu_annotate (p : partition) :
  is_cpu (annotate p)
  = match infer_gpu_memory (name p) with Some _ => false | None => true end.
Proof. unfold is_cpu. now rewrite gpu_class_annotate. Qed.

Lemma map_part_annotate (l : list partition) : map part (map annotate l) = l.
Proof. induction l as [|p l IH]; simpl; [|rewrite IH]; reflexivity. Qed.

Lemma sort_partitions_annotate (l : list partition) :
  sort_partitions (map annotate l)
  = map annotate (sort_reverse rank_key pair_ltb l).
Proof.
  unfold sort_partitions.
  now rewrite (sort_reverse_map annotate sort_key pair_ltb l).
Qed.

(** The partitions of the sorted group of [k] that pass the filter, as
    partitions. *)
Lemma group_survivors (min_gpu_memory k : Z) (partitions : list partition) :
  map part
    (filter (passes min_gpu_memory k)
       (group_get k (sorted_groups (fst (categorize partitions)))))
  = filter (qualifies min_gpu_memory k)
      (sort_reverse rank_key pair_ltb (filter (in_class k) partitions)).
Proof.
  rewrite sorted_group_members, filter_map_comm.
  rewrite (filter_ext _ (in_class k)) by (intros p; apply class_is_annotate).
  rewrite sort_partitions_annotate, filter_map_comm, map_part_annotate.
  reflexivity.
Qed.

Lemma group_survivors_ranked (min_gpu_memory k : Z)
      (partitions : list partition) :
  stably_ranked rank_key (survivors min_gpu_memory k partitions)
    (map part
       (filter (passes min_gpu_memory k)
          (group_get k (sorted_groups (fst (categorize partitions)))))).
Proof.
  rewrite group_survivors. unfold survivors. rewrite <- filter_and.
  apply filter_sort_stably.
Qed.

Lemma cpu_ranked (partitions : list partition) :
  stably_ranked rank_key (compute_only partitions)
    (map part (sort_partitions (snd (categorize partitions)))).
Proof.
  rewrite sorted_cpu_members, filter_map_comm.
  rewrite (filter_ext _ _ (fun p => is_cpu_annotate p)).
  rewrite sort_partitions_annotate, map_part_annotate.
  pose proof (filter_sort_stably (fun _ => true) (compute_only partitions))
    as H.
  rewrite !filter_all in H. exact H.
Qed.

Lemma stably_ranked_nil (key : partition -> Z * Z)
      (candidates l : list partition) :
  stably_ranked key candidates l -> (l = [] <-> candidates = []).
Proof.
  intros [Hperm _]. split; intros ->.
  - now apply Permutation_nil.
  - now apply Permutation_nil, Permutation_sym.
Qed.

(** The rank key is the key of the specification on every partition with
    a positive total, and on every partition whose counters are counts. *)
Lemma rank_key_spec (p : partition) :
  0 < total_nodes p \/ nonneg_counts p -> rank_key p = spec_key p.
Proof.
  unfold rank_key, spec_key, available_units, nonneg_counts.
  destruct (Z.ltb_spec 0 (total_nodes p)); [reflexivity|].
  intros [H0 | H0]; [lia|]. f_equal. lia.
Qed.

(** C5, as amended: the page is the banner, then the cards, then the
    rest.  There is a card for exactly the capacity classes with at least
    one partition that survives the filter, in strictly descending order
    of per-card memory.  A card lists the survivors of its class, and the
    compute-only section, which comes after every card and is there
    whenever a partition is compute-only, lists the compute-only
    partitions: both in descending order of the key (availability score,
    idle nodes), partitions equal on both in aggregation order.  The
    availability score is [max(0, total - allocated - other)] for a
    partition with a positive total and 0 otherwise, which is the available
    units of the specification whenever the total is positive or no node
    counter is negative. *)
Theorem ranking_order (min_gpu_memory : Z) (partitions : list partition) :
  exists gpu_blocks rest : list block,
    render min_gpu_memory partitions = Banner :: gpu_blocks ++ rest
    /\ (forall l, ~ In (CpuSection l) gpu_blocks)
    /\ (forall c, ~ In (GpuCard c) rest)
    /\ StronglySorted (fun a b : Z => b < a)
         (map card_gpu_mem (cards_of gpu_blocks))
    /\ (forall k : Z,
          In k (map card_gpu_mem (cards_of gpu_blocks))
          <-> survivors min_gpu_memory k partitions <> [])
    /\ (forall c,
          In (GpuCard c) gpu_blocks ->
          stably_ranked rank_key
            (survivors min_gpu_memory (card_gpu_mem c) partitions)
            (map part (card_partitions c)))
    /\ (forall l,
          In (CpuSection l) rest ->
          stably_ranked rank_key (compute_only partitions) (map part l))
    /\ (compute_only partitions <> [] -> exists l, In (CpuSection l) rest)
    /\ (forall p : partition,
          0 < total_nodes p \/ nonneg_counts p -> rank_key p = spec_key p).
Proof.
  set (g := sorted_groups (fst (categorize partitions))).
  set (cpu := sort_partitions (snd (categorize partitions))).
  set (cards := fst (gpu_cards min_gpu_memory g (sorted_keys g))).
  set (results := snd (gpu_cards min_gpu_memory g (sorted_keys g))).
  exists (gpu_section min_gpu_memory g cards),
         (cpu_section cpu ++ table_section min_gpu_memory results ++ [Legend]).
  destruct (gpu_section_cards min_gpu_memory g) as [Hcards [_ [Hnocpu Hin]]].
  fold cards in Hcards, Hnocpu, Hin.
  assert (Hcardlist : cards = flat_map (card_for min_gpu_memory g) (sorted_keys g))
    by apply gpu_cards_fst.
  split; [apply render_unfold|].
  split; [exact Hnocpu|].
  split; [intros c; apply rest_has_no_card|].
  split; [|split; [|split; [|split; [|split]]]].
  - rewrite Hcards, Hcardlist. apply cards_descending.
    unfold g. rewrite sorted_keys_sorted_groups.
    apply sorted_keys_descending. unfold categorize.
    apply categorize_nodup. constructor.
  - intros k. rewrite Hcards, Hcardlist, in_map_iff.
    rewrite <- (stably_ranked_nil _ _ _
                  (group_survivors_ranked min_gpu_memory k partitions)).
    fold g. split.
    + intros [c [Hk Hc]]. apply in_flat_map in Hc.
      destruct Hc as [k' [_ Hc]].
      destruct (card_for_spec _ _ _ _ Hc) as [Hmem Hparts].
      destruct (card_for_not_empty _ _ _ _ Hc) as [Hne _].
      rewrite Hk in Hmem. subst k'. rewrite <- Hparts.
      intros Hnil. apply map_eq_nil in Hnil. contradiction.
    + intros Hne.
      destruct (filter (passes min_gpu_memory k) (group_get k g))
        as [|x l] eqn:E; [now contradiction Hne|].
      exists (make_card min_gpu_memory k (group_get k g) (x :: l)).
      split; [reflexivity|].
      apply in_flat_map. exists k. split.
      * assert (Hx : In x (filter (passes min_gpu_memory k) (group_get k g)))
          by (rewrite E; now left).
        apply filter_In in Hx. destruct Hx as [Hx _].
        unfold g in Hx. rewrite sorted_group_members in Hx.
        apply (Permutation_in _ (sort_reverse_perm _ _ _)) in Hx.
        apply filter_In in Hx. destruct Hx as [Hx Hclass].
        apply sorted_keys_spec. exists x. split; [exact Hx|].
        now apply class_is_iff.
      * unfold card_for. rewrite E. now left.
  - intros c Hc. apply Hin in Hc. rewrite Hcardlist in Hc.
    apply cards_in_keys in Hc. destruct Hc as [_ ->].
    apply group_survivors_ranked.
  - intros l Hl. apply rest_cpu_section in Hl. subst l.
    apply cpu_ranked.
  - intros Hne.
    assert (Hcpu : cpu <> []).
    { intros Hnil. apply Hne.
      apply (stably_ranked_nil _ _ _ (cpu_ranked partitions)).
      fold cpu. now rewrite Hnil. }
    exists cpu. apply in_or_app. left.
    unfold cpu_section. destruct cpu; [contradiction | now left].
  - apply rank_key_spec.
Qed.

(** C5 as the specification words it fails on counters that are not
    counts: of two partitions of the class of 40, the first has the key
    (3, 0) of the specification and the second (1, 0), yet the first has no
    node in total, its availability score is 0, and the card lists it
    second. *)
Lemma ranking_by_available_units_fails :
  ~ (forall (min_gpu_memory : Z) (partitions : list partition) (c : card),
       In (GpuCard c) (render min_gpu_memory partitions) ->
       StronglySorted (fun p q => key_ge (spec_key p) (spec_key q))
         (map part (card_partitions c))).
Proof.
  intros H.
  assert (Hc : exists c, In (GpuCard c) (render 0 odd_counts)
                         /\ map (fun x => name (part x)) (card_partitions c)
                            = ["a100-y"; "a100-x"]
                         /\ map (fun x => spec_key (part x)) (card_partitions c)
                            = [(1, 0); (3, 0)]).
  { eexists. split; [right; right; left; reflexivity|].
    split; reflexivity. }
  destruct Hc as [c [Hin [_ Hkeys]]].
  specialize (H 0 odd_counts c Hin).
  destruct (card_partitions c) as [|x [|y l]]; try discriminate Hkeys.
  cbn [map] in H, Hkeys.
  assert (Hx : spec_key (part x) = (1, 0)) by congruence.
  assert (Hy : spec_key (part y) = (3, 0)) by congruence.
  apply StronglySorted_inv in H. destruct H as [_ Hall].
  apply Forall_inv in Hall.
  rewrite Hx, Hy in Hall. unfold key_ge in Hall. cbn [fst snd] in Hall. lia.
Qed.

(** The two partitions are what the parser returns on a report with the
    row [a100-x -3/0/0/0 ...], and the page is built from it. *)
Example odd_counts_report :
  let stdout := String.concat (String "010" "")
                  ["HDR"; "a100-x -3/0/0/0 0/8/0/8 1 1:00:00 idle n1";
                   "a100-y 0/0/0/1 0/8/0/8 1 1:00:00 idle n2"] in
  get_detailed_partition_info (Completed 0 stdout) = Info odd_counts
  /\ get_available_resources 0 (Completed 0 stdout)
     = Summary (render 0 odd_counts).
Proof. split; vm_compute; reflexivity. Qed.

(** * The page builder and its exceptions *)

(** ** Floats from moderate integers *)

(** The quotient of two integers of either sign, below [2^1023] in
    magnitude, is a finite float. *)
Lemma SFdiv_signed_finite (sa sb : bool) (a b : positive) :
  Zpos a < 2 ^ 1023 * Zpos b ->
  is_finite (SFdiv 53 1024 (S754_finite sa a 0) (S754_finite sb b 0)) = true.
Proof.
  intros Hab. unfold SFdiv, SFdiv_core_binary.
  set (e' := Z.min (fexp 53 1024 (Zdigits2 (Zpos a) + 0 - (Zdigits2 (Zpos b) + 0)))
                   (0 - 0)).
  set (s := 0 - 0 - e').
  assert (Hs : 0 <= s) by (subst s e'; lia).
  set (m' := match s with
             | 0 => Zpos a
             | Zpos _ => Z.shiftl (Zpos a) s
             | Zneg _ => 0
             end).
  assert (Hm' : m' = Zpos a * 2 ^ s).
  { subst m'. destruct s as [|n|n] eqn:Es; [simpl; lia | | lia].
    now rewrite Z.shiftl_mul_pow2 by lia. }
  assert (Hq : fst (Z.div_eucl m' (Zpos b)) = m' / Zpos b) by reflexivity.
  destruct (Z.div_eucl m' (Zpos b)) as [q r]. cbn [fst] in Hq.
  assert (Hpow : 0 < 2 ^ s) by (apply Z.pow_pos_nonneg; lia).
  assert (Hq0 : 0 <= q)
    by (rewrite Hq; apply Z.div_pos; [rewrite Hm'|]; lia).
  assert (Hqlt : q < 2 ^ (1023 + s)).
  { rewrite Hq. apply Z.div_lt_upper_bound; [lia|].
    rewrite Hm', Z.pow_add_r by lia. nia. }
  apply binary_round_aux_finite; [exact Hq0 | subst e'; lia |].
  assert (Zdigits2 q <= 1023 + s) by (apply Zdigits2_le; lia).
  subst s. lia.
Qed.

(** Operands of either sign with a quotient below [2^1023] in magnitude
    divide without an exception. *)
Lemma true_divide_quiet (a b : Z) :
  b <> 0 -> Z.abs a < 2 ^ 1023 * Z.abs b ->
  exists q : spec_float, true_divide a b = inr q.
Proof.
  intros Hb Hab. unfold true_divide.
  destruct (Z.eqb_spec b 0) as [|_]; [contradiction|].
  destruct b as [|pb|pb]; [contradiction| |];
    (destruct a as [|pa|pa]; [eexists; reflexivity| |]);
    cbn [int_operand Z.abs] in *;
    match goal with
    | |- context [SFdiv 53 1024 (S754_finite ?sa ?a 0) (S754_finite ?sb ?b 0)] =>
        assert (Hfin := SFdiv_signed_finite sa sb a b Hab);
        destruct (SFdiv 53 1024 (S754_finite sa a 0) (S754_finite sb b 0));
        try discriminate Hfin; eexists; reflexivity
    end.
Qed.

(** What the division can raise. *)
Lemma true_divide_raises (a b : Z) (e : exn) :
  true_divide a b = inl e ->
  (b = 0 /\ e = ZeroDivisionError) \/ (b <> 0 /\ e = OverflowError).
Proof.
  unfold true_divide. destruct (Z.eqb_spec b 0) as [Hb|Hb].
  - intros [= <-]. now left.
  - destruct (SFdiv 53 1024 (int_operand a) (int_operand b));
      try discriminate. intros [= <-]. now right.
Qed.

Lemma Zdigits2_shift (p : positive) (d : positive) :
  Zdigits2 (Zpos (shift_pos d p)) = Zdigits2 (Zpos p) + Zpos d.
Proof.
  assert (Hpow : Zpos (shift_pos d p) = Zpos p * 2 ^ Zpos d).
  { rewrite shift_pos_correct, Zpower_pos_nat, Zpower_nat_Z, positive_nat_Z.
    apply Z.mul_comm. }
  rewrite !Zdigits2_log2 by lia.
  rewrite Hpow, Z.log2_mul_pow2 by lia. lia.
Qed.

(** A non-negative integer below [2^1023] converts to a finite float. *)
Lemma float_of_int_finite (n : Z) :
  0 <= n < 2 ^ 1023 -> is_finite (float_of_int n) = true.
Proof.
  intros [H0 Hn]. unfold float_of_int, binary_normalize.
  destruct n as [|p|p]; [reflexivity| |lia].
  unfold binary_round, shl_align.
  assert (Hd : Zdigits2 (Zpos p) <= 1023) by (apply Zdigits2_le; lia).
  assert (Hd1 : 1 <= Zdigits2 (Zpos p))
    by (rewrite Zdigits2_log2 by lia; pose proof (Z.log2_nonneg (Zpos p)); lia).
  change (Zpos (digits2_pos p)) with (Zdigits2 (Zpos p)).
  unfold fexp, emin.
  destruct (Z.max (Zdigits2 (Zpos p) + 0 - 53) (3 - 1024 - 53) - 0)
    as [|d|d] eqn:Ed.
  - apply binary_round_aux_finite; lia.
  - apply binary_round_aux_finite; lia.
  - change (PosDef.Pos.iter xO p d) with (shift_pos d p).
    apply binary_round_aux_finite; [lia | lia |].
    rewrite Zdigits2_shift. lia.
Qed.

Lemma int_to_float_quiet (n : Z) :
  0 <= n < 2 ^ 1023 -> exists f, int_to_float n = inr f.
Proof.
  intros Hn. assert (Hfin := float_of_int_finite n Hn). unfold int_to_float.
  destruct (float_of_int n); try discriminate Hfin; eexists; reflexivity.
Qed.

Lemma int_to_float_raises (n : Z) (e : exn) :
  int_to_float n = inl e -> e = OverflowError.
Proof.
  unfold int_to_float. destruct (float_of_int n); try discriminate.
  now intros [= <-].
Qed.

(** ** Statements that raise nothing *)

Lemma printable_small (z : Z) : Z.abs z <= 141 * 2 ^ 1000 -> printable z.
Proof.
  intros H. unfold printable.
  assert (Hc : 141 * 2 ^ 1000 < 10 ^ 4300) by (vm_compute; reflexivity).
  revert H Hc. generalize (10 ^ 4300) (141 * 2 ^ 1000). intros; lia.
Qed.

Lemma format_small (z : Z) : Z.abs z <= 141 * 2 ^ 1000 -> format_int z = None.
Proof. intros H. now apply format_int_none, printable_small. Qed.

Lemma abs_scale (k v b : Z) :
  0 < k <= 141 -> Z.abs v <= b -> Z.abs (k * v) <= 141 * b.
Proof. intros Hk Hv. rewrite Z.abs_mul. nia. Qed.

Lemma format_int_some (z : Z) (e : exn) :
  format_int z = Some e -> e = ValueErrorDigits.
Proof.
  destruct (format_int_cases z) as [H|H]; rewrite H; [discriminate|].
  now intros [= <-].
Qed.

Lemma formats_some (a b c : Z) (e : exn) :
  first_raise [format_int a; format_int b; format_int c] = Some e ->
  e = ValueErrorDigits.
Proof.
  intros E. apply first_raise_some in E.
  destruct E as [E | [E | [E | []]]];
    now apply format_int_some in E.
Qed.

(** What a bar can raise, and when it raises nothing. *)
Lemma bar_raises_kind (used total : Z) (e : exn) :
  bar_raises used total = Some e ->
  e = OverflowError \/ e = ValueErrorDigits.
Proof.
  unfold bar_raises, create_progress_bar.
  destruct (Z.eqb_spec total 0) as [Ht|Ht].
  - destruct (first_raise _) as [e'|] eqn:E; [|discriminate].
    intros [= <-]. right. now apply formats_some in E.
  - destruct (true_divide used total) as [e'|q] eqn:Ed.
    + intros [= <-]. apply true_divide_raises in Ed.
      destruct Ed as [[H0 _] | [_ ->]]; [contradiction | now left].
    + repeat match goal with
             | |- context [if ?b then _ else _] => destruct b
             end;
        (destruct (first_raise _) as [e'|] eqn:E; [|discriminate]);
        intros [= <-]; right; now apply formats_some in E.
Qed.

Lemma bar_quiet (used total : Z) :
  0 <= used < 2 ^ 1000 -> 0 <= total < 2 ^ 1000 ->
  bar_raises used total = None.
Proof.
  intros Hu Ht. unfold bar_raises, create_progress_bar.
  assert (Hfmt : first_raise [format_int used; format_int total;
                              format_int (total - used)] = None).
  { apply first_raise_none.
    intros s [<- | [<- | [<- | []]]]; apply format_small; lia. }
  destruct (Z.eqb_spec total 0) as [H0|H0].
  - cbv zeta. rewrite Hfmt.
    repeat match goal with
           | |- context [if ?b then _ else _] => destruct b
           end; reflexivity.
  - destruct (true_divide_quiet used total H0) as [q Hq]; [lia|].
    rewrite Hq, Hfmt.
    repeat match goal with
           | |- context [if ?b then _ else _] => destruct b
           end; reflexivity.
Qed.

Lemma availability_pct_kind (p : partition) (e : exn) :
  availability_pct_raises p = Some e -> e = OverflowError.
Proof.
  unfold availability_pct_raises.
  destruct (Z.ltb_spec 0 (total_nodes p)); [|discriminate].
  destruct (true_divide _ _) as [e'|] eqn:Ed; [|discriminate].
  intros [= <-]. apply true_divide_raises in Ed.
  destruct Ed as [[H0 _] | [_ ->]]; [lia | reflexivity].
Qed.

Lemma benign_format (z : Z) : benign (format_int z).
Proof.
  intros e He. right. now apply (format_int_some z).
Qed.

Lemma benign_bar (used total : Z) : benign (bar_raises used total).
Proof. intros e. apply bar_raises_kind. Qed.

Lemma benign_none : benign None.
Proof. intros e He. discriminate. Qed.

Lemma benign_pct (p : partition) : benign (availability_pct_raises p).
Proof. intros e He. left. now apply (availability_pct_kind p). Qed.

Lemma benign_float (n : Z) :
  benign (match int_to_float n with inl e => Some e | inr _ => None end).
Proof.
  intros e. destruct (int_to_float n) as [e'|] eqn:E; [|discriminate].
  intros [= <-]. left. now apply (int_to_float_raises n).
Qed.

Lemma Forall_flat_map (A B : Type) (P : B -> Prop) (f : A -> list B)
      (l : list A) :
  (forall a, In a l -> Forall P (f a)) -> Forall P (flat_map f l).
Proof.
  intros H. apply Forall_forall. intros b Hb. apply in_flat_map in Hb.
  destruct Hb as [a [Ha Hb]].
  exact (proj1 (Forall_forall P (f a)) (H a Ha) b Hb).
Qed.

Ltac benign_list :=
  repeat (apply Forall_cons;
          [first [apply benign_format | apply benign_bar | apply benign_float
                 | apply benign_pct | apply benign_none]|]);
  apply Forall_nil.

Lemma benign_gpu_partition (k : Z) (x : ranked) :
  Forall benign (gpu_partition_raises k x).
Proof.
  unfold gpu_partition_raises. cbv zeta.
  destruct (_ || _); benign_list.
Qed.

Lemma benign_card (c : card) : Forall benign (card_raises c).
Proof.
  unfold card_raises. apply Forall_app. split; [benign_list|].
  apply Forall_app. split.
  - destruct (card_partial c); benign_list.
  - apply Forall_flat_map. intros x _. apply benign_gpu_partition.
Qed.

Lemma benign_cpu_partition (x : ranked) :
  Forall benign (cpu_partition_raises x).
Proof. unfold cpu_partition_raises. cbv zeta. benign_list. Qed.

Lemma benign_result (r : result) : Forall benign (result_raises r).
Proof. unfold result_raises. benign_list. Qed.

Lemma benign_if (cond : bool) (z : Z) :
  Forall benign (if cond then [format_int z] else []).
Proof. destruct cond; benign_list. Qed.

Lemma benign_gpu_section (min_gpu_memory : Z) (g : groups)
      (cards : list card) :
  Forall benign (gpu_section_raises min_gpu_memory g cards).
Proof.
  unfold gpu_section_raises. destruct g; [apply Forall_nil|].
  apply Forall_app. split; [apply benign_if|].
  apply Forall_app. split; [|apply benign_if].
  apply Forall_flat_map. intros c _. apply benign_card.
Qed.

Lemma benign_table (min_gpu_memory : Z) (results : list result) :
  Forall benign (table_section_raises min_gpu_memory results).
Proof.
  unfold table_section_raises. destruct results; [apply Forall_nil|].
  destruct (0 <? min_gpu_memory); [|apply Forall_nil].
  apply Forall_cons; [apply benign_format|].
  apply Forall_flat_map. intros r0 _. apply benign_result.
Qed.

Lemma render_raises_unfold (min_gpu_memory : Z) (partitions : list partition) :
  let g := sorted_groups (fst (categorize partitions)) in
  let cpu := sort_partitions (snd (categorize partitions)) in
  let cards := fst (gpu_cards min_gpu_memory g (sorted_keys g)) in
  let results := snd (gpu_cards min_gpu_memory g (sorted_keys g)) in
  render_raises min_gpu_memory partitions
  = first_raise
      (gpu_section_raises min_gpu_memory g cards
       ++ flat_map cpu_partition_raises cpu
       ++ table_section_raises min_gpu_memory results).
Proof.
  unfold render_raises. destruct (categorize partitions) as [gp cp].
  cbn [fst snd]. cbv zeta.
  now destruct (gpu_cards min_gpu_memory (sorted_groups gp)
                  (sorted_keys (sorted_groups gp))).
Qed.

(** Whatever the page builder raises is an [OverflowError] or the
    [ValueError] of the digit limit. *)
Lemma render_raises_kind (min_gpu_memory : Z) (partitions : list partition)
      (e : exn) :
  render_raises min_gpu_memory partitions = Some e ->
  e = OverflowError \/ e = ValueErrorDigits.
Proof.
  rewrite render_raises_unfold. cbv zeta. intros He.
  apply first_raise_some in He.
  refine (proj1 (Forall_forall benign _) _ (Some e) He e eq_refl).
  apply Forall_app. split; [apply benign_gpu_section|].
  apply Forall_app. split; [|apply benign_table].
  apply Forall_flat_map. intros x _. apply benign_cpu_partition.
Qed.

(** ** Moderate counters raise nothing *)

Lemma sum_of_filter_le (f : partition -> Z) (q : ranked -> bool)
      (l : list ranked) :
  (forall x, In x l -> 0 <= f (part x)) ->
  0 <= sum_of f (filter q l) <= sum_of f l.
Proof.
  unfold sum_of. induction l as [|x l IH]; intros H; simpl; [lia|].
  assert (Hx := H x (or_introl eq_refl)).
  assert (IH' := IH (fun y Hy => H y (or_intror Hy))).
  destruct (q x); simpl; lia.
Qed.

Lemma sum_of_perm (f : partition -> Z) (l l' : list ranked) :
  Permutation l l' -> sum_of f l = sum_of f l'.
Proof.
  unfold sum_of.
  induction 1 as [|x l l' _ IH|x y l|l1 l2 l3 _ IH1 _ IH2]; simpl; lia.
Qed.

Lemma sum_of_annotate (f : partition -> Z) (l : list partition) :
  sum_of f (map annotate l) = sum_list (map f l).
Proof.
  unfold sum_of, sum_list. induction l as [|p l IH]; simpl; [|rewrite IH];
    reflexivity.
Qed.

Lemma sum_of_member (f : partition -> Z) (l : list ranked) (x : ranked) :
  (forall y, In y l -> 0 <= f (part y)) ->
  In x l -> f (part x) <= sum_of f l.
Proof.
  unfold sum_of. induction l as [|y l IH]; intros H Hx; [destruct Hx|].
  simpl. assert (Hy := H y (or_introl eq_refl)).
  assert (Hl : 0 <= fold_right (fun x acc => f (part x) + acc) 0 l).
  { clear -H. induction l as [|z l IH]; simpl; [lia|].
    assert (Hz := H z (or_intror (or_introl eq_refl))).
    assert (IH' : 0 <= fold_right (fun x acc => f (part x) + acc) 0 l).
    { apply IH. intros w [<- | Hw]; apply H; [now left | now right; right]. }
    lia. }
  destruct Hx as [<- | Hx]; [lia|].
  assert (IH' := IH (fun z Hz => H z (or_intror Hz)) Hx). lia.
Qed.

Lemma sum_of_le (f g : partition -> Z) (l : list ranked) :
  (forall x, In x l -> f (part x) <= g (part x)) ->
  sum_of f l <= sum_of g l.
Proof.
  unfold sum_of. induction l as [|x l IH]; intros H; simpl; [lia|].
  assert (Hx := H x (or_introl eq_refl)).
  assert (IH' := IH (fun y Hy => H y (or_intror Hy))). lia.
Qed.

Lemma sum_of_nonneg (f : partition -> Z) (l : list ranked) :
  (forall x, In x l -> 0 <= f (part x)) -> 0 <= sum_of f l.
Proof.
  unfold sum_of. induction l as [|x l IH]; intros H; simpl; [lia|].
  assert (Hx := H x (or_introl eq_refl)).
  assert (IH' := IH (fun y Hy => H y (or_intror Hy))). lia.
Qed.

Lemma counter_sum_nonneg (p : partition) : all_counts p -> 0 <= counter_sum p.
Proof. unfold all_counts, counter_sum. lia. Qed.

Lemma moderate_annotate (partitions : list partition) :
  moderate partitions -> moderate_run (map annotate partitions).
Proof.
  intros [Hall Hsum]. split.
  - intros x Hx. apply in_map_iff in Hx. destruct Hx as [p [<- Hp]].
    exact (proj1 (Forall_forall _ _) Hall p Hp).
  - now rewrite sum_of_annotate.
Qed.

Lemma moderate_filter (q : ranked -> bool) (l : list ranked) :
  moderate_run l -> moderate_run (filter q l).
Proof.
  intros [Hall Hsum]. split.
  - intros x Hx. apply filter_In in Hx. now apply Hall.
  - assert (H := sum_of_filter_le counter_sum q l
                   (fun x Hx => counter_sum_nonneg _ (Hall x Hx))). lia.
Qed.

Lemma moderate_sort (l : list ranked) :
  moderate_run l -> moderate_run (sort_partitions l).
Proof.
  intros [Hall Hsum].
  assert (Hperm : Permutation (sort_partitions l) l)
    by apply sort_reverse_perm.
  split.
  - intros x Hx. apply Hall. eapply Permutation_in; eassumption.
  - now rewrite (sum_of_perm _ _ _ Hperm).
Qed.

(** In a moderate run every counter of every partition, and every sum of
    one counter over the run, is a count below the bound. *)
Lemma moderate_member (l : list ranked) (x : ranked) :
  moderate_run l -> In x l ->
  all_counts (part x) /\ counter_sum (part x) < 2 ^ 1000.
Proof.
  intros [Hall Hsum] Hx. split; [now apply Hall|].
  assert (H := sum_of_member counter_sum l x
                 (fun y Hy => counter_sum_nonneg _ (Hall y Hy)) Hx). lia.
Qed.

Lemma moderate_sum (f : partition -> Z) (l : list ranked) :
  moderate_run l ->
  (forall p, all_counts p -> 0 <= f p <= counter_sum p) ->
  0 <= sum_of f l < 2 ^ 1000.
Proof.
  intros [Hall Hsum] Hf. split.
  - apply sum_of_nonneg. intros x Hx. now apply Hf, Hall.
  - assert (H := sum_of_le f counter_sum l
                   (fun x Hx => proj2 (Hf _ (Hall x Hx)))). lia.
Qed.

Lemma gpu_class_bounds (p : partition) (k : Z) :
  gpu_class (annotate p) = Some k -> 0 < k <= 141.
Proof.
  unfold gpu_class, annotate. cbn [gpu_memory].
  destruct (infer_gpu_memory (name p)) as [m|] eqn:E; [|discriminate].
  destruct (Z.eqb_spec m 0); [discriminate|]. intros [= <-].
  apply first_match_in in E. destruct E as [f Hf]. simpl in Hf.
  repeat (destruct Hf as [Hf | Hf]; [injection Hf as _ <-; lia|]).
  destruct Hf.
Qed.

Ltac quiet_list :=
  let s := fresh "s" in
  let Hs := fresh "Hs" in
  intros s Hs; cbn [In] in Hs;
  repeat (destruct Hs as [Hs | Hs]; [subst s|]); try contradiction.

Lemma gpu_partition_quiet (k : Z) (x : ranked) :
  0 < k <= 141 ->
  all_counts (part x) -> counter_sum (part x) < 2 ^ 1000 ->
  forall s, In s (gpu_partition_raises k x) -> s = None.
Proof.
  intros Hk Hc Hs. unfold all_counts, counter_sum in *.
  unfold gpu_partition_raises. cbv zeta.
  assert (H1 : 1 <= 2 ^ 1000) by (apply (Z.pow_le_mono_r 2 0 1000); lia).
  quiet_list.
  - apply format_small, abs_scale; [exact Hk | lia].
  - apply format_small. lia.
  - apply format_small. lia.
  - apply bar_quiet; lia.
  - apply bar_quiet; lia.
  - apply format_small. lia.
  - apply format_small. lia.
  - apply format_small. lia.
  - apply format_small. lia.
  - destruct (_ || _); [|reflexivity].
    unfold availability_pct_raises.
    destruct (Z.ltb_spec 0 (total_nodes (part x))); [|reflexivity].
    destruct (true_divide_quiet
                (total_nodes (part x) - allocated_nodes (part x))
                (total_nodes (part x))) as [q Hq]; [lia | | now rewrite Hq].
    assert (H2 : 2 ^ 1000 <= 2 ^ 1023)
      by (apply Z.pow_le_mono_r; lia).
    revert H1 H2 Hs. generalize (2 ^ 1000) (2 ^ 1023). intros b c H1 H2 Hs.
    nia.
Qed.

Lemma cpu_partition_quiet (x : ranked) :
  all_counts (part x) -> counter_sum (part x) < 2 ^ 1000 ->
  forall s, In s (cpu_partition_raises x) -> s = None.
Proof.
  intros Hc Hs. unfold all_counts, counter_sum in *.
  unfold cpu_partition_raises. cbv zeta.
  quiet_list; try (apply bar_quiet; lia); apply format_small; lia.
Qed.

Lemma card_fields (min_gpu_memory : Z) (g : groups) (k : Z) (c : card) :
  In c (card_for min_gpu_memory g k) ->
  c = make_card min_gpu_memory k (group_get k g)
        (filter (passes min_gpu_memory k) (group_get k g)).
Proof.
  unfold card_for.
  destruct (filter (passes min_gpu_memory k) (group_get k g));
    [intros [] | intros [<- | []]]; reflexivity.
Qed.

Lemma card_quiet (min_gpu_memory k : Z) (group : list ranked) :
  0 < k <= 141 -> moderate_run group ->
  forall s,
    In s (card_raises
            (make_card min_gpu_memory k group
               (filter (passes min_gpu_memory k) group))) ->
    s = None.
Proof.
  intros Hk Hgroup.
  assert (Hrun := moderate_filter (passes min_gpu_memory k) group Hgroup).
  set (shown := filter (passes min_gpu_memory k) group) in *.
  assert (Ht := moderate_sum total_nodes shown Hrun
                  ltac:(unfold all_counts, counter_sum; intros; lia)).
  assert (Hi := moderate_sum idle_nodes shown Hrun
                  ltac:(unfold all_counts, counter_sum; intros; lia)).
  assert (Ha := moderate_sum allocated_nodes shown Hrun
                  ltac:(unfold all_counts, counter_sum; intros; lia)).
  assert (H1 : 1 <= 2 ^ 1000) by (apply (Z.pow_le_mono_r 2 0 1000); lia).
  assert (H2 : 2 ^ 1000 <= 2 ^ 1023) by (apply Z.pow_le_mono_r; lia).
  unfold card_raises.
  cbn [make_card card_total_nodes_sum card_gpu_mem
       card_total_available_gpu_memory card_available_nodes_sum
       card_idle_nodes_sum card_partial card_partitions].
  intros s Hs. apply in_app_or in Hs. destruct Hs as [Hs | Hs].
  - revert s Hs. quiet_list.
    + destruct (int_to_float_quiet (sum_of total_nodes shown)) as [f Hf];
        [lia | now rewrite Hf].
    + apply format_small. lia.
    + apply format_small, abs_scale; [exact Hk | lia].
    + apply format_small. lia.
    + apply format_small. lia.
  - apply in_app_or in Hs. destruct Hs as [Hs | Hs].
    + destruct (_ && _); [destruct Hs|].
      destruct Hs as [<- | []]. apply format_small. lia.
    + apply in_flat_map in Hs. destruct Hs as [x [Hx Hs]].
      destruct (moderate_member shown x Hrun Hx) as [Hc Hb].
      now apply (gpu_partition_quiet k x Hk Hc Hb).
Qed.

Lemma result_quiet (k : Z) (x : ranked) (r : result) :
  0 < k <= 141 ->
  all_counts (part x) -> counter_sum (part x) < 2 ^ 1000 ->
  In r (result_of k x) ->
  forall s, In s (result_raises r) -> s = None.
Proof.
  intros Hk Hc Hs. unfold all_counts, counter_sum in *.
  unfold result_of. cbv zeta.
  assert (H1 : 1 <= 2 ^ 1000) by (apply (Z.pow_le_mono_r 2 0 1000); lia).
  destruct (_ || _); [|intros []]. intros [<- | []].
  unfold result_raises.
  cbn [res_gpu_memory res_total_available_gpu_memory res_available_nodes
       res_idle_nodes].
  quiet_list; try (apply format_small, abs_scale; [exact Hk | lia]);
    apply format_small; lia.
Qed.

Lemma group_moderate (partitions : list partition) (k : Z) :
  moderate partitions ->
  moderate_run (group_get k (sorted_groups (fst (categorize partitions)))).
Proof.
  intros H. rewrite sorted_group_members.
  now apply moderate_sort, moderate_filter, moderate_annotate.
Qed.

Lemma key_bounds (partitions : list partition) (k : Z) :
  In k (sorted_keys (sorted_groups (fst (categorize partitions)))) ->
  0 < k <= 141.
Proof.
  intros Hk. apply sorted_keys_spec in Hk. destruct Hk as [x [Hx Hk]].
  apply in_map_iff in Hx. destruct Hx as [p [<- _]].
  now apply (gpu_class_bounds p).
Qed.

Lemma gpu_section_raises_in (min_gpu_memory : Z) (g : groups)
      (cards : list card) (s : option exn) :
  In s (gpu_section_raises min_gpu_memory g cards) ->
  s = format_int min_gpu_memory
  \/ exists c, In c cards /\ In s (card_raises c).
Proof.
  unfold gpu_section_raises. destruct g; [intros []|].
  intros Hs. apply in_app_or in Hs. destruct Hs as [Hs | Hs].
  - left. destruct (0 <? min_gpu_memory); [|destruct Hs].
    now destruct Hs as [<- | []].
  - apply in_app_or in Hs. destruct Hs as [Hs | Hs].
    + right. now apply in_flat_map in Hs.
    + left. destruct (0 <? min_gpu_memory); [|destruct Hs].
      now destruct Hs as [<- | []].
Qed.

Lemma table_section_raises_in (min_gpu_memory : Z) (results : list result)
      (s : option exn) :
  In s (table_section_raises min_gpu_memory results) ->
  s = format_int min_gpu_memory
  \/ exists r, In r results /\ In s (result_raises r).
Proof.
  unfold table_section_raises. destruct results as [|r0 results];
    [intros []|].
  destruct (0 <? min_gpu_memory); [|intros []].
  intros [<- | Hs]; [now left|]. right.
  apply in_flat_map in Hs. destruct Hs as [r [Hr Hs]].
  exists r. split; [|exact Hs].
  exact (Permutation_in _ (sort_reverse_perm _ _ _) Hr).
Qed.

(** The page of a moderate cluster is built without an exception, under
    any threshold that can be printed. *)
Lemma render_quiet (min_gpu_memory : Z) (partitions : list partition) :
  moderate partitions -> printable min_gpu_memory ->
  render_raises min_gpu_memory partitions = None.
Proof.
  intros Hmod Hthr. rewrite render_raises_unfold. cbv zeta.
  apply first_raise_none. intros s Hs.
  apply in_app_or in Hs. destruct Hs as [Hs | Hs];
    [|apply in_app_or in Hs; destruct Hs as [Hs | Hs]].
  - apply gpu_section_raises_in in Hs.
    destruct Hs as [-> | [c [Hc Hs]]]; [now apply format_int_none|].
    rewrite gpu_cards_fst in Hc. apply in_flat_map in Hc.
    destruct Hc as [k [Hk Hc]]. apply card_fields in Hc. subst c.
    revert s Hs. apply card_quiet.
    + now apply (key_bounds partitions).
    + now apply group_moderate.
  - apply in_flat_map in Hs. destruct Hs as [x [Hx Hs]].
    rewrite sorted_cpu_members in Hx.
    assert (Hrun : moderate_run
                     (sort_partitions
                        (filter is_cpu (map annotate partitions))))
      by now apply moderate_sort, moderate_filter, moderate_annotate.
    destruct (moderate_member _ x Hrun Hx) as [Hc Hb].
    now apply (cpu_partition_quiet x Hc Hb).
  - apply table_section_raises_in in Hs.
    destruct Hs as [-> | [r [Hr Hs]]]; [now apply format_int_none|].
    rewrite gpu_cards_snd in Hr. apply in_flat_map in Hr.
    destruct Hr as [k [Hk Hr]]. apply in_flat_map in Hr.
    destruct Hr as [x [Hx Hr]].
    assert (Hrun := moderate_filter (passes min_gpu_memory k) _
                      (group_moderate partitions k Hmod)).
    destruct (moderate_member _ x Hrun Hx) as [Hc Hb].
    exact (result_quiet k x r (key_bounds partitions k Hk) Hc Hb Hr s Hs).
Qed.

(** C3, as amended: when the stripped output has a first line and at
    least one more, and no row makes [int] fail, the parser returns the
    partitions aggregated from exactly the rows that parsed, and the call
    never returns an error text.  With no usable row at all the partition
    list is empty and the page is returned with neither a GPU nor a CPU
    section; with a usable row the list is not empty.  The page is built
    from that list, and it is returned whenever the counters are those of a
    moderate cluster and the threshold can be printed; when the call
    returns no page, it is because an [OverflowError] or the [ValueError]
    of the digit limit leaves it. *)
Theorem zero_usable_rows_is_not_an_error
    (min_gpu_memory : Z) (stdout header : string) (rows : list string) :
  PyStr.split_on "010" (PyStr.strip stdout) = header :: rows ->
  rows <> [] ->
  no_line_raises rows ->
  let partitions := dict_values (fold_left add_row (rows_of rows) []) in
  let outcome := get_available_resources min_gpu_memory (Completed 0 stdout) in
  get_detailed_partition_info (Completed 0 stdout) = Info partitions
  /\ (forall error, outcome <> ErrorText error)
  /\ (rows_of rows = [] ->
      partitions = [] /\ outcome = Summary [Banner; Legend])
  /\ (rows_of rows <> [] -> partitions <> [])
  /\ (moderate partitions -> printable min_gpu_memory ->
      outcome = Summary (render min_gpu_memory partitions))
  /\ (forall blocks,
        outcome = Summary blocks -> blocks = render min_gpu_memory partitions)
  /\ (forall e,
        outcome = Raised e -> e = OverflowError \/ e = ValueErrorDigits).
Proof.
  intros Hlines Hrows Hno partitions outcome.
  assert (Hinfo : get_detailed_partition_info (Completed 0 stdout)
                  = Info partitions).
  { simpl. rewrite Hlines. unfold info_of_lines.
    destruct rows as [|r0 rows']; [contradiction|].
    cbn [List.length Nat.ltb Nat.leb tl].
    now rewrite (aggregate_lines_rows _ Hno). }
  assert (Hout : outcome
                 = match render_raises min_gpu_memory partitions with
                   | Some e => Raised e
                   | None => Summary (render min_gpu_memory partitions)
                   end).
  { unfold outcome, get_available_resources. now rewrite Hinfo. }
  split; [exact Hinfo|].
  split; [intros error; rewrite Hout; now destruct (render_raises _ _)|].
  split; [|split; [|split; [|split]]].
  - intros Hnone. assert (Hp : partitions = [])
      by (unfold partitions; now rewrite Hnone).
    split; [exact Hp|]. rewrite Hout, Hp. reflexivity.
  - intros Hsome Hp. unfold partitions, dict_values in Hp.
    apply map_eq_nil in Hp.
    destruct (rows_of rows) as [|r rs]; [contradiction|].
    simpl in Hp. revert Hp. apply fold_add_row_not_empty, add_row_not_empty.
  - intros Hmod Hthr. rewrite Hout.
    now rewrite (render_quiet min_gpu_memory partitions Hmod Hthr).
  - intros blocks. rewrite Hout.
    destruct (render_raises _ _); [discriminate | now intros [= <-]].
  - intros e. rewrite Hout.
    destruct (render_raises _ _) as [e'|] eqn:E; [|discriminate].
    intros [= <-]. now apply (render_raises_kind min_gpu_memory partitions).
Qed.

Lemma zero_usable_rows_is_not_an_error_witness :
  let stdout := String.concat (String "010" "")
                  ["HDR"; "gpu 3/1/0 1/2/3/6 3 1:00 idle n1"] in
  let stdout' := String.concat (String "010" "")
                   ["HDR"; "a100 1/1/0/2 8/8/0/16 2 1:00:00 mixed n[1-2]"] in
  get_detailed_partition_info (Completed 0 stdout) = Info []
  /\ get_available_resources 48 (Completed 0 stdout) = Summary [Banner; Legend]
  /\ exists p,
       get_detailed_partition_info (Completed 0 stdout') = Info [p]
       /\ get_available_resources 48 (Completed 0 stdout')
          = Summary (render 48 [p]).
Proof.
  cbv zeta.
  set (stdout := String.concat (String "010" "")
                   ["HDR"; "gpu 3/1/0 1/2/3/6 3 1:00 idle n1"]).
  set (stdout' := String.concat (String "010" "")
                    ["HDR"; "a100 1/1/0/2 8/8/0/16 2 1:00:00 mixed n[1-2]"]).
  assert (Hlines : PyStr.split_on "010" (PyStr.strip stdout)
                   = "HDR" :: ["gpu 3/1/0 1/2/3/6 3 1:00 idle n1"])
    by reflexivity.
  assert (Hrows : ["gpu 3/1/0 1/2/3/6 3 1:00 idle n1"] <> [])
    by discriminate.
  assert (Hno : no_line_raises ["gpu 3/1/0 1/2/3/6 3 1:00 idle n1"]).
  { intros line e [<- | []]. vm_compute. discriminate. }
  destruct (zero_usable_rows_is_not_an_error 48 stdout _ _ Hlines Hrows Hno)
    as [H1 [_ [H3 _]]].
  split; [exact H1 | split; [exact (proj2 (H3 eq_refl))|]].
  assert (Hlines' : PyStr.split_on "010" (PyStr.strip stdout')
                    = "HDR" :: ["a100 1/1/0/2 8/8/0/16 2 1:00:00 mixed n[1-2]"])
    by reflexivity.
  assert (Hrows' : ["a100 1/1/0/2 8/8/0/16 2 1:00:00 mixed n[1-2]"] <> [])
    by discriminate.
  assert (Hno' : no_line_raises
                   ["a100 1/1/0/2 8/8/0/16 2 1:00:00 mixed n[1-2]"]).
  { intros line e [<- | []]. vm_compute. discriminate. }
  destruct (zero_usable_rows_is_not_an_error 48 stdout' _ _
              Hlines' Hrows' Hno')
    as [H1' [_ [_ [_ [H5' _]]]]].
  eexists. split; [exact H1'|]. apply H5'.
  - split; [repeat constructor; cbn; lia | vm_compute; reflexivity].
  - vm_compute. reflexivity.
Defined.

(** With a usable row the page builder can raise: on a report whose only
    row has [10^400] allocated nodes out of one, the node bar divides
    [10^400] by 1 and the [OverflowError] leaves the call; no error text is
    returned. *)
Example huge_counter_raises :
  (exists p, get_detailed_partition_info (Completed 0 huge_report) = Info [p]
             /\ allocated_nodes p = 10 ^ 400 /\ total_nodes p = 1)
  /\ get_available_resources 0 (Completed 0 huge_report)
     = Raised OverflowError.
Proof.
  split; [eexists; split; [vm_compute; reflexivity|]|vm_compute; reflexivity].
  split; vm_compute; reflexivity.
Qed.

(** X20: how a call of the page builder ends.  It returns the error text
    exactly when the parser fails; a page it returns is the list of blocks
    of the partitions the parser returned; an exception that leaves it is an
    [OverflowError] or the [ValueError] of the digit limit, never another
    one; and it returns the page whenever the counters are those of a
    moderate cluster (none negative, all of them together below [2^1000])
    and the threshold can be printed. *)
Theorem page_outcomes (min_gpu_memory : Z) (result : run_outcome) :
  let outcome := get_available_resources min_gpu_memory result in
  (forall error,
     outcome = ErrorText error
     <-> get_detailed_partition_info result = Failed error)
  /\ (forall blocks,
        outcome = Summary blocks ->
        exists partitions,
          get_detailed_partition_info result = Info partitions
          /\ blocks = render min_gpu_memory partitions)
  /\ (forall e,
        outcome = Raised e -> e = OverflowError \/ e = ValueErrorDigits)
  /\ (forall partitions,
        get_detailed_partition_info result = Info partitions ->
        moderate partitions -> printable min_gpu_memory ->
        outcome = Summary (render min_gpu_memory partitions)).
Proof.
  cbv zeta. unfold get_available_resources.
  destruct (get_detailed_partition_info result) as [partitions|error] eqn:E.
  - destruct (render_raises min_gpu_memory partitions) as [e|] eqn:Er.
    + split; [intros error; split; discriminate|].
      split; [discriminate|].
      split.
      * intros e' [= <-].
        now apply (render_raises_kind min_gpu_memory partitions).
      * intros ps [= <-] Hmod Hthr.
        now rewrite (render_quiet min_gpu_memory partitions Hmod Hthr) in Er.
    + split; [intros error; split; discriminate|].
      split; [intros blocks [= <-]; now exists partitions|].
      split; [discriminate|].
      now intros ps [= <-] _ _.
  - split; [intros error'; split; now intros [= <-]|].
    split; [discriminate|].
    split; discriminate.
Qed.
